(** * fs_misc.c: hash table, pk3 list, file-disabled checks, sort keys and
      core pak verification of the ioq3 "new filesystem"

    A shallow embedding of [code/filesystem/fs_misc.c].  C integers are
    integers of [Z] with the wrap-around of their C type written out, arrays
    are lists indexed with stdpp's lookup and insert, the intrusive bucket
    chains of the hash table are lists of entries, and the functions that
    touch file-scope statics pass that state explicitly. *)

From Stdlib Require Import ZArith List String Ascii Bool Lia DecimalString.
From stdpp Require Import base list.

Local Open Scope Z_scope.

(** ** C integer types *)

Definition INT_MAX : Z := 2147483647.
Definition UINT_MAX : Z := 4294967295.

(** Value of an [unsigned int] expression: reduction modulo 2^32. *)
Definition u32 (x : Z) : Z := x mod 4294967296.

(** Value stored in an [int]: two's complement reading of the low 32 bits
    (conversion of an out-of-range value, and the increment of [INT_MAX]). *)
Definition int32 (x : Z) : Z :=
  let r := u32 x in if r <=? INT_MAX then r else r - 4294967296.

(** ** Hash Table *)

Section HashTable.

(** The entry type: in C every entry starts with an [fs_hashtable_entry_t]
    holding the [next] link; a bucket chain is the list of its entries, the
    head first, and the null chain is [[]]. *)
Context {A : Type}.

Record fs_hashtable_t : Type := mk_hashtable {
  buckets : list (list A);
  bucket_count : Z;
  element_count : Z
}.

(** A zeroed (uninitialized) table: no bucket array, counts 0. *)
Definition fs_hashtable_zeroed : fs_hashtable_t :=
  {| buckets := []; bucket_count := 0; element_count := 0 |}.

(** [FSC_ASSERT] failures abort the operation: [None]. [Z_Malloc] returns
    zeroed memory, so every bucket starts as the null chain. *)
Definition fs_hashtable_initialize (bucket_count : Z) : option fs_hashtable_t :=
  if 0 <? bucket_count then
    Some {| buckets := replicate (Z.to_nat bucket_count) [];
            bucket_count := bucket_count;
            element_count := 0 |}
  else None.

(** [buckets[index]] read as a chain. *)
Definition bucket_at (t : fs_hashtable_t) (index : Z) : list A :=
  default [] (buckets t !! Z.to_nat index).

(** [index = hash % hashtable->bucket_count]: [hash] is unsigned, so the
    [int] bucket count is converted to unsigned for the division. *)
Definition bucket_index (t : fs_hashtable_t) (hash : Z) : Z :=
  hash mod u32 (bucket_count t).

Definition fs_hashtable_insert (t : fs_hashtable_t) (entry : A) (hash : Z)
  : option fs_hashtable_t :=
  if 0 <? bucket_count t then
    let index := bucket_index t hash in
    Some {| buckets := <[Z.to_nat index := entry :: bucket_at t index]> (buckets t);
            bucket_count := bucket_count t;
            element_count := int32 (element_count t + 1) |}
  else None.

(** The iterator keeps the table it walks ([iterator.ht]); [current_entry]
    is the chain starting at the entry the C pointer designates. *)
Record fs_hashtable_iterator_t : Type := mk_iterator {
  it_ht : fs_hashtable_t;
  current_bucket : Z;
  bucket_limit : Z;
  current_entry : list A
}.

Definition fs_hashtable_iterate (t : fs_hashtable_t) (hash : Z) (iterate_all : bool)
  : fs_hashtable_iterator_t :=
  if (bucket_count t =? 0) || iterate_all then
    {| it_ht := t; current_bucket := 0; bucket_limit := bucket_count t;
       current_entry := [] |}
  else
    {| it_ht := t; current_bucket := bucket_index t hash;
       bucket_limit := bucket_index t hash + 1;
       current_entry := [] |}.

(** The [while(!entry)] loop of [fs_hashtable_next]; [n] bounds the number
    of buckets still to visit. *)
Fixpoint next_scan (n : nat) (t : fs_hashtable_t) (cb bl : Z) (entry : list A)
  : option A * fs_hashtable_iterator_t :=
  match entry with
  | e :: rest =>
      (Some e, {| it_ht := t; current_bucket := cb; bucket_limit := bl;
                  current_entry := rest |})
  | [] =>
      if bl <=? cb then
        (None, {| it_ht := t; current_bucket := cb; bucket_limit := bl;
                  current_entry := [] |})
      else
        match n with
        | O => (None, {| it_ht := t; current_bucket := cb; bucket_limit := bl;
                         current_entry := [] |})
        | S n' => next_scan n' t (cb + 1) bl (bucket_at t cb)
        end
  end.

Definition fs_hashtable_next (it : fs_hashtable_iterator_t)
  : option A * fs_hashtable_iterator_t :=
  next_scan (Z.to_nat (bucket_limit it - current_bucket it))
            (it_ht it) (current_bucket it) (bucket_limit it) (current_entry it).

(** The sequence an iterator produces when [fs_hashtable_next] is called
    until it returns null. *)
Inductive iter_yields : fs_hashtable_iterator_t -> list A -> Prop :=
  | yields_done it it' :
      fs_hashtable_next it = (None, it') -> iter_yields it []
  | yields_entry it it' e l :
      fs_hashtable_next it = (Some e, it') -> iter_yields it' l ->
      iter_yields it (e :: l).

(** Entries an iterator has not produced yet: the rest of the current chain,
    then the chains of the buckets up to the limit, in bucket order. *)
Definition iter_pending (it : fs_hashtable_iterator_t) : list A :=
  current_entry it ++
  concat (take (Z.to_nat (bucket_limit it - current_bucket it))
               (drop (Z.to_nat (current_bucket it)) (buckets (it_ht it)))).

(** Well-formed tables: what [fs_hashtable_initialize] establishes and
    [fs_hashtable_insert] keeps, and the zeroed table. *)
Definition hashtable_wf (t : fs_hashtable_t) : Prop :=
  0 <= bucket_count t <= INT_MAX /\
  Z.of_nat (length (buckets t)) = bucket_count t.

Definition hashtable_initialized (t : fs_hashtable_t) : Prop :=
  hashtable_wf t /\ 0 < bucket_count t.

End HashTable.

Arguments fs_hashtable_t : clear implicits.
Arguments fs_hashtable_iterator_t : clear implicits.

(** ** Pk3 List *)

(** The pk3 list structure maps pk3 hashes to index value.  First pk3
    inserted has index 1, second pk3 has index 2, etc. *)

Record pk3_list_entry_t : Type := mk_pk3_entry {
  entry_hash : Z;       (* unsigned int hash *)
  entry_position : Z    (* int position *)
}.

Record pk3_list_t : Type := mk_pk3_list {
  pk3_ht : fs_hashtable_t pk3_list_entry_t
}.

(** [pk3_list_initialize] takes an [unsigned int] and hands it to the [int]
    parameter of [fs_hashtable_initialize]. *)
Definition pk3_list_initialize (bucket_count : Z) : option pk3_list_t :=
  match fs_hashtable_initialize (int32 bucket_count) with
  | Some t => Some {| pk3_ht := t |}
  | None => None
  end.

(** The [while((entry = fs_hashtable_next(&it)))] loop of [pk3_list_lookup];
    [fuel] bounds the number of calls of [fs_hashtable_next]. *)
Fixpoint pk3_lookup_loop (fuel : nat) (it : fs_hashtable_iterator_t pk3_list_entry_t)
  (hash : Z) : Z :=
  match fuel with
  | O => 0
  | S fuel' =>
      match fs_hashtable_next it with
      | (None, _) => 0
      | (Some entry, it') =>
          if entry_hash entry =? hash then entry_position entry
          else pk3_lookup_loop fuel' it' hash
      end
  end.

(** Every call of [fs_hashtable_next] but the last consumes one pending
    entry, so one more call than there are pending entries ends the loop. *)
Definition pk3_list_lookup (pk3_list : pk3_list_t) (hash : Z) : Z :=
  let it := fs_hashtable_iterate (pk3_ht pk3_list) hash false in
  pk3_lookup_loop (S (length (iter_pending it))) it hash.

(** [new_entry->hash] and [new_entry->position] are stored through the
    pointer the bucket head holds after [fs_hashtable_insert]; the entry value
    carries them from the start.  The position is the element count after the
    insertion. *)
Definition pk3_list_insert (pk3_list : pk3_list_t) (hash : Z) : option pk3_list_t :=
  if negb (pk3_list_lookup pk3_list hash =? 0) then Some pk3_list
  else
    let new_entry :=
      {| entry_hash := hash;
         entry_position := int32 (element_count (pk3_ht pk3_list) + 1) |} in
    match fs_hashtable_insert (pk3_ht pk3_list) new_entry hash with
    | Some t => Some {| pk3_ht := t |}
    | None => None
    end.

(** A sequence of [pk3_list_insert] calls. *)
Fixpoint pk3_list_insert_all (pk3_list : pk3_list_t) (hashes : list Z)
  : option pk3_list_t :=
  match hashes with
  | [] => Some pk3_list
  | h :: rest =>
      match pk3_list_insert pk3_list h with
      | Some pl => pk3_list_insert_all pl rest
      | None => None
      end
  end.

(** ** File Sorting Functions *)

(** [fsc_stream_t]: a caller-supplied buffer of [size] bytes with a write
    position; bytes are integers 0..255, [position] and [size] are
    [unsigned int]. *)
Record fsc_stream_t : Type := mk_stream {
  data : list Z;
  position : Z;
  size : Z;
  overflowed : bool
}.

Definition char_code (c : ascii) : Z := Z.of_N (N_of_ascii c).

(** Value of an [unsigned char] expression. *)
Definition u8 (x : Z) : Z := x mod 256.

(** [table[i]] *)
Definition table_at (table : list Z) (i : Z) : Z :=
  default 0 (table !! Z.to_nat i).

(** [for(i=hi; ...; --i) table[i] = value--;] with [n] iterations to go;
    [value] is an [unsigned char]. *)
Fixpoint fill_down (n : nat) (i : Z) (value : Z) (table : list Z) : list Z * Z :=
  match n with
  | O => (table, value)
  | S n' => fill_down n' (i - 1) (u8 (value - 1)) (<[Z.to_nat i := value]> table)
  end.

(** [for(i=hi; ...; --i) if(!table[i]) table[i] = value--;] *)
Fixpoint fill_down_unset (n : nat) (i : Z) (value : Z) (table : list Z)
  : list Z * Z :=
  match n with
  | O => (table, value)
  | S n' =>
      if table_at table i =? 0
      then fill_down_unset n' (i - 1) (u8 (value - 1)) (<[Z.to_nat i := value]> table)
      else fill_down_unset n' (i - 1) value table
  end.

(** Number of iterations of [for(i=hi; i>=lo; --i)]. *)
Definition down_count (hi lo : Z) : nat := Z.to_nat (hi - lo + 1).

(** The static [table] before any call: 256 zero bytes. *)
Definition sort_table_zero : list Z := replicate 256 0.

(** [get_string_sort_table]: the local [initialized] is not static, so the
    loops run on every call, over the static [table] as the previous calls
    left it; the result is the table returned, which is also the new content
    of the static. *)
Definition get_string_sort_table (table : list Z) : list Z :=
  let '(t1, _) := fill_down (down_count (char_code "z") (char_code "a"))
                            (char_code "z") 250 table in
  let '(t2, v2) := fill_down (down_count (char_code "Z") (char_code "A"))
                             (char_code "Z") 250 t1 in
  let '(t3, v3) := fill_down (down_count (char_code "9") (char_code "0"))
                             (char_code "9") v2 t2 in
  let '(t4, _) := fill_down_unset (down_count 255 0) 255 v3 t3 in
  t4.

(** [output->data[output->position++] = b] *)
Definition stream_put (output : fsc_stream_t) (b : Z) : fsc_stream_t :=
  {| data := <[Z.to_nat (position output) := b]> (data output);
     position := u32 (position output + 1);
     size := size output;
     overflowed := overflowed output |}.

(** The [while] loop of [fs_write_sort_string]: it runs while the current
    character is not NUL and [output->position < output->size]. *)
Fixpoint write_sort_chars (sort_table : list Z) (s : string) (output : fsc_stream_t)
  : fsc_stream_t :=
  match s with
  | EmptyString => output
  | String c rest =>
      if char_code c =? 0 then output
      else if position output <? size output
      then write_sort_chars sort_table rest
             (stream_put output (table_at sort_table (char_code c)))
      else output
  end.

(** [fs_write_sort_string], from the static table [table]; returns the
    stream and the static table after the call. *)
Definition fs_write_sort_string (table : list Z) (s : string) (output : fsc_stream_t)
  (prioritize_shorter : bool) : fsc_stream_t * list Z :=
  let sort_table := get_string_sort_table table in
  let output := write_sort_chars sort_table s output in
  (if position output <? size output
   then stream_put output (if prioritize_shorter then 255 else 0)
   else output,
   sort_table).

(** Object representation of an [unsigned int] on the host: its four bytes in
    memory order. *)
Definition u32_bytes (little_endian : bool) (v : Z) : list Z :=
  let b0 := Z.land v 255 in
  let b1 := Z.land (Z.shiftr v 8) 255 in
  let b2 := Z.land (Z.shiftr v 16) 255 in
  let b3 := Z.land (Z.shiftr v 24) 255 in
  if little_endian then [b0; b1; b2; b3] else [b3; b2; b1; b0].

(** [memcpy]-like store of bytes at offset [pos] of a buffer. *)
Fixpoint store_bytes (buffer : list Z) (pos : nat) (bytes : list Z) : list Z :=
  match bytes with
  | [] => buffer
  | b :: rest => store_bytes (<[pos := b]> buffer) (S pos) rest
  end.

(** [fs_write_sort_value]; [*(char * )&test] is the first byte of the
    representation of the [int] 1. *)
Definition fs_write_sort_value (little_endian : bool) (value : Z)
  (output : fsc_stream_t) : fsc_stream_t :=
  let test := 1 in
  let value :=
    if negb (default 0 (u32_bytes little_endian test !! 0%nat) =? 0) then
      let value := Z.lor (Z.land (u32 (Z.shiftl value 8)) 4278255360)
                         (Z.land (Z.shiftr value 8) 16711935) in
      Z.lor (u32 (Z.shiftl value 16)) (Z.shiftr value 16)
    else value in
  if u32 (position output + 3) <? size output then
    {| data := store_bytes (data output) (Z.to_nat (position output))
                           (u32_bytes little_endian value);
       position := u32 (position output + 4);
       size := size output;
       overflowed := overflowed output |}
  else output.

(** Bytes [pos .. pos+n-1] of a stream's buffer. *)
Definition stream_field (output : fsc_stream_t) (pos : Z) (n : nat) : list Z :=
  take n (drop (Z.to_nat pos) (data output)).

(** Modelled from the spec: [fsc_memcmp] is not part of this file; sort keys
    are "compared by unsigned byte-wise lexicographic order".  The result is
    negative, zero or positive like [memcmp]'s: the difference of the first
    pair of bytes that differ among the first [n]. *)
Fixpoint fsc_memcmp (a b : list Z) (n : nat) : Z :=
  match n, a, b with
  | S n', x :: a', y :: b' => if x =? y then fsc_memcmp a' b' n' else x - y
  | _, _, _ => 0
  end.

(** The comparison [fs_compare_pk3_source] ends with, on the two streams it
    has written: [fsc_memcmp(stream2.data, stream1.data, min(position1,
    position2))]. *)
Definition compare_sort_streams (stream1 stream2 : fsc_stream_t) : Z :=
  fsc_memcmp (data stream2) (data stream1)
    (Z.to_nat (if position stream1 <? position stream2
               then position stream1 else position stream2)).

(** "higher value = higher precedence": the key of [stream1] sorts before
    (takes precedence over) the key of [stream2] when the comparison is
    negative, that is when [stream1] holds the byte-wise greater key. *)
Definition sorts_before (stream1 stream2 : fsc_stream_t) : Prop :=
  compare_sort_streams stream1 stream2 < 0.

(** An empty stream over a buffer, as [fs_compare_pk3_source] sets it up. *)
Definition stream_init (buffer : list Z) : fsc_stream_t :=
  {| data := buffer; position := 0; size := Z.of_nat (length buffer);
     overflowed := false |}.

(** ** Files, globals and the state the functions below work on *)

(** A file record of the index ([fsc_file_t], and [fsc_file_direct_t] for
    the files found on disk).  [file_addr] is the address of the object, which
    is what the C code compares when it compares file pointers; [pk3_hash] and
    [pk3dir_ptr] are fields of a direct file. *)
Record fsc_file_t : Type := mk_file {
  file_addr : Z;
  sourcetype : Z;
  qp_name : string;
  qp_ext : string;
  flags : Z;
  pk3_hash : Z;
  pk3dir_ptr : option string   (* null unless the file is in a pk3dir *)
}.

(** Modelled from the spec: the declaration of [fs_modtype_t] is not part of
    this file; the spec gives "ModTier -- ordered enumeration {Inactive=0,
    Base, OverrideDirectory, CurrentMod}". *)
Inductive fs_modtype_t : Type :=
  | MODTYPE_INACTIVE
  | MODTYPE_BASE
  | MODTYPE_OVERRIDE_DIRECTORY
  | MODTYPE_CURRENT_MOD.

Definition modtype_value (m : fs_modtype_t) : Z :=
  match m with
  | MODTYPE_INACTIVE => 0
  | MODTYPE_BASE => 1
  | MODTYPE_OVERRIDE_DIRECTORY => 2
  | MODTYPE_CURRENT_MOD => 3
  end.

(** Globals and cvars the functions read. *)
Record fs_globals : Type := mk_globals {
  connected_server_pure_state : Z;   (* fs_connected_server_pure_state() *)
  connected_server_pure_list : pk3_list_t;
  current_mod_dir : string;
  com_basegame : string;             (* com_basegame->string *)
  current_game_dir : string;         (* FS_GetCurrentGameDir() *)
  fs_read_inactive_mods : Z;         (* fs_read_inactive_mods->integer *)
  fs_list_inactive_mods : Z;         (* fs_list_inactive_mods->integer *)
  fs_servercfg_listlimit : Z;        (* fs_servercfg_listlimit->integer *)
  fs_servercfg_modificationCount : Z;
  fs_servercfg_string : string
}.

(** Console lines, by the [Com_Printf] call that prints them. *)
Inductive console_line : Type :=
  | Print_max_servercfg_folders
  | Print_standalone
  | Print_misnamed (mod_ filename : string) (found : fsc_file_t)
  | Print_incorrect_hash_found (mod_ filename : string) (found : fsc_file_t)
  | Print_incorrect_hash (mod_ filename : string)
  | Print_not_found (mod_ filename : string)
  | Print_default_cfg_not_found.

(** Lines appended to the warning popup text. *)
Inductive popup_line : Type :=
  | Popup_incorrect_hash (mod_ filename : string)
  | Popup_not_found (mod_ filename : string)
  | Popup_default_cfg_not_found.

(** What a call does to the outside, in order. *)
Inductive fs_event : Type :=
  | Ev_print (line : console_line)
  | Ev_cvar_set (name value : string)
  | Ev_dialog (text : list popup_line)
  | Ev_quit.

(** The file-scope statics of the servercfg directory list
    ([servercfg_folder_count] is the length of the list), and the events
    produced so far. *)
Record fs_state : Type := mk_state {
  servercfg_cvar_mod_count : Z;
  servercfg_folders : list string;
  events : list fs_event
}.

(** Before the first call: [servercfg_cvar_mod_count = -1], no folders. *)
Definition fs_state_initial : fs_state :=
  {| servercfg_cvar_mod_count := -1; servercfg_folders := []; events := [] |}.

(** Computations on [fs_state]. *)
Definition M (A : Type) : Type := fs_state -> A * fs_state.

Definition ret {A : Type} (a : A) : M A := fun st => (a, st).

Definition bind {A B : Type} (c : M A) (k : A -> M B) : M B :=
  fun st => let '(a, st') := c st in k a st'.

Notation "x <- c ;; k" := (bind c (fun x => k))
  (at level 100, c at next level, right associativity).

Definition emit (e : fs_event) : M unit :=
  fun st => (tt, {| servercfg_cvar_mod_count := servercfg_cvar_mod_count st;
                    servercfg_folders := servercfg_folders st;
                    events := events st ++ [e] |}).

Definition Com_Printf (line : console_line) : M unit := emit (Ev_print line).

(** [#define MAX_SERVERCFG_FOLDERS 32] *)
Definition MAX_SERVERCFG_FOLDERS : Z := 32.

(** [PROCESS_PAKS]: position (from 1) of the first element of the table
    equal to [hash]; [i] is the index of the head of [hashes]. *)
Fixpoint process_paks (hash : Z) (hashes : list Z) (i : Z) : option Z :=
  match hashes with
  | [] => None
  | h :: rest => if hash =? h then Some (i + 1) else process_paks hash rest (i + 1)
  end.

Definition string_is_empty (s : string) : bool :=
  match s with EmptyString => true | String _ _ => false end.

(** ** What the file takes from its headers and from other files *)

(** Macros of the headers: the two sourcetypes, the identifiers of the
    checks of [fs_file_disabled], the build options [FS_SERVERCFG_ENABLED] and
    [DEDICATED] (defined or not), the core pak hash tables [FS_CORE_PAKS] and
    [FS_CORE_PAKS_TEAMARENA] ([None] when the macro is not defined), the game
    directory names and the size of a mod directory buffer; the byte order of
    the host.

    Functions of other files: string comparison ignoring case (0 when equal),
    bounded string copy, path generation as [fs_sanitize_mod_dir] calls it
    (return value and target buffer), the tokens [COM_ParseExt] returns from a
    string up to its first empty token, the accessors of the file index, its
    two iterators as the sequences of files they produce, and the answer to
    the warning dialog ([true] for [DR_CANCEL]). *)
Class fs_externals : Type := {
  FSC_SOURCETYPE_DIRECT : Z;
  FSC_SOURCETYPE_PK3 : Z;
  FD_CHECK_PURE_LIST : Z;
  FD_CHECK_READ_INACTIVE_MODS : Z;
  FD_CHECK_READ_INACTIVE_MODS_IGNORE_SERVERCFG : Z;
  FD_CHECK_LIST_INACTIVE_MODS : Z;
  FD_CHECK_LIST_SERVERCFG_LIMIT : Z;
  FS_SERVERCFG_ENABLED : bool;
  DEDICATED : bool;
  FS_CORE_PAKS : option (list Z);
  FS_CORE_PAKS_TEAMARENA : option (list Z);
  BASEGAME : string;
  BASETA : string;
  FSC_MAX_MODDIR : Z;
  host_little_endian : bool;
  Q_stricmp : string -> string -> Z;
  Q_strncpyz : string -> Z -> string;
  fs_generate_path : string -> Z -> Z * string;
  COM_ParseExt_tokens : string -> list string;
  fsc_get_base_file : fsc_file_t -> option fsc_file_t;
  fsc_get_mod_dir : fsc_file_t -> string;
  fsc_file_iterator : string -> string -> list fsc_file_t;
  fsc_pk3_iterator : Z -> list fsc_file_t;
  Sys_Dialog_cancelled : list popup_line -> bool
}.

Section Filesystem.

Context `{X : fs_externals}.

(** The globals, fixed during a call. *)
Variable G : fs_globals.

(** *** Pk3 precedence functions *)

Definition core_pk3_position (hash : Z) : Z :=
  let base_paks :=
    match FS_CORE_PAKS with
    | Some paks => default 0 (process_paks hash paks 0)
    | None => 0
    end in
  match FS_CORE_PAKS_TEAMARENA with
  | Some paks =>
      if Q_stricmp (current_game_dir G) BASETA =? 0
      then default 0 (process_paks hash paks 0)
      else base_paks
  | None => base_paks
  end.

Definition fs_sanitize_mod_dir (source : string) : string :=
  let buffer := Q_strncpyz source FSC_MAX_MODDIR in
  let '(result, target) := fs_generate_path buffer FSC_MAX_MODDIR in
  if result =? 0 then EmptyString else target.

(** [mod_dir] may be a null pointer: [None]. *)
Definition fs_get_mod_type (mod_dir : option string) : fs_modtype_t :=
  match mod_dir with
  | Some mod_dir =>
      let sanitized_mod_dir := fs_sanitize_mod_dir mod_dir in
      if negb (string_is_empty sanitized_mod_dir)
         && (Q_stricmp sanitized_mod_dir (current_mod_dir G) =? 0)
      then MODTYPE_CURRENT_MOD
      else if Q_stricmp sanitized_mod_dir "basemod" =? 0
      then MODTYPE_OVERRIDE_DIRECTORY
      else if Q_stricmp sanitized_mod_dir (com_basegame G) =? 0
      then MODTYPE_BASE
      else MODTYPE_INACTIVE
  | None => MODTYPE_INACTIVE
  end.

(** The token loop of [fs_servercfg_update_state]: [folders] are the
    directories stored so far; the second component tells whether
    "MAX_SERVERCFG_FOLDERS hit" was printed. *)
Fixpoint servercfg_parse (tokens : list string) (folders : list string)
  : list string * bool :=
  match tokens with
  | [] => (folders, false)
  | token :: rest =>
      if MAX_SERVERCFG_FOLDERS <=? Z.of_nat (length folders) then (folders, true)
      else servercfg_parse rest (folders ++ [Q_strncpyz token FSC_MAX_MODDIR])
  end.

Definition fs_servercfg_update_state : M unit :=
  fun st =>
    if negb (fs_servercfg_modificationCount G =? servercfg_cvar_mod_count st) then
      let '(folders, hit) :=
        servercfg_parse (COM_ParseExt_tokens (fs_servercfg_string G)) [] in
      (tt, {| servercfg_cvar_mod_count := fs_servercfg_modificationCount G;
              servercfg_folders := folders;
              events := events st ++
                        (if hit then [Ev_print Print_max_servercfg_folders] else []) |})
    else (tt, st).

(** The search loop of [fs_servercfg_priority]; [i] is the index of the
    head of [folders], [count] is [servercfg_folder_count]. *)
Fixpoint servercfg_search (mod_dir : string) (folders : list string) (i count : Z)
  : Z :=
  match folders with
  | [] => 0
  | folder :: rest =>
      if Q_stricmp mod_dir folder =? 0 then count - i
      else servercfg_search mod_dir rest (i + 1) count
  end.

Definition fs_servercfg_priority (mod_dir : string) : M Z :=
  _ <- fs_servercfg_update_state ;;
  fun st =>
    (servercfg_search mod_dir (servercfg_folders st) 0
                      (Z.of_nat (length (servercfg_folders st))), st).

(** *** File disabled check *)

(** [pk3_hash] read through the pointer [fsc_get_base_file] returns.  A
    file of sourcetype PK3 has its source pk3 as base file; the value chosen
    for a null pointer, which the C code would dereference, is never used for
    such files. *)
Definition base_file_pk3_hash (file : fsc_file_t) : Z :=
  match fsc_get_base_file file with
  | Some base_file => pk3_hash base_file
  | None => 0
  end.

Definition get_pk3_list_position (file : fsc_file_t) : Z :=
  if negb (sourcetype file =? FSC_SOURCETYPE_PK3) then 0
  else pk3_list_lookup (connected_server_pure_list G) (base_file_pk3_hash file).

(** The [level == 1] block: [true] when it returns [qfalse]. *)
Definition level1_allowed (file : fsc_file_t) : bool :=
  match fsc_get_base_file file with
  | Some base_file =>
      negb (pk3_list_lookup (connected_server_pure_list G) (pk3_hash base_file) =? 0)
      || negb (core_pk3_position (pk3_hash base_file) =? 0)
  | None => false
  end.

Definition inactive_mod_file_disabled (file : fsc_file_t) (level : Z)
  (ignore_servercfg : bool) : M bool :=
  if 2 <=? level then ret false
  else if 0 <? modtype_value (fs_get_mod_type (Some (fsc_get_mod_dir file)))
  then ret false
  else if (level =? 1) && level1_allowed file then ret false
  else if FS_SERVERCFG_ENABLED && negb ignore_servercfg then
    priority <- fs_servercfg_priority (fsc_get_mod_dir file) ;;
    ret (priority =? 0)
  else ret true.

(** [checks & flag] as a condition. *)
Definition check_requested (checks flag : Z) : bool :=
  negb (Z.land checks flag =? 0).

(** The servercfg list limit block, compiled when [FS_SERVERCFG_ENABLED] is
    defined: [true] when it returns [FD_CHECK_LIST_SERVERCFG_LIMIT]. *)
Definition servercfg_limit_disabled (file : fsc_file_t) (checks : Z) : M bool :=
  if FS_SERVERCFG_ENABLED
     && check_requested checks FD_CHECK_LIST_SERVERCFG_LIMIT
     && negb (fs_servercfg_listlimit G =? 0) then
    priority <- fs_servercfg_priority (fsc_get_mod_dir file) ;;
    if priority =? 0 then
      if fs_servercfg_listlimit G =? 1 then
        match fsc_get_base_file file with
        | Some base_file => ret (core_pk3_position (pk3_hash base_file) =? 0)
        | None => ret true
        end
      else ret true
    else ret false
  else ret false.

Definition fs_file_disabled (file : fsc_file_t) (checks : Z) : M Z :=
  if check_requested checks FD_CHECK_PURE_LIST
     && (connected_server_pure_state G =? 1)
     && (get_pk3_list_position file =? 0)
  then ret FD_CHECK_PURE_LIST
  else
    d <- (if check_requested checks FD_CHECK_READ_INACTIVE_MODS
          then inactive_mod_file_disabled file (fs_read_inactive_mods G) false
          else ret false) ;;
    if d then ret FD_CHECK_READ_INACTIVE_MODS
    else
      d <- (if check_requested checks FD_CHECK_READ_INACTIVE_MODS_IGNORE_SERVERCFG
            then inactive_mod_file_disabled file (fs_read_inactive_mods G) true
            else ret false) ;;
      if d then ret FD_CHECK_READ_INACTIVE_MODS_IGNORE_SERVERCFG
      else
        d <- (if check_requested checks FD_CHECK_LIST_INACTIVE_MODS then
                let list_inactive_mods_level :=
                  if fs_read_inactive_mods G <? fs_list_inactive_mods G
                  then fs_read_inactive_mods G else fs_list_inactive_mods G in
                inactive_mod_file_disabled file list_inactive_mods_level false
              else ret false) ;;
        if d then ret FD_CHECK_LIST_INACTIVE_MODS
        else
          d <- servercfg_limit_disabled file checks ;;
          if d then ret FD_CHECK_LIST_SERVERCFG_LIMIT else ret 0.

(** *** Core Pak Verification *)

Definition core_hashes : list Z :=
  [1566731103; 298122907; 412165236; 2991495316; 1197932710; 4087071573;
   3709064859; 908855077; 977125798].

Definition missionpack_hashes : list Z :=
  [2430342401; 511014160; 2662638993; 1438664554].

Record core_pak_state_t : Type := mk_pak_state {
  name_match : option fsc_file_t;
  hash_match : option fsc_file_t
}.

(** [mod && Q_stricmp(dir, mod)] for a possibly null [mod]. *)
Definition mod_differs (dir : string) (mod_ : option string) : bool :=
  match mod_ with
  | Some m => negb (Q_stricmp dir m =? 0)
  | None => false
  end.

(** The loop of [check_default_cfg_pk3] over the files the iterator opened on
    ("", "default") produces.  The files that reach [source_pk3] are of
    sourcetype PK3 and have a base file. *)
Fixpoint default_cfg_scan (files : list fsc_file_t) (mod_ : option string)
  (filename : string) (hash : Z) : M bool :=
  match files with
  | [] => ret false
  | file :: rest =>
      d <- fs_file_disabled file FD_CHECK_READ_INACTIVE_MODS ;;
      if negb (d =? 0) then default_cfg_scan rest mod_ filename hash
      else if negb (sourcetype file =? FSC_SOURCETYPE_PK3)
      then default_cfg_scan rest mod_ filename hash
      else if negb (Q_stricmp (qp_ext file) ".cfg" =? 0)
      then default_cfg_scan rest mod_ filename hash
      else
        match fsc_get_base_file file with
        | Some source_pk3 =>
            if pk3_hash source_pk3 =? hash then ret true
            else if mod_differs (fsc_get_mod_dir source_pk3) mod_
            then default_cfg_scan rest mod_ filename hash
            else if Q_stricmp (qp_name source_pk3) filename =? 0 then ret true
            else default_cfg_scan rest mod_ filename hash
        | None => default_cfg_scan rest mod_ filename hash
        end
  end.

Definition check_default_cfg_pk3 (mod_ : option string) (filename : string)
  (hash : Z) : M bool :=
  default_cfg_scan (fsc_file_iterator "" "default") mod_ filename hash.

(** The first loop of [get_pak_state], over the files [it_files] produces:
    [inl] is the state returned from inside the loop, [inr] the value of
    [name_match] when the loop ends. *)
Fixpoint pak_state_files (files : list fsc_file_t) (mod_ : option string) (hash : Z)
  (name_match : option fsc_file_t) : M (core_pak_state_t + option fsc_file_t) :=
  match files with
  | [] => ret (inr name_match)
  | file :: rest =>
      if negb (sourcetype file =? FSC_SOURCETYPE_DIRECT)
      then pak_state_files rest mod_ hash name_match
      else
        d <- fs_file_disabled file FD_CHECK_READ_INACTIVE_MODS ;;
        if negb (d =? 0) then pak_state_files rest mod_ hash name_match
        else if negb (Q_stricmp (qp_ext file) ".pk3" =? 0)
        then pak_state_files rest mod_ hash name_match
        else if mod_differs (fsc_get_mod_dir file) mod_
        then pak_state_files rest mod_ hash name_match
        else if pk3_hash file =? hash
        then ret (inl {| name_match := Some file; hash_match := Some file |})
        else pak_state_files rest mod_ hash (Some file)
  end.

(** The second loop, over the pk3s [it_pk3s] produces. *)
Fixpoint pak_state_pk3s (pk3s : list fsc_file_t) : M (option fsc_file_t) :=
  match pk3s with
  | [] => ret None
  | pk3 :: rest =>
      d <- fs_file_disabled pk3 FD_CHECK_READ_INACTIVE_MODS ;;
      if negb (d =? 0) then pak_state_pk3s rest else ret (Some pk3)
  end.

Definition get_pak_state (mod_ : option string) (filename : string) (hash : Z)
  : M core_pak_state_t :=
  r <- pak_state_files (fsc_file_iterator "" filename) mod_ hash None ;;
  match r with
  | inl result => ret result
  | inr name_match =>
      hash_match <- pak_state_pk3s (fsc_pk3_iterator hash) ;;
      ret {| name_match := name_match; hash_match := hash_match |}
  end.

(** [state->name_match != state->hash_match] on two non-null pointers. *)
Definition same_file (f1 f2 : fsc_file_t) : bool := file_addr f1 =? file_addr f2.

(** [generate_pak_warnings]; the popup text is returned with the lines the
    call appends.  (The text is kept as lines: thirteen paks and the
    default.cfg line stay far below the 1024 bytes of the buffer.) *)
Definition generate_pak_warnings (mod_ filename : string) (state : core_pak_state_t)
  (warning_popup : list popup_line) : M (list popup_line) :=
  match hash_match state with
  | Some hm =>
      match name_match state with
      | None =>
          _ <- Com_Printf (Print_misnamed mod_ filename hm) ;; ret warning_popup
      | Some nm =>
          if negb (same_file nm hm) then
            _ <- Com_Printf (Print_incorrect_hash_found mod_ filename hm) ;;
            ret warning_popup
          else ret warning_popup
      end
  | None =>
      match name_match state with
      | Some _ =>
          _ <- Com_Printf (Print_incorrect_hash mod_ filename) ;;
          ret (warning_popup ++ [Popup_incorrect_hash mod_ filename])
      | None =>
          _ <- Com_Printf (Print_not_found mod_ filename) ;;
          ret (warning_popup ++ [Popup_not_found mod_ filename])
      end
  end.

(** [va("pak%i", i)] *)
Definition pak_filename (i : Z) : string :=
  String.append "pak" (NilZero.string_of_int (Z.to_int i)).

(** [for(i=0; i<ARRAY_LEN(hashes); ++i) states[i] = get_pak_state(mod,
    va("pak%i", i), hashes[i]);] from index [i] on. *)
Fixpoint get_pak_states (mod_ : string) (hashes : list Z) (i : Z)
  : M (list core_pak_state_t) :=
  match hashes with
  | [] => ret []
  | hash :: rest =>
      s <- get_pak_state (Some mod_) (pak_filename i) hash ;;
      l <- get_pak_states mod_ rest (i + 1) ;;
      ret (s :: l)
  end.

(** The warning loops: [generate_pak_warnings] for every state, from index
    [i] on. *)
Fixpoint generate_all_warnings (mod_ : string) (states : list core_pak_state_t)
  (i : Z) (warning_popup : list popup_line) : M (list popup_line) :=
  match states with
  | [] => ret warning_popup
  | s :: rest =>
      popup <- generate_pak_warnings mod_ (pak_filename i) s warning_popup ;;
      generate_all_warnings mod_ rest (i + 1) popup
  end.

Definition has_name_match (s : core_pak_state_t) : bool :=
  match name_match s with Some _ => true | None => false end.

Definition has_hash_match (s : core_pak_state_t) : bool :=
  match hash_match s with Some _ => true | None => false end.

Definition fs_check_core_paks : M unit :=
  (* Generate pak states *)
  core_states <- get_pak_states BASEGAME core_hashes 0 ;;
  missionpack_states <- get_pak_states "missionpack" missionpack_hashes 0 ;;
  let missionpack_installed :=
    existsb (fun s => has_name_match s || has_hash_match s) missionpack_states in
  (* Check for standalone mode *)
  let have_id_pak :=
    existsb has_hash_match core_states || existsb has_hash_match missionpack_states in
  if negb (Q_stricmp (com_basegame G) BASEGAME =? 0) && negb have_id_pak then
    _ <- Com_Printf Print_standalone ;;
    emit (Ev_cvar_set "com_standalone" "1")
  else
    (* Print console warning messages and build warning popup string *)
    popup <- generate_all_warnings BASEGAME core_states 0 [] ;;
    popup <- (if missionpack_installed
              then generate_all_warnings "missionpack" missionpack_states 0 popup
              else ret popup) ;;
    (* Additional warning if pak0.pk3 exists but doesn't contain default.cfg *)
    let pak0 := default {| name_match := None; hash_match := None |}
                        (core_states !! 0%nat) in
    popup <- (if has_name_match pak0 || has_hash_match pak0 then
                found <- check_default_cfg_pk3 (Some BASEGAME) "pak0"
                           (default 0 (core_hashes !! 0%nat)) ;;
                if negb found then
                  _ <- Com_Printf Print_default_cfg_not_found ;;
                  ret (popup ++ [Popup_default_cfg_not_found])
                else ret popup
              else ret popup) ;;
    (* If warning popup info was generated, display warning popup *)
    if negb DEDICATED && negb (length popup =? 0)%nat then
      _ <- emit (Ev_dialog popup) ;;
      if Sys_Dialog_cancelled popup then emit Ev_quit else ret tt
    else ret tt.

(** *** Sort keys of pk3 sources *)

(** [write_sort_pk3_source_filename]; the static sort table is passed along. *)
Definition write_sort_pk3_source_filename (table : list Z) (file : fsc_file_t)
  (output : fsc_stream_t) : fsc_stream_t * list Z :=
  if (sourcetype file =? FSC_SOURCETYPE_DIRECT)
     && match pk3dir_ptr file with Some _ => true | None => false end then
    let '(output, table) :=
      fs_write_sort_string table (default EmptyString (pk3dir_ptr file)) output false in
    (fs_write_sort_value host_little_endian 1 output, table)
  else if sourcetype file =? FSC_SOURCETYPE_PK3 then
    match fsc_get_base_file file with
    | Some source_pk3 =>
        let '(output, table) :=
          fs_write_sort_string table (qp_name source_pk3) output false in
        (fs_write_sort_value host_little_endian 0 output, table)
    | None => (output, table)
    end
  else (output, table).

(** [fs_compare_pk3_source]; [buffer1] and [buffer2] are the two local
    buffers of 1024 bytes as the call finds them.  The result is negative
    when [file1] has the greater key. *)
Definition fs_compare_pk3_source (table : list Z) (buffer1 buffer2 : list Z)
  (file1 file2 : fsc_file_t) : Z * list Z :=
  let stream1 := {| data := buffer1; position := 0; size := 1024; overflowed := false |} in
  let stream2 := {| data := buffer2; position := 0; size := 1024; overflowed := false |} in
  let '(stream1, table) := write_sort_pk3_source_filename table file1 stream1 in
  let '(stream2, table) := write_sort_pk3_source_filename table file2 stream2 in
  (compare_sort_streams stream1 stream2, table).

(** *** The checks as functions of the servercfg directory list *)

(** The directory list [fs_servercfg_priority] searches in state [st]: the
    one [fs_servercfg_update_state] leaves. *)
Definition effective_folders (st : fs_state) : list string :=
  servercfg_folders (snd (fs_servercfg_update_state st)).

Definition servercfg_rank (folders : list string) (mod_dir : string) : Z :=
  servercfg_search mod_dir folders 0 (Z.of_nat (length folders)).

(** The pure list check triggers. *)
Definition pure_list_rule (file : fsc_file_t) : bool :=
  (connected_server_pure_state G =? 1) && (get_pk3_list_position file =? 0).

(** The inactive mod rule at a level. *)
Definition inactive_mod_rule (folders : list string) (file : fsc_file_t) (level : Z)
  (ignore_servercfg : bool) : bool :=
  if 2 <=? level then false
  else if 0 <? modtype_value (fs_get_mod_type (Some (fsc_get_mod_dir file))) then false
  else if (level =? 1) && level1_allowed file then false
  else if FS_SERVERCFG_ENABLED && negb ignore_servercfg
  then servercfg_rank folders (fsc_get_mod_dir file) =? 0
  else true.

(** The servercfg list limit check triggers. *)
Definition servercfg_limit_rule (folders : list string) (file : fsc_file_t) : bool :=
  FS_SERVERCFG_ENABLED
  && negb (fs_servercfg_listlimit G =? 0)
  && (servercfg_rank folders (fsc_get_mod_dir file) =? 0)
  && (if fs_servercfg_listlimit G =? 1 then
        match fsc_get_base_file file with
        | Some base_file => core_pk3_position (pk3_hash base_file) =? 0
        | None => true
        end
      else true).

(** The five checks in the order of [fs_file_disabled]: the identifier of
    each and whether it triggers for the file. *)
Definition disabled_checks (folders : list string) (file : fsc_file_t)
  : list (Z * bool) :=
  [ (FD_CHECK_PURE_LIST, pure_list_rule file);
    (FD_CHECK_READ_INACTIVE_MODS,
     inactive_mod_rule folders file (fs_read_inactive_mods G) false);
    (FD_CHECK_READ_INACTIVE_MODS_IGNORE_SERVERCFG,
     inactive_mod_rule folders file (fs_read_inactive_mods G) true);
    (FD_CHECK_LIST_INACTIVE_MODS,
     inactive_mod_rule folders file
       (Z.min (fs_read_inactive_mods G) (fs_list_inactive_mods G)) false);
    (FD_CHECK_LIST_SERVERCFG_LIMIT, servercfg_limit_rule folders file) ].

(** The identifier of the first check of a list that is requested and
    triggers, 0 when there is none. *)
Fixpoint first_triggered (checks : Z) (l : list (Z * bool)) : Z :=
  match l with
  | [] => 0
  | (flag, triggers) :: rest =>
      if check_requested checks flag && triggers then flag
      else first_triggered checks rest
  end.

(** The mask requests the list inactive mods check and none of the other
    four checks. *)
Definition requests_only_list (checks : Z) : Prop :=
  check_requested checks FD_CHECK_LIST_INACTIVE_MODS = true
  /\ check_requested checks FD_CHECK_PURE_LIST = false
  /\ check_requested checks FD_CHECK_READ_INACTIVE_MODS = false
  /\ check_requested checks FD_CHECK_READ_INACTIVE_MODS_IGNORE_SERVERCFG = false
  /\ check_requested checks FD_CHECK_LIST_SERVERCFG_LIMIT = false.

(** The mask requests the read inactive mods check and none of the other
    four checks. *)
Definition requests_only_read (checks : Z) : Prop :=
  check_requested checks FD_CHECK_READ_INACTIVE_MODS = true
  /\ check_requested checks FD_CHECK_PURE_LIST = false
  /\ check_requested checks FD_CHECK_READ_INACTIVE_MODS_IGNORE_SERVERCFG = false
  /\ check_requested checks FD_CHECK_LIST_INACTIVE_MODS = false
  /\ check_requested checks FD_CHECK_LIST_SERVERCFG_LIMIT = false.

(** *** The pak states as functions of the enumerated files *)

(** The file is not disabled for reading. *)
Definition read_enabled (folders : list string) (file : fsc_file_t) : bool :=
  first_triggered FD_CHECK_READ_INACTIVE_MODS (disabled_checks folders file) =? 0.

(** The files of the first loop of [get_pak_state] that pass its four
    filters: direct-sourced, not disabled, extension ".pk3", in the directory
    [mod_]. *)
Definition name_candidate (folders : list string) (mod_ : option string)
  (file : fsc_file_t) : bool :=
  (sourcetype file =? FSC_SOURCETYPE_DIRECT)
  && read_enabled folders file
  && (Q_stricmp (qp_ext file) ".pk3" =? 0)
  && negb (mod_differs (fsc_get_mod_dir file) mod_).

(** What [get_pak_state] returns, from the two sequences of files. *)
Definition pak_state_of (folders : list string) (mod_ : option string)
  (filename : string) (hash : Z) : core_pak_state_t :=
  let candidates :=
    List.filter (name_candidate folders mod_) (fsc_file_iterator "" filename) in
  match List.find (fun f => pk3_hash f =? hash) candidates with
  | Some f => {| name_match := Some f; hash_match := Some f |}
  | None =>
      {| name_match := last candidates;
         hash_match := List.find (read_enabled folders) (fsc_pk3_iterator hash) |}
  end.

(** The states [get_pak_states] collects, from index [i] on. *)
Fixpoint pak_states_of (folders : list string) (mod_ : string) (hashes : list Z)
  (i : Z) : list core_pak_state_t :=
  match hashes with
  | [] => []
  | hash :: rest =>
      pak_state_of folders (Some mod_) (pak_filename i) hash
      :: pak_states_of folders mod_ rest (i + 1)
  end.

(** No enumerated file that is not disabled has the content hash [hash]:
    neither a pk3 of the hash-indexed view for [hash], nor a file with that
    hash the name iterator produces for some name. *)
Definition no_enabled_file_with_hash (folders : list string) (hash : Z) : Prop :=
  (forall f, In f (fsc_pk3_iterator hash) -> read_enabled folders f = false)
  /\ (forall name f, In f (fsc_file_iterator "" name) -> pk3_hash f = hash ->
                     read_enabled folders f = false).

(** The events a call may add besides its own: the notice of a full
    servercfg directory list. *)
Definition servercfg_notices (evs : list fs_event) : Prop :=
  Forall (fun e => e = Ev_print Print_max_servercfg_folders) evs.

(** The computation [c] returns, in every state, the value [v] gives for
    the effective directory list, and leaves that list and the events as they
    are, but for notices. *)
Definition computes {A : Type} (c : M A) (v : list string -> A) : Prop :=
  forall st, exists st',
    c st = (v (effective_folders st), st')
    /\ effective_folders st' = effective_folders st
    /\ exists evs, events st' = events st ++ evs /\ servercfg_notices evs.

End Filesystem.

(** ** Notions the statements below use *)

(** Position (from 1) of the first occurrence of [h] in [l], 0 when absent. *)
Fixpoint list_position (l : list Z) (h : Z) : Z :=
  match l with
  | [] => 0
  | x :: rest =>
      if x =? h then 1
      else let p := list_position rest h in if p =? 0 then 0 else p + 1
  end.

(** The distinct hashes of a sequence of insertions, in the order of their
    first insertion, after the hashes [order] already inserted. *)
Fixpoint insertion_order (order : list Z) (hashes : list Z) : list Z :=
  match hashes with
  | [] => order
  | h :: rest =>
      insertion_order (if list_position order h =? 0 then order ++ [h] else order) rest
  end.

(** The position stored with the first entry of a chain whose hash is
    [hash], 0 when the chain has none. *)
Fixpoint chain_lookup (chain : list pk3_list_entry_t) (hash : Z) : Z :=
  match chain with
  | [] => 0
  | entry :: rest =>
      if entry_hash entry =? hash then entry_position entry
      else chain_lookup rest hash
  end.

(** A sequence of [fs_hashtable_insert] calls, each with its entry and hash. *)
Fixpoint fs_hashtable_insert_all {A : Type} (t : fs_hashtable_t A)
  (ins : list (A * Z)) : option (fs_hashtable_t A) :=
  match ins with
  | [] => Some t
  | (entry, hash) :: rest =>
      match fs_hashtable_insert t entry hash with
      | Some t' => fs_hashtable_insert_all t' rest
      | None => None
      end
  end.

(** What a pk3 list holds after the distinct hashes [order] were inserted,
    in that order: the element count is their number and every lookup returns
    the position of the hash in [order]. *)
Definition pk3_inv (pl : pk3_list_t) (order : list Z) : Prop :=
  hashtable_initialized (pk3_ht pl)
  /\ element_count (pk3_ht pl) = Z.of_nat (length order)
  /\ forall h, pk3_list_lookup pl h = list_position order h.

(** The four bytes of a 32-bit value, the most significant first. *)
Definition big_endian_bytes (v : Z) : list Z :=
  [Z.land (Z.shiftr v 24) 255; Z.land (Z.shiftr v 16) 255;
   Z.land (Z.shiftr v 8) 255; Z.land v 255].

(** The byte swap of [fs_write_sort_value]. *)
Definition swap_bytes (value : Z) : Z :=
  let value := Z.lor (Z.land (u32 (Z.shiftl value 8)) 4278255360)
                     (Z.land (Z.shiftr value 8) 16711935) in
  Z.lor (u32 (Z.shiftl value 16)) (Z.shiftr value 16).

(** A stream over its buffer: the buffer has [size] bytes and the position
    is within it. *)
Definition stream_ok (output : fsc_stream_t) : Prop :=
  0 <= position output <= size output
  /\ size output <= UINT_MAX
  /\ Z.of_nat (length (data output)) = size output.

(** The sort table after the first call of [get_string_sort_table]. *)
Definition string_sort_table : list Z := get_string_sort_table sort_table_zero.

(** The contents the static table can have when a call starts: all zero
    before the first call, the filled table afterwards. *)
Definition sort_table_reachable (table : list Z) : Prop :=
  table = sort_table_zero \/ table = string_sort_table.

(** A C string: the characters before the terminating NUL, none of them NUL. *)
Fixpoint c_string (s : string) : Prop :=
  match s with
  | EmptyString => True
  | String c rest => char_code c <> 0 /\ c_string rest
  end.

(** The characters of a string sent through a sort table. *)
Fixpoint sort_string_bytes (sort_table : list Z) (s : string) : list Z :=
  match s with
  | EmptyString => []
  | String c rest => table_at sort_table (char_code c) :: sort_string_bytes sort_table rest
  end.

(** The terminator byte [fs_write_sort_string] ends a key with. *)
Definition sort_terminator (prioritize_shorter : bool) : Z :=
  if prioritize_shorter then 255 else 0.

Definition string_length (s : string) : Z := Z.of_nat (String.length s).

(** What the sort table holds for the byte value [c]: letters of either case
    on the ranks 225..250 in alphabetical order, digits on 215..224 in
    numerical order, every other byte value on a rank from 21 to 214. *)
Definition collation_rank_ok (sort_table : list Z) (c : Z) : bool :=
  let r := table_at sort_table c in
  if (char_code "a" <=? c) && (c <=? char_code "z") then r =? 225 + (c - char_code "a")
  else if (char_code "A" <=? c) && (c <=? char_code "Z") then r =? 225 + (c - char_code "A")
  else if (char_code "0" <=? c) && (c <=? char_code "9") then r =? 215 + (c - char_code "0")
  else (21 <=? r) && (r <=? 214).

(** ** A small installation for the examples *)

(** Comparison of strings ignoring ASCII case: 0 when equal. *)
Definition lower_char (c : ascii) : ascii :=
  let n := nat_of_ascii c in
  if ((65 <=? n) && (n <=? 90))%nat then ascii_of_nat (n + 32) else c.

Fixpoint lower_string (s : string) : string :=
  match s with
  | EmptyString => EmptyString
  | String c rest => String (lower_char c) (lower_string rest)
  end.

Definition example_stricmp (s1 s2 : string) : Z :=
  if String.eqb (lower_string s1) (lower_string s2) then 0 else 1.

(** Two files named pak0.pk3 in two source directories, neither with the
    hash of the original pak0, a pk3 under another name with the hash of the
    second, and a pk3 in a mod directory that is not active. *)
Definition example_pak0_first : fsc_file_t :=
  {| file_addr := 100; sourcetype := 1; qp_name := "pak0"; qp_ext := ".pk3";
     flags := 0; pk3_hash := 111; pk3dir_ptr := None |}.

Definition example_pak0_second : fsc_file_t :=
  {| file_addr := 200; sourcetype := 1; qp_name := "pak0"; qp_ext := ".pk3";
     flags := 0; pk3_hash := 222; pk3dir_ptr := None |}.

Definition example_renamed : fsc_file_t :=
  {| file_addr := 300; sourcetype := 1; qp_name := "renamed"; qp_ext := ".pk3";
     flags := 0; pk3_hash := 222; pk3dir_ptr := None |}.

Definition example_inactive : fsc_file_t :=
  {| file_addr := 400; sourcetype := 1; qp_name := "extra"; qp_ext := ".pk3";
     flags := 0; pk3_hash := 333; pk3dir_ptr := None |}.

(** Two pk3s named Abc.pk3 and abd.pk3, outside the index of the examples,
    and a file from each. *)
Definition example_pk3_Abc : fsc_file_t :=
  {| file_addr := 510; sourcetype := 1; qp_name := "Abc"; qp_ext := ".pk3";
     flags := 0; pk3_hash := 444; pk3dir_ptr := None |}.

Definition example_pk3_abd : fsc_file_t :=
  {| file_addr := 610; sourcetype := 1; qp_name := "abd"; qp_ext := ".pk3";
     flags := 0; pk3_hash := 555; pk3dir_ptr := None |}.

Definition example_in_Abc : fsc_file_t :=
  {| file_addr := 500; sourcetype := 2; qp_name := "model"; qp_ext := ".md3";
     flags := 0; pk3_hash := 0; pk3dir_ptr := None |}.

Definition example_in_abd : fsc_file_t :=
  {| file_addr := 600; sourcetype := 2; qp_name := "model"; qp_ext := ".md3";
     flags := 0; pk3_hash := 0; pk3dir_ptr := None |}.

Definition example_files : list fsc_file_t :=
  [example_pak0_first; example_pak0_second; example_renamed; example_inactive].

Definition example_externals : fs_externals :=
  {| FSC_SOURCETYPE_DIRECT := 1;
     FSC_SOURCETYPE_PK3 := 2;
     FD_CHECK_PURE_LIST := 1;
     FD_CHECK_READ_INACTIVE_MODS := 2;
     FD_CHECK_READ_INACTIVE_MODS_IGNORE_SERVERCFG := 4;
     FD_CHECK_LIST_INACTIVE_MODS := 8;
     FD_CHECK_LIST_SERVERCFG_LIMIT := 16;
     FS_SERVERCFG_ENABLED := true;
     DEDICATED := false;
     FS_CORE_PAKS := Some core_hashes;
     FS_CORE_PAKS_TEAMARENA := Some (core_hashes ++ missionpack_hashes);
     BASEGAME := "baseq3";
     BASETA := "missionpack";
     FSC_MAX_MODDIR := 32;
     host_little_endian := true;
     Q_stricmp := example_stricmp;
     Q_strncpyz := fun s n => substring 0 (Z.to_nat (n - 1)) s;
     fs_generate_path := fun s _ => (string_length s, s);
     COM_ParseExt_tokens := fun s => if string_is_empty s then [] else [s];
     fsc_get_base_file :=
       fun f =>
         if sourcetype f =? 1 then Some f
         else if file_addr f =? 500 then Some example_pk3_Abc
         else if file_addr f =? 600 then Some example_pk3_abd
         else None;
     fsc_get_mod_dir :=
       fun f => if file_addr f =? 400 then "othermod"%string else "baseq3"%string;
     fsc_file_iterator :=
       fun dir name =>
         if string_is_empty dir
         then List.filter (fun f => example_stricmp (qp_name f) name =? 0) example_files
         else [];
     fsc_pk3_iterator :=
       fun hash => List.filter (fun f => pk3_hash f =? hash) (rev example_files);
     Sys_Dialog_cancelled := fun _ => false |}.

(** Connected to a pure server with an empty pure list, base game baseq3,
    no mod loaded, inactive mods neither read nor listed. *)
Definition example_globals : fs_globals :=
  {| connected_server_pure_state := 1;
     connected_server_pure_list := {| pk3_ht := fs_hashtable_zeroed |};
     current_mod_dir := "";
     com_basegame := "baseq3";
     current_game_dir := "baseq3";
     fs_read_inactive_mods := 0;
     fs_list_inactive_mods := 1;
     fs_servercfg_listlimit := 0;
     fs_servercfg_modificationCount := 0;
     fs_servercfg_string := "" |}.

(** The same with another base game. *)
Definition example_globals_othergame : fs_globals :=
  {| connected_server_pure_state := 1;
     connected_server_pure_list := {| pk3_ht := fs_hashtable_zeroed |};
     current_mod_dir := "";
     com_basegame := "mygame";
     current_game_dir := "mygame";
     fs_read_inactive_mods := 0;
     fs_list_inactive_mods := 1;
     fs_servercfg_listlimit := 0;
     fs_servercfg_modificationCount := 0;
     fs_servercfg_string := "" |}.

(** * The rest of fs_misc.c *)

(** ** Hash table: releasing the entries *)

Section HashTableRelease.

Context {A : Type}.

(** The [while((entry = fs_hashtable_next(&it)))] loops of
    [fs_hashtable_free_entries]: the entries handed to [free_entry] (or to
    [Z_Free] when there is no callback), in order.  [fs_hashtable_next] has
    read the [next] link of an entry before the entry is released. *)
Fixpoint free_entries_loop (fuel : nat) (it : fs_hashtable_iterator_t A) : list A :=
  match fuel with
  | O => []
  | S fuel' =>
      match fs_hashtable_next it with
      | (None, _) => []
      | (Some entry, it') => entry :: free_entries_loop fuel' it'
      end
  end.

Definition fs_hashtable_free_entries (t : fs_hashtable_t A) : list A :=
  let it := fs_hashtable_iterate t 0 true in
  free_entries_loop (S (length (iter_pending it))) it.

(** [fs_hashtable_free]: the entries released, and the table, all zero. *)
Definition fs_hashtable_free (t : fs_hashtable_t A) : list A * fs_hashtable_t A :=
  (fs_hashtable_free_entries t, fs_hashtable_zeroed).

(** [fs_hashtable_reset]: the entries released, and the table with its
    [bucket_count] bucket heads set to null and the element count to 0. *)
Definition fs_hashtable_reset (t : fs_hashtable_t A) : list A * fs_hashtable_t A :=
  (fs_hashtable_free_entries t,
   {| buckets := replicate (Z.to_nat (bucket_count t)) [];
      bucket_count := bucket_count t;
      element_count := 0 |}).

End HashTableRelease.

Definition pk3_list_free (pk3_list : pk3_list_t)
  : list pk3_list_entry_t * pk3_list_t :=
  let '(freed, t) := fs_hashtable_free (pk3_ht pk3_list) in
  (freed, {| pk3_ht := t |}).

(** The entries of a sequence of insertions that go to the bucket of [hash]
    in a table of [bucket_count] buckets. *)
Definition inserted_in_bucket {A : Type} (bucket_count hash : Z) (ins : list (A * Z))
  : list A :=
  map fst (List.filter (fun eh => snd eh mod bucket_count =? hash mod bucket_count) ins).

(** The entries a pk3 list holds for the distinct hashes [order], in no
    particular order: each hash once, with its position in [order]. *)
Definition pk3_entries_of (order : list Z) : list pk3_list_entry_t :=
  map (fun h => {| entry_hash := h; entry_position := list_position order h |}) order.

(** ** File names *)

(** The character a C string pointer designates, 0 at the end of the
    string, and the pointer after [s++]. *)
Definition head_code (s : string) : Z :=
  match s with
  | EmptyString => 0
  | String c _ => char_code c
  end.

Definition string_tail (s : string) : string :=
  match s with
  | EmptyString => EmptyString
  | String _ rest => rest
  end.

(** What [FS_FilenameCompare] does to a character before it compares: a
    lowercase letter becomes the uppercase one, then a backslash (92) or a
    colon (58) becomes a slash (47). *)
Definition filename_fold (c : Z) : Z :=
  let c := if (char_code "a" <=? c) && (c <=? char_code "z")
           then c - (char_code "a" - char_code "A") else c in
  if (c =? 92) || (c =? 58) then 47 else c.

(** [FS_FilenameCompare]: [true] ([qtrue]) when the strings are not equal.
    The characters are compared as [int]; reading them as unsigned keeps
    equal what is equal. *)
Fixpoint FS_FilenameCompare (s1 s2 : string) : bool :=
  match s1 with
  | EmptyString => negb (filename_fold 0 =? filename_fold (head_code s2))
  | String a rest1 =>
      let c1 := filename_fold (char_code a) in
      let c2 := filename_fold (head_code s2) in
      if negb (c1 =? c2) then true
      else if c1 =? 0 then false
      else FS_FilenameCompare rest1 (string_tail s2)
  end.

(** [va("%s/pak%d", base, i)] *)
Definition va_pak (base : string) (i : Z) : string :=
  String.append base (String.append "/pak" (NilZero.string_of_int (Z.to_int i))).

(** The [for] loop of [FS_idPak]: the value of [i] when it ends, with [n]
    iterations to go at most. *)
Fixpoint idpak_loop (n : nat) (i numPaks : Z) (pak base : string) : Z :=
  match n with
  | O => i
  | S n' =>
      if i <? numPaks then
        if negb (FS_FilenameCompare pak (va_pak base i)) then i
        else idpak_loop n' (i + 1) numPaks pak base
      else i
  end.

Definition FS_idPak (pak base : string) (numPaks : Z) : bool :=
  idpak_loop (Z.to_nat numPaks) 0 numPaks pak base <? numPaks.

(** The character codes of a C string: up to its first NUL. *)
Fixpoint c_codes (s : string) : list Z :=
  match s with
  | EmptyString => []
  | String c rest => if char_code c =? 0 then [] else char_code c :: c_codes rest
  end.

(** ** The core pak table and the servercfg directories *)

(** The table [core_pk3_position] searches: [FS_CORE_PAKS_TEAMARENA] when it
    is defined and the current game directory is [BASETA], else
    [FS_CORE_PAKS], no table when the macro is not defined. *)
Definition selected_core_paks `{X : fs_externals} (G : fs_globals) : list Z :=
  match FS_CORE_PAKS_TEAMARENA with
  | Some paks =>
      if Q_stricmp (current_game_dir G) BASETA =? 0 then paks
      else default [] FS_CORE_PAKS
  | None => default [] FS_CORE_PAKS
  end.

(** [k] is the index of the first servercfg directory equal to [mod_dir]. *)
Definition servercfg_first_match `{X : fs_externals} (folders : list string)
  (mod_dir : string) (k : nat) : Prop :=
  (exists folder, folders !! k = Some folder /\ Q_stricmp mod_dir folder = 0)
  /\ forall (j : nat) folder, (j < k)%nat -> folders !! j = Some folder ->
                              Q_stricmp mod_dir folder <> 0.

(** The example installation connected to a pure server whose list was
    built from the hashes 444, 555 and 444 again. *)
Definition example_pure_list : pk3_list_t :=
  match pk3_list_initialize 8 with
  | Some pl0 => default pl0 (pk3_list_insert_all pl0 [444; 555; 444])
  | None => {| pk3_ht := fs_hashtable_zeroed |}
  end.

Definition example_globals_pure : fs_globals :=
  {| connected_server_pure_state := 1;
     connected_server_pure_list := example_pure_list;
     current_mod_dir := "";
     com_basegame := "baseq3";
     current_game_dir := "baseq3";
     fs_read_inactive_mods := 0;
     fs_list_inactive_mods := 1;
     fs_servercfg_listlimit := 0;
     fs_servercfg_modificationCount := 0;
     fs_servercfg_string := "" |}.

(** ** Sort keys, in general *)

(** The bytes [fs_write_sort_string] has to write for a C string: the ranks
    of its characters, then the terminator. *)
Definition sort_key_bytes (s : string) (prioritize_shorter : bool) : list Z :=
  map (table_at string_sort_table) (c_codes s) ++ [sort_terminator prioritize_shorter].

(** The room left in a stream. *)
Definition stream_room (output : fsc_stream_t) : nat :=
  Z.to_nat (size output - position output).

(** The bytes written so far. *)
Definition stream_written (output : fsc_stream_t) : list Z :=
  take (Z.to_nat (position output)) (data output).

(** Uppercase of the code of a lowercase letter, other codes as they are. *)
Definition upper_code (c : Z) : Z :=
  if (char_code "a" <=? c) && (c <=? char_code "z")
  then c - (char_code "a" - char_code "A") else c.

(** The bytes [write_sort_pk3_source_filename] writes into an empty stream
    of 1024 bytes for a name and a value: the key of the name, cut when it is
    too long, then the value when four bytes are left. *)
Definition pk3_source_key_of (name : string) (value : Z) : list Z :=
  let written := take 1024 (sort_key_bytes name false) in
  if Z.of_nat (length written) + 3 <? 1024 then written ++ big_endian_bytes value
  else written.

Definition pk3_source_key `{X : fs_externals} (file : fsc_file_t) : list Z :=
  if (sourcetype file =? FSC_SOURCETYPE_DIRECT)
     && match pk3dir_ptr file with Some _ => true | None => false end
  then pk3_source_key_of (default EmptyString (pk3dir_ptr file)) 1
  else if sourcetype file =? FSC_SOURCETYPE_PK3 then
    match fsc_get_base_file file with
    | Some source_pk3 => pk3_source_key_of (qp_name source_pk3) 0
    | None => []
    end
  else [].

(** ** The core sort key *)

Section CoreSortKey.

Context `{X : fs_externals}.

Variable G : fs_globals.

(** The flag [FSC_FILEFLAG_DLPK3] of the file index, and the field
    [header_position] (an [unsigned int]) of a file from a pk3. *)
Variable FSC_FILEFLAG_DLPK3 : Z.
Variable header_position : fsc_file_t -> Z.

(** The [int] position of the pure list becomes an [unsigned int]; [~index]
    is its complement on 32 bits. *)
Definition server_pure_precedence (file : fsc_file_t) : Z :=
  if sourcetype file =? FSC_SOURCETYPE_PK3 then
    let index := u32 (pk3_list_lookup (connected_server_pure_list G)
                                      (base_file_pk3_hash file)) in
    if negb (index =? 0) then u32 (Z.lnot index) else 0
  else 0.

Definition get_current_mod_precedence (mod_type : fs_modtype_t) : Z :=
  if modtype_value MODTYPE_OVERRIDE_DIRECTORY <=? modtype_value mod_type
  then modtype_value mod_type else 0.

Definition core_pak_precedence (file : fsc_file_t) (mod_type : fs_modtype_t) : Z :=
  if modtype_value mod_type <? modtype_value MODTYPE_OVERRIDE_DIRECTORY then
    match fsc_get_base_file file with
    | Some base_file => u32 (core_pk3_position G (pk3_hash base_file))
    | None => 0
    end
  else 0.

Definition basegame_dir_precedence (mod_type : fs_modtype_t) : Z :=
  match mod_type with
  | MODTYPE_BASE => 1
  | _ => 0
  end.

(** The condition of the download folder field: the flag of the file, or,
    for a file from a pk3, the flag of its pk3. *)
Definition download_folder_flagged (file : fsc_file_t) : bool :=
  negb (Z.land (flags file) FSC_FILEFLAG_DLPK3 =? 0)
  || (sourcetype file =? FSC_SOURCETYPE_PK3)
     && match fsc_get_base_file file with
        | Some base_file => negb (Z.land (flags base_file) FSC_FILEFLAG_DLPK3 =? 0)
        | None => false
        end.

(** [fs_generate_core_sort_key]; returns the stream and the static sort
    table after the call. *)
Definition fs_generate_core_sort_key (table : list Z) (file : fsc_file_t)
  (output : fsc_stream_t) (use_server_pure_list : bool) : M (fsc_stream_t * list Z) :=
  let mod_type := fs_get_mod_type G (Some (fsc_get_mod_dir file)) in
  priority <- (if FS_SERVERCFG_ENABLED
               then fs_servercfg_priority G (fsc_get_mod_dir file)
               else ret 0) ;;
  let servercfg_precedence := u32 priority in
  let current_mod_precedence := get_current_mod_precedence mod_type in
  let output :=
    if use_server_pure_list
    then fs_write_sort_value host_little_endian (server_pure_precedence file) output
    else output in
  let output := fs_write_sort_value host_little_endian servercfg_precedence output in
  let output := fs_write_sort_value host_little_endian current_mod_precedence output in
  let output :=
    if (servercfg_precedence =? 0) && (current_mod_precedence =? 0)
    then fs_write_sort_value host_little_endian (core_pak_precedence file mod_type) output
    else output in
  let output :=
    fs_write_sort_value host_little_endian (basegame_dir_precedence mod_type) output in
  let output :=
    fs_write_sort_value host_little_endian
      (if download_folder_flagged file then 0 else 1) output in
  if (sourcetype file =? FSC_SOURCETYPE_PK3)
     || (sourcetype file =? FSC_SOURCETYPE_DIRECT)
        && match pk3dir_ptr file with Some _ => true | None => false end
  then
    let output := fs_write_sort_value host_little_endian 0 output in
    let '(output, table) := write_sort_pk3_source_filename table file output in
    ret (fs_write_sort_value host_little_endian
           (if sourcetype file =? FSC_SOURCETYPE_PK3
            then u32 (Z.lnot (header_position file)) else UINT_MAX)
           output,
         table)
  else ret (fs_write_sort_value host_little_endian 1 output, table).

End CoreSortKey.

(** The stream [output'] continues [output]: same buffer size, the position
    not before, the bytes written in [output] still there. *)
Definition stream_extends (output output' : fsc_stream_t) : Prop :=
  stream_ok output'
  /\ size output' = size output
  /\ position output <= position output'
  /\ stream_written output
     = take (Z.to_nat (position output)) (data output').

(** ** What the core pak verification reports *)

(** The state with more events. *)
Definition with_events (st : fs_state) (evs : list fs_event) : fs_state :=
  {| servercfg_cvar_mod_count := servercfg_cvar_mod_count st;
     servercfg_folders := servercfg_folders st;
     events := events st ++ evs |}.

(** The pak was found under its name with the expected hash. *)
Definition pak_state_exact (s : core_pak_state_t) : bool :=
  match name_match s, hash_match s with
  | Some nm, Some hm => same_file nm hm
  | _, _ => false
  end.

(** The console lines and the popup lines [generate_pak_warnings] adds for
    one pak, and the warning loops for a list of states from index [i]. *)
Definition pak_warning_console (mod_ filename : string) (state : core_pak_state_t)
  : list console_line :=
  match hash_match state with
  | Some hm =>
      match name_match state with
      | None => [Print_misnamed mod_ filename hm]
      | Some nm =>
          if negb (same_file nm hm) then [Print_incorrect_hash_found mod_ filename hm]
          else []
      end
  | None =>
      match name_match state with
      | Some _ => [Print_incorrect_hash mod_ filename]
      | None => [Print_not_found mod_ filename]
      end
  end.

Definition pak_warning_popup (mod_ filename : string) (state : core_pak_state_t)
  : list popup_line :=
  match hash_match state with
  | Some _ => []
  | None =>
      match name_match state with
      | Some _ => [Popup_incorrect_hash mod_ filename]
      | None => [Popup_not_found mod_ filename]
      end
  end.

Fixpoint all_warning_console (mod_ : string) (states : list core_pak_state_t) (i : Z)
  : list console_line :=
  match states with
  | [] => []
  | s :: rest =>
      pak_warning_console mod_ (pak_filename i) s ++ all_warning_console mod_ rest (i + 1)
  end.

Fixpoint all_warning_popup (mod_ : string) (states : list core_pak_state_t) (i : Z)
  : list popup_line :=
  match states with
  | [] => []
  | s :: rest =>
      pak_warning_popup mod_ (pak_filename i) s ++ all_warning_popup mod_ rest (i + 1)
  end.

Section CorePakReport.

Context `{X : fs_externals}.
Variable G : fs_globals.

(** What [check_default_cfg_pk3] returns, from the servercfg directory list. *)
Fixpoint default_cfg_scan_of (folders : list string) (files : list fsc_file_t)
  (mod_ : option string) (filename : string) (hash : Z) : bool :=
  match files with
  | [] => false
  | file :: rest =>
      if negb (read_enabled G folders file)
      then default_cfg_scan_of folders rest mod_ filename hash
      else if negb (sourcetype file =? FSC_SOURCETYPE_PK3)
      then default_cfg_scan_of folders rest mod_ filename hash
      else if negb (Q_stricmp (qp_ext file) ".cfg" =? 0)
      then default_cfg_scan_of folders rest mod_ filename hash
      else
        match fsc_get_base_file file with
        | Some source_pk3 =>
            if pk3_hash source_pk3 =? hash then true
            else if mod_differs (fsc_get_mod_dir source_pk3) mod_
            then default_cfg_scan_of folders rest mod_ filename hash
            else if Q_stricmp (qp_name source_pk3) filename =? 0 then true
            else default_cfg_scan_of folders rest mod_ filename hash
        | None => default_cfg_scan_of folders rest mod_ filename hash
        end
  end.

(** The condition on which [fs_check_core_paks] enables standalone mode. *)
Definition core_paks_standalone (core missionpack : list core_pak_state_t) : bool :=
  negb (Q_stricmp (com_basegame G) BASEGAME =? 0)
  && negb (existsb has_hash_match core || existsb has_hash_match missionpack).

Definition missionpack_installed (missionpack : list core_pak_state_t) : bool :=
  existsb (fun s => has_name_match s || has_hash_match s) missionpack.

(** pak0 was found but no pk3 with its name or hash holds default.cfg. *)
Definition default_cfg_missing (core : list core_pak_state_t) (default_cfg : bool)
  : bool :=
  let pak0 := default {| name_match := None; hash_match := None |} (core !! 0%nat) in
  (has_name_match pak0 || has_hash_match pak0) && negb default_cfg.

(** The text of the warning popup. *)
Definition core_paks_popup (core missionpack : list core_pak_state_t)
  (default_cfg : bool) : list popup_line :=
  all_warning_popup BASEGAME core 0
  ++ (if missionpack_installed missionpack
      then all_warning_popup "missionpack" missionpack 0 else [])
  ++ (if default_cfg_missing core default_cfg then [Popup_default_cfg_not_found] else []).

(** The console warnings. *)
Definition core_paks_console (core missionpack : list core_pak_state_t)
  : list console_line :=
  all_warning_console BASEGAME core 0
  ++ (if missionpack_installed missionpack
      then all_warning_console "missionpack" missionpack 0 else []).

(** The dialog and what follows it. *)
Definition core_paks_closing (popup : list popup_line) : list fs_event :=
  if negb DEDICATED && negb (length popup =? 0)%nat
  then Ev_dialog popup :: (if Sys_Dialog_cancelled popup then [Ev_quit] else [])
  else [].

End CorePakReport.

(** An event that is neither the dialog nor the exit. *)
Definition console_event (e : fs_event) : Prop :=
  match e with
  | Ev_dialog _ | Ev_quit => False
  | _ => True
  end.

(** ** A complete installation *)

Definition example_core_pak (i : nat) (hash : Z) : fsc_file_t :=
  {| file_addr := 1000 + Z.of_nat i; sourcetype := 1;
     qp_name := pak_filename (Z.of_nat i); qp_ext := ".pk3";
     flags := 0; pk3_hash := hash; pk3dir_ptr := None |}.

Definition example_core_paks : list fsc_file_t := imap example_core_pak core_hashes.

(** default.cfg, in pak0.pk3. *)
Definition example_default_cfg : fsc_file_t :=
  {| file_addr := 2000; sourcetype := 2; qp_name := "default"; qp_ext := ".cfg";
     flags := 0; pk3_hash := 0; pk3dir_ptr := None |}.

Definition example_full_externals : fs_externals :=
  {| FSC_SOURCETYPE_DIRECT := 1;
     FSC_SOURCETYPE_PK3 := 2;
     FD_CHECK_PURE_LIST := 1;
     FD_CHECK_READ_INACTIVE_MODS := 2;
     FD_CHECK_READ_INACTIVE_MODS_IGNORE_SERVERCFG := 4;
     FD_CHECK_LIST_INACTIVE_MODS := 8;
     FD_CHECK_LIST_SERVERCFG_LIMIT := 16;
     FS_SERVERCFG_ENABLED := true;
     DEDICATED := false;
     FS_CORE_PAKS := Some core_hashes;
     FS_CORE_PAKS_TEAMARENA := Some (core_hashes ++ missionpack_hashes);
     BASEGAME := "baseq3";
     BASETA := "missionpack";
     FSC_MAX_MODDIR := 32;
     host_little_endian := true;
     Q_stricmp := example_stricmp;
     Q_strncpyz := fun s n => substring 0 (Z.to_nat (n - 1)) s;
     fs_generate_path := fun s _ => (string_length s, s);
     COM_ParseExt_tokens := fun s => if string_is_empty s then [] else [s];
     fsc_get_base_file :=
       fun f => if sourcetype f =? 1 then Some f else head example_core_paks;
     fsc_get_mod_dir := fun _ => "baseq3"%string;
     fsc_file_iterator :=
       fun dir name =>
         if string_is_empty dir
         then List.filter (fun f => example_stricmp (qp_name f) name =? 0)
                          (example_default_cfg :: example_core_paks)
         else [];
     fsc_pk3_iterator :=
       fun hash => List.filter (fun f => pk3_hash f =? hash) example_core_paks;
     Sys_Dialog_cancelled := fun _ => true |}.

(** ** Indented debug prints *)

(** [++fs_debug_indent_level] on the static [int]. *)
Definition fs_debug_indent_start (fs_debug_indent_level : Z) : Z :=
  int32 (fs_debug_indent_level + 1).

(** [fs_debug_indent_stop]: the new level, and whether the warning
    "Negative filesystem debug increment" was printed. *)
Definition fs_debug_indent_stop (fs_debug_indent_level : Z) : Z * bool :=
  let level := int32 (fs_debug_indent_level - 1) in
  if level <? 0 then (0, true) else (level, false).

(** [char spaces[16]] of [FS_DPrintf]: fifteen spaces and the NUL. *)
Definition debug_spaces : list Z := replicate 15 32 ++ [0].

(** The index [FS_DPrintf] writes the NUL at: [indent * 2], [indent] being
    the level as [unsigned int], at most 4. *)
Definition debug_indent_index (fs_debug_indent_level : Z) : Z :=
  let indent := u32 fs_debug_indent_level in
  let indent := if 4 <? indent then 4 else indent in
  u32 (indent * 2).

(** The bytes of a buffer before its first NUL: what "%s" prints. *)
Fixpoint until_nul (buffer : list Z) : list Z :=
  match buffer with
  | [] => []
  | b :: rest => if b =? 0 then [] else b :: until_nul rest
  end.

(** [FS_DPrintf]: the bytes handed to [Com_Printf], [msg] being the
    formatted message. *)
Definition FS_DPrintf (fs_debug_indent_level : Z) (msg : list Z) : list Z :=
  let spaces := <[Z.to_nat (debug_indent_index fs_debug_indent_level) := 0]> debug_spaces in
  until_nul spaces ++ msg.

(** ** Files of the same pk3, lists of strings *)

Section FileHelpers.

Context `{X : fs_externals}.

(** The field [source_pk3] of a file from a pk3: a pointer into the index. *)
Variable source_pk3 : fsc_file_t -> Z.

(** The two files may be null pointers. *)
Definition fs_files_from_same_pk3 (file1 file2 : option fsc_file_t) : bool :=
  match file1, file2 with
  | Some f1, Some f2 =>
      if negb (sourcetype f1 =? FSC_SOURCETYPE_PK3)
         || negb (sourcetype f2 =? FSC_SOURCETYPE_PK3)
         || negb (source_pk3 f1 =? source_pk3 f2)
      then false else true
  | _, _ => false
  end.

(** [fsc_stream_append_string], of the file index library. *)
Variable fsc_stream_append_string : fsc_stream_t -> string -> fsc_stream_t.

(** The loop of [fs_comma_separated_list] over the entries of the array,
    null pointers being [None]. *)
Fixpoint comma_list_loop (strings : list (option string)) (have_item : bool)
  (output : fsc_stream_t) : fsc_stream_t * bool :=
  match strings with
  | [] => (output, have_item)
  | entry :: rest =>
      match entry with
      | Some s =>
          if negb (head_code s =? 0) then
            let output :=
              if have_item then fsc_stream_append_string output ", " else output in
            comma_list_loop rest true (fsc_stream_append_string output s)
          else comma_list_loop rest have_item output
      | None => comma_list_loop rest have_item output
      end
  end.

(** [fs_comma_separated_list]; the array has [count] entries at least. *)
Definition fs_comma_separated_list (strings : list (option string)) (count : Z)
  (output : fsc_stream_t) : fsc_stream_t :=
  let output := fsc_stream_append_string output "" in
  let '(output, have_item) :=
    comma_list_loop (take (Z.to_nat count) strings) false output in
  if negb have_item then fsc_stream_append_string output "<none>" else output.

(** The strings of the array that are neither null nor empty. *)
Definition listed_item (entry : option string) : option string :=
  match entry with
  | Some s => if negb (head_code s =? 0) then Some s else None
  | None => None
  end.

Definition listed_items (strings : list (option string)) : list string :=
  omap listed_item strings.

(** The items with ", " between them. *)
Fixpoint comma_separated (items : list string) : list string :=
  match items with
  | [] => []
  | [s] => [s]
  | s :: rest => s :: ", "%string :: comma_separated rest
  end.

End FileHelpers.

(** ** Config files and game dlls *)

(** What [fs_execute_config_file] does to the outside, in order: the console
    lines by their [Com_Printf] call, the calls into the file system, the
    journal and the command buffer.  A data buffer is identified with its
    content. *)
Inductive exec_event : Type :=
  | Ex_print_journal (name : string)
  | Ex_print_not_in_journal (name : string)
  | Ex_print_execing (name : string)
  | Ex_print_not_found (name : string)
  | Ex_print_read_failed (name : string)
  | Ex_read_journal
  | Ex_auto_refresh
  | Ex_lookup (name : string) (lookup_flags : Z)
  | Ex_read_data (file : fsc_file_t)
  | Ex_write_journal (data : option string) (size : Z)
  | Ex_execute (exec_type : Z) (text : string)
  | Ex_free (data : string).

Definition is_free (e : exec_event) : bool :=
  match e with Ex_free _ => true | _ => false end.

Definition is_execute (e : exec_event) : bool :=
  match e with Ex_execute _ _ => true | _ => false end.

Definition is_journal_write (e : exec_event) : bool :=
  match e with Ex_write_journal _ _ => true | _ => false end.

Definition is_file_system_access (e : exec_event) : bool :=
  match e with
  | Ex_auto_refresh | Ex_lookup _ _ | Ex_read_data _ => true
  | _ => false
  end.

(** The string of a line feed. *)
Definition newline : string := String (ascii_of_nat 10) EmptyString.

(** Cvars and globals: the handle [com_journalDataFile], [com_journal->integer]
    and [fs_download_mode->integer].  Macros and enumeration values of the
    headers.  Functions of other files, by what they return to the call: the
    next record of the journal, the file found for a name and flags, the data
    and size read from a file (a null pointer is [None]). *)
Class exec_externals : Type := {
  com_journalDataFile : Z;
  com_journal : Z;
  fs_download_mode : Z;
  LOOKUPFLAG_PURE_ALLOW_DIRECT_SOURCE : Z;
  LOOKUPFLAG_IGNORE_CURRENT_MAP : Z;
  LOOKUPFLAG_NO_DOWNLOAD_FOLDER : Z;
  LOOKUPFLAG_SETTINGS_FILE : Z;
  LOOKUPFLAG_DIRECT_SOURCE_ONLY : Z;
  FS_CONFIGTYPE_SETTINGS : Z;
  FS_CONFIGTYPE_DEFAULT : Z;
  EXEC_APPEND : Z;
  fs_read_journal_data : option string;
  fs_general_lookup : string -> Z -> option fsc_file_t;
  fs_read_data : fsc_file_t -> option (string * Z)
}.

Section ConfigFile.

Context `{E : exec_externals}.

Definition config_lookup_flags (config_type : Z) : Z :=
  let lookup_flags :=
    Z.lor LOOKUPFLAG_PURE_ALLOW_DIRECT_SOURCE LOOKUPFLAG_IGNORE_CURRENT_MAP in
  let lookup_flags :=
    if 2 <=? fs_download_mode
    then Z.lor lookup_flags LOOKUPFLAG_NO_DOWNLOAD_FOLDER else lookup_flags in
  let lookup_flags :=
    if config_type =? FS_CONFIGTYPE_SETTINGS
    then Z.lor lookup_flags (Z.lor LOOKUPFLAG_SETTINGS_FILE LOOKUPFLAG_DIRECT_SOURCE_ONLY)
    else lookup_flags in
  if config_type =? FS_CONFIGTYPE_DEFAULT
  then Z.lor lookup_flags LOOKUPFLAG_SETTINGS_FILE else lookup_flags.

(** The end of [fs_execute_config_file], once the data is there. *)
Definition execute_config_data (data : string) (size : Z) (exec_type : Z)
  : list exec_event :=
  [Ex_write_journal (Some data) size; Ex_execute exec_type data]
  ++ (if exec_type =? EXEC_APPEND then [Ex_execute EXEC_APPEND newline] else [])
  ++ [Ex_free data].

Definition fs_execute_config_file (name : string) (config_type exec_type : Z)
  (quiet : bool) : list exec_event :=
  if negb (com_journalDataFile =? 0) && (com_journal =? 2) then
    [Ex_print_journal name; Ex_read_journal]
    ++ match fs_read_journal_data with
       | None => [Ex_print_not_in_journal name]
       | Some data => execute_config_data data 0 exec_type
       end
  else
    let lookup_flags := config_lookup_flags config_type in
    (if negb quiet then [Ex_print_execing name] else [])
    ++ [Ex_auto_refresh; Ex_lookup name lookup_flags]
    ++ match fs_general_lookup name lookup_flags with
       | None => [Ex_print_not_found name; Ex_write_journal None 0]
       | Some file =>
           Ex_read_data file ::
           match fs_read_data file with
           | None => [Ex_print_read_failed name; Ex_write_journal None 0]
           | Some (data, size) => execute_config_data data size exec_type
           end
       end.

(** The data a call gets hold of, with the size it records. *)
Definition config_data (name : string) (config_type : Z) : option (string * Z) :=
  if negb (com_journalDataFile =? 0) && (com_journal =? 2) then
    match fs_read_journal_data with
    | Some data => Some (data, 0)
    | None => None
    end
  else
    match fs_general_lookup name (config_lookup_flags config_type) with
    | Some file => fs_read_data file
    | None => None
    end.

End ConfigFile.

(** *** Game dlls *)

Inductive dll_event : Type :=
  | Dl_print_attempt (dll_info : string)
  | Dl_print_not_direct
  | Dl_print_convert_failed
  | Dl_load (path : string)
  | Dl_print_load_failed
  | Dl_free (path : string).

(** Functions of other files: the description [fs_file_to_buffer] writes
    for the info line, [fsc_os_path_to_string] on the os path of a direct
    file (null: [None]) and the handle [Sys_LoadGameDll] returns for a path
    (null: 0). *)
Class dll_externals : Type := {
  dll_info_string : fsc_file_t -> string;
  fsc_os_path_to_string : fsc_file_t -> option string;
  Sys_LoadGameDll : string -> Z
}.

Section GameDll.

Context `{X : fs_externals} `{D : dll_externals}.

(** [fs_load_game_dll]: the handle returned and what the call does. *)
Definition fs_load_game_dll (dll_file : fsc_file_t) : Z * list dll_event :=
  let attempt := [Dl_print_attempt (dll_info_string dll_file)] in
  if negb (sourcetype dll_file =? FSC_SOURCETYPE_DIRECT)
  then (0, attempt ++ [Dl_print_not_direct])
  else
    match fsc_os_path_to_string dll_file with
    | None => (0, attempt ++ [Dl_print_convert_failed])
    | Some dll_path_string =>
        let dll_handle := Sys_LoadGameDll dll_path_string in
        (dll_handle,
         attempt ++ [Dl_load dll_path_string]
         ++ (if dll_handle =? 0 then [Dl_print_load_failed] else [])
         ++ [Dl_free dll_path_string])
    end.

End GameDll.

(** * Properties *)

(** ** C integers *)

Lemma u32_small (x : Z) : 0 <= x <= UINT_MAX -> u32 x = x.
Proof. intros H. unfold u32, UINT_MAX in *. apply Z.mod_small. lia. Qed.

Lemma int32_small (x : Z) : 0 <= x <= INT_MAX -> int32 x = x.
Proof.
  intros H. unfold int32. rewrite u32_small by (unfold INT_MAX, UINT_MAX in *; lia).
  destruct (Z.leb_spec x INT_MAX); lia.
Qed.

(** ** Hash table *)

Section HashTableFacts.

Context {A : Type}.
Implicit Types (t : fs_hashtable_t A) (it : fs_hashtable_iterator_t A).

Lemma bucket_index_wf t hash :
  hashtable_initialized t -> bucket_index t hash = hash mod bucket_count t.
Proof.
  intros [[Hr _] Hp]. unfold bucket_index.
  rewrite u32_small; [reflexivity | unfold INT_MAX, UINT_MAX in *; lia].
Qed.

Lemma bucket_index_range t hash :
  hashtable_initialized t -> 0 <= bucket_index t hash < bucket_count t.
Proof.
  intros H. rewrite (bucket_index_wf t hash H). destruct H as [_ Hp].
  apply Z.mod_pos_bound. exact Hp.
Qed.

(** One more bucket of the walk. *)
Lemma concat_take_drop_S (l : list (list A)) (i n : nat) :
  concat (take (S n) (drop i l)) = default [] (l !! i) ++ concat (take n (drop (S i) l)).
Proof.
  destruct (l !! i) as [x|] eqn:E.
  - rewrite (drop_S l x i E). reflexivity.
  - apply lookup_ge_None in E. rewrite !drop_ge by lia.
    rewrite !take_nil. reflexivity.
Qed.

(** [fs_hashtable_next] returns the first pending entry and leaves the other
    pending entries, or returns null when nothing is pending. *)
Lemma next_scan_pending (n : nat) t (cb bl : Z) (entry : list A) :
  0 <= cb -> n = Z.to_nat (bl - cb) ->
  match next_scan n t cb bl entry with
  | (None, it') =>
      entry ++ concat (take n (drop (Z.to_nat cb) (buckets t))) = []
      /\ iter_pending it' = [] /\ 0 <= current_bucket it'
  | (Some e, it') =>
      entry ++ concat (take n (drop (Z.to_nat cb) (buckets t))) = e :: iter_pending it'
      /\ 0 <= current_bucket it' /\ it_ht it' = t
  end.
Proof.
  revert cb entry. induction n as [|n IH]; intros cb entry Hcb Hn.
  - destruct entry as [|e rest]; simpl.
    + destruct (Z.leb_spec bl cb); unfold iter_pending; simpl;
        replace (Z.to_nat (bl - cb)) with 0%nat by lia; auto.
    + unfold iter_pending; simpl. rewrite <- Hn. auto.
  - destruct entry as [|e rest]; simpl next_scan.
    + destruct (Z.leb_spec bl cb) as [Hle|Hlt]; [lia|].
      specialize (IH (cb + 1) (bucket_at t cb) ltac:(lia) ltac:(lia)).
      rewrite app_nil_l, concat_take_drop_S.
      replace (S (Z.to_nat cb)) with (Z.to_nat (cb + 1)) by lia.
      exact IH.
    + unfold iter_pending; simpl current_entry; simpl bucket_limit;
        simpl current_bucket; simpl it_ht. rewrite <- Hn. auto.
Qed.

Lemma fs_hashtable_next_pending it :
  0 <= current_bucket it ->
  match fs_hashtable_next it with
  | (None, it') => iter_pending it = [] /\ iter_pending it' = []
                   /\ 0 <= current_bucket it'
  | (Some e, it') => iter_pending it = e :: iter_pending it'
                     /\ 0 <= current_bucket it' /\ it_ht it' = it_ht it
  end.
Proof.
  intros Hcb. unfold fs_hashtable_next.
  pose proof (next_scan_pending (Z.to_nat (bucket_limit it - current_bucket it))
                (it_ht it) (current_bucket it) (bucket_limit it) (current_entry it)
                Hcb eq_refl) as H.
  exact H.
Qed.

(** Calling [fs_hashtable_next] until it returns null produces exactly the
    pending entries, in order. *)
Lemma iter_yields_pending it :
  0 <= current_bucket it -> iter_yields it (iter_pending it).
Proof.
  remember (iter_pending it) as l eqn:El. revert it El.
  induction l as [|e l IH]; intros it El Hcb.
  - pose proof (fs_hashtable_next_pending it Hcb) as H.
    destruct (fs_hashtable_next it) as [[e|] it'] eqn:E.
    + destruct H as [H _]. congruence.
    + eapply yields_done; eauto.
  - pose proof (fs_hashtable_next_pending it Hcb) as H.
    destruct (fs_hashtable_next it) as [[e'|] it'] eqn:E.
    + destruct H as (H1 & H2 & _). rewrite H1 in El. injection El as -> ->.
      eapply yields_entry; eauto.
    + destruct H as [H _]. congruence.
Qed.

Lemma iter_yields_functional it (l1 l2 : list A) :
  iter_yields it l1 -> iter_yields it l2 -> l1 = l2.
Proof.
  intros H1. revert l2. induction H1 as [it it' E|it it' e l E _ IH]; intros l2 H2.
  - inversion H2; subst; congruence.
  - inversion H2 as [? ? E2|? ? ? ? E2 H3]; subst; [congruence|].
    rewrite E in E2. injection E2 as -> ->. f_equal. auto.
Qed.

End HashTableFacts.

Section HashTableInsert.

Context {A : Type}.
Implicit Types (t : fs_hashtable_t A) (it : fs_hashtable_iterator_t A).

Lemma iterate_targeted_pending t hash :
  hashtable_initialized t ->
  iter_pending (fs_hashtable_iterate t hash false) = bucket_at t (hash mod bucket_count t)
  /\ 0 <= current_bucket (fs_hashtable_iterate t hash false).
Proof.
  intros H. pose proof (bucket_index_range t hash H) as Hr.
  pose proof (bucket_index_wf t hash H) as Hi. destruct H as [_ Hp].
  unfold fs_hashtable_iterate.
  destruct (Z.eqb_spec (bucket_count t) 0) as [E|_]; [lia|]. simpl orb. cbv iota.
  unfold iter_pending; simpl.
  replace (Z.to_nat (bucket_index t hash + 1 - bucket_index t hash)) with 1%nat by lia.
  rewrite concat_take_drop_S, take_0, <- Hi. simpl. rewrite app_nil_r.
  split; [reflexivity | lia].
Qed.

Lemma iterate_all_pending t hash (iterate_all : bool) :
  hashtable_wf t -> bucket_count t = 0 \/ iterate_all = true ->
  iter_pending (fs_hashtable_iterate t hash iterate_all) = concat (buckets t)
  /\ 0 <= current_bucket (fs_hashtable_iterate t hash iterate_all).
Proof.
  intros [Hr Hl] Hall. unfold fs_hashtable_iterate.
  replace ((bucket_count t =? 0) || iterate_all) with true.
  - unfold iter_pending; simpl. rewrite Z.sub_0_r, <- Hl, Nat2Z.id, drop_0.
    rewrite firstn_all. split; [reflexivity | lia].
  - destruct Hall as [-> | ->]; [reflexivity | rewrite orb_true_r; reflexivity].
Qed.

Lemma fs_hashtable_insert_spec t entry hash :
  hashtable_initialized t ->
  exists t',
    fs_hashtable_insert t entry hash = Some t'
    /\ hashtable_initialized t'
    /\ bucket_count t' = bucket_count t
    /\ element_count t' = int32 (element_count t + 1)
    /\ bucket_at t' (hash mod bucket_count t) = entry :: bucket_at t (hash mod bucket_count t)
    /\ (forall i, 0 <= i -> i <> hash mod bucket_count t -> bucket_at t' i = bucket_at t i)
    /\ concat (buckets t') ≡ₚ entry :: concat (buckets t).
Proof.
  intros H. pose proof (bucket_index_range t hash H) as Hr.
  pose proof (bucket_index_wf t hash H) as Hi.
  destruct H as [[Hb Hl] Hp].
  unfold fs_hashtable_insert.
  destruct (Z.ltb_spec 0 (bucket_count t)) as [_|?]; [|lia].
  rewrite Hi in *. set (idx := hash mod bucket_count t) in *.
  assert (Hlt : (Z.to_nat idx < length (buckets t))%nat) by lia.
  eexists. split; [reflexivity|].
  repeat split; simpl.
  - exact (proj1 Hb).
  - exact (proj2 Hb).
  - rewrite length_insert. exact Hl.
  - exact Hp.
  - unfold bucket_at at 1. simpl. rewrite list_lookup_insert_eq by exact Hlt. reflexivity.
  - intros i Hi0 Hne. unfold bucket_at at 1. simpl.
    rewrite list_lookup_insert_ne by lia. reflexivity.
  - destruct (lookup_lt_is_Some_2 _ _ Hlt) as [b Eb].
    unfold bucket_at. rewrite Eb. simpl.
    rewrite insert_take_drop by exact Hlt.
    rewrite <- (take_drop_middle (buckets t) _ b Eb) at 3.
    rewrite !concat_app. simpl.
    rewrite <- Permutation_middle. reflexivity.
Qed.

Lemma fs_hashtable_insert_all_spec t (ins : list (A * Z)) :
  hashtable_initialized t ->
  exists t',
    fs_hashtable_insert_all t ins = Some t'
    /\ hashtable_initialized t'
    /\ bucket_count t' = bucket_count t
    /\ (forall i e, 0 <= i -> e ∈ bucket_at t i -> e ∈ bucket_at t' i)
    /\ concat (buckets t') ≡ₚ rev (map fst ins) ++ concat (buckets t).
Proof.
  revert t. induction ins as [|[e h] ins IH]; intros t H.
  - exists t. simpl. repeat split; auto; apply H.
  - destruct (fs_hashtable_insert_spec t e h H)
      as (t1 & E1 & H1 & Hbc & _ & Hhead & Hother & Hperm).
    destruct (IH t1 H1) as (t' & E' & H' & Hbc' & Hmem & Hperm').
    exists t'. simpl. rewrite E1. split; [exact E'|].
    split; [exact H'|]. split; [congruence|]. split.
    + intros i x Hi Hx. apply Hmem; [exact Hi|].
      destruct (Z.eq_dec i (h mod bucket_count t)) as [->|Hne].
      * rewrite Hhead. apply elem_of_cons. right. exact Hx.
      * rewrite (Hother i Hi Hne). exact Hx.
    + rewrite Hperm', Hperm. rewrite <- app_assoc. simpl.
      rewrite <- Permutation_middle. reflexivity.
Qed.

End HashTableInsert.

(** C8. [fs_hashtable_insert] on an initialized table puts the entry at the
    head of bucket [hash % bucket_count]; the targeted iteration for the same
    hash ([iterate_all] false, advanced with [fs_hashtable_next] until null)
    yields that entry first and then the older entries of the bucket, and
    after any later insertions it still walks exactly that bucket, which
    still holds the entry; with [iterate_all] true, or on a table whose
    bucket count is zero, the iteration walks the buckets in order and yields
    every stored entry: the entries inserted, each once. *)
Theorem fs_hashtable_insert_then_iterate {A : Type} (t : fs_hashtable_t A)
  (entry : A) (hash : Z) (later : list (A * Z)) :
  hashtable_initialized t ->
  exists t' t'',
    fs_hashtable_insert t entry hash = Some t'
    /\ bucket_count t' = bucket_count t
    /\ bucket_at t' (hash mod bucket_count t') = entry :: bucket_at t (hash mod bucket_count t)
    /\ iter_yields (fs_hashtable_iterate t' hash false)
                   (entry :: bucket_at t (hash mod bucket_count t))
    /\ fs_hashtable_insert_all t' later = Some t''
    /\ iter_yields (fs_hashtable_iterate t'' hash false)
                   (bucket_at t'' (hash mod bucket_count t''))
    /\ entry ∈ bucket_at t'' (hash mod bucket_count t'')
    /\ (forall h, iter_yields (fs_hashtable_iterate t'' h true) (concat (buckets t'')))
    /\ concat (buckets t'') ≡ₚ rev (map fst later) ++ entry :: concat (buckets t)
    /\ (forall (t0 : fs_hashtable_t A) h (iterate_all : bool),
          hashtable_wf t0 -> bucket_count t0 = 0 ->
          iter_yields (fs_hashtable_iterate t0 h iterate_all) (concat (buckets t0))).
Proof.
  intros H.
  destruct (fs_hashtable_insert_spec t entry hash H)
    as (t' & E1 & H1 & Hbc & _ & Hhead & _ & Hperm).
  destruct (fs_hashtable_insert_all_spec t' later H1)
    as (t'' & E2 & H2 & Hbc2 & Hmem & Hperm2).
  exists t', t''. split; [exact E1|]. split; [exact Hbc|].
  rewrite Hbc2, Hbc. split; [exact Hhead|]. split.
  { destruct (iterate_targeted_pending t' hash H1) as [Hp Hcb].
    rewrite Hbc in Hp. rewrite <- Hhead, <- Hp.
    apply iter_yields_pending. exact Hcb. }
  split; [exact E2|]. split.
  { destruct (iterate_targeted_pending t'' hash H2) as [Hp Hcb].
    rewrite Hbc2, Hbc in Hp. rewrite <- Hp.
    apply iter_yields_pending. exact Hcb. }
  split.
  { apply Hmem.
    - apply Z.mod_pos_bound. apply H.
    - rewrite Hhead. apply elem_of_cons. left. reflexivity. }
  split.
  { intros h.
    destruct (iterate_all_pending t'' h true (proj1 H2) (or_intror eq_refl)) as [<- Hcb].
    apply iter_yields_pending. exact Hcb. }
  split.
  { rewrite Hperm2, Hperm. reflexivity. }
  intros t0 h all Hwf Hz.
  destruct (iterate_all_pending t0 h all Hwf (or_introl Hz)) as [<- Hcb].
  apply iter_yields_pending. exact Hcb.
Qed.

(** ** Pk3 list *)

Lemma int32_le_max (x : Z) : int32 x <= INT_MAX.
Proof.
  unfold int32, u32, INT_MAX.
  pose proof (Z.mod_pos_bound x 4294967296 ltac:(lia)).
  destruct (Z.leb_spec (x mod 4294967296) 2147483647); lia.
Qed.

Lemma list_position_range (l : list Z) (h : Z) :
  0 <= list_position l h <= Z.of_nat (length l).
Proof.
  induction l as [|x l IH]; simpl length; simpl list_position; [lia|].
  destruct (x =? h); [lia|].
  destruct (Z.eqb_spec (list_position l h) 0); lia.
Qed.

Lemma list_position_zero (l : list Z) (h : Z) :
  list_position l h = 0 <-> h ∉ l.
Proof.
  induction l as [|x l IH]; simpl.
  - split; [intros _; apply not_elem_of_nil | reflexivity].
  - rewrite not_elem_of_cons. pose proof (list_position_range l h).
    destruct (Z.eqb_spec x h) as [->|Hne].
    + split; [lia | intros [? _]; congruence].
    + destruct (Z.eqb_spec (list_position l h) 0) as [E|E].
      * split; [intros _; split; [congruence | apply IH; exact E] | reflexivity].
      * split; [lia | intros [_ Hn]; apply IH in Hn; contradiction].
Qed.

Lemma list_position_snoc (l : list Z) (x h : Z) :
  list_position (l ++ [x]) h =
  if list_position l h =? 0
  then (if x =? h then Z.of_nat (length l) + 1 else 0)
  else list_position l h.
Proof.
  induction l as [|y l IH]; simpl list_position.
  - simpl. destruct (x =? h); reflexivity.
  - simpl app. simpl list_position. destruct (Z.eqb_spec y h) as [->|Hne]; [reflexivity|].
    rewrite IH. pose proof (list_position_range l h).
    destruct (Z.eqb_spec (list_position l h) 0) as [E|E].
    + destruct (x =? h); simpl length.
      * destruct (Z.eqb_spec (Z.of_nat (length l) + 1) 0); [lia|].
        replace (Z.of_nat (S (length l))) with (Z.of_nat (length l) + 1) by lia.
        destruct (Z.eqb_spec 0 0); [|lia].
        destruct (Z.eqb_spec (Z.of_nat (length l) + 1) 0); lia.
      * reflexivity.
    + destruct (Z.eqb_spec (list_position l h) 0); [lia|].
      destruct (Z.eqb_spec (list_position l h + 1) 0); [lia | reflexivity].
Qed.

Lemma list_position_lookup (l : list Z) (i : nat) (h : Z) :
  NoDup l -> l !! i = Some h -> list_position l h = Z.of_nat i + 1.
Proof.
  intros Hnd. revert i. induction Hnd as [|x l Hx Hnd IH]; intros i Hi.
  - rewrite lookup_nil in Hi. discriminate.
  - destruct i as [|i]; simpl in Hi.
    + injection Hi as ->. simpl. rewrite Z.eqb_refl. reflexivity.
    + simpl list_position. destruct (Z.eqb_spec x h) as [->|Hne].
      * exfalso. apply Hx. apply list_elem_of_lookup. eauto.
      * rewrite (IH i Hi). destruct (Z.eqb_spec (Z.of_nat i + 1) 0); lia.
Qed.

(** The positions assigned so far never change. *)
Lemma insertion_order_stable (hashes order : list Z) (h : Z) :
  list_position order h <> 0 ->
  list_position (insertion_order order hashes) h = list_position order h.
Proof.
  revert order. induction hashes as [|x hashes IH]; intros order Hp; simpl.
  - reflexivity.
  - destruct (Z.eqb_spec (list_position order x) 0) as [E|E].
    + rewrite IH; rewrite list_position_snoc;
        destruct (Z.eqb_spec (list_position order h) 0); auto; lia.
    + apply IH. exact Hp.
Qed.

Lemma insertion_order_present (hashes order : list Z) (h : Z) :
  h ∈ hashes -> list_position (insertion_order order hashes) h <> 0.
Proof.
  revert order. induction hashes as [|x hashes IH]; intros order Hin.
  - apply elem_of_nil in Hin. contradiction.
  - simpl. apply elem_of_cons in Hin. destruct Hin as [->|Hin]; [|apply IH; exact Hin].
    pose proof (list_position_range order x).
    destruct (Z.eqb_spec (list_position order x) 0) as [E|E].
    + rewrite insertion_order_stable; rewrite list_position_snoc, E; simpl;
        rewrite Z.eqb_refl; lia.
    + rewrite insertion_order_stable; assumption.
Qed.

Lemma insertion_order_absent (hashes order : list Z) (h : Z) :
  h ∉ hashes -> list_position order h = 0 ->
  list_position (insertion_order order hashes) h = 0.
Proof.
  revert order. induction hashes as [|x hashes IH]; intros order Hin Hp; simpl.
  - exact Hp.
  - apply not_elem_of_cons in Hin. destruct Hin as [Hne Hin].
    apply IH; [exact Hin|].
    destruct (list_position order x =? 0); [|exact Hp].
    rewrite list_position_snoc, Hp. simpl.
    destruct (Z.eqb_spec x h); [congruence | reflexivity].
Qed.

Lemma insertion_order_app (hs1 hs2 order : list Z) :
  insertion_order order (hs1 ++ hs2) = insertion_order (insertion_order order hs1) hs2.
Proof.
  revert order. induction hs1 as [|x hs1 IH]; intros order; simpl; [reflexivity|].
  apply IH.
Qed.

Lemma insertion_order_NoDup (hashes order : list Z) :
  NoDup (order ++ hashes) -> insertion_order order hashes = order ++ hashes.
Proof.
  revert order. induction hashes as [|x hashes IH]; intros order Hnd; simpl.
  - rewrite app_nil_r. reflexivity.
  - assert (E : list_position order x = 0).
    { apply list_position_zero. apply NoDup_app in Hnd.
      destruct Hnd as (_ & Hd & _). intros Hin. apply (Hd x Hin).
      apply elem_of_cons. left. reflexivity. }
    rewrite E. simpl. rewrite IH; rewrite <- app_assoc; [reflexivity | exact Hnd].
Qed.

Lemma insertion_order_length (hashes order : list Z) :
  (length (insertion_order order hashes) <= length order + length hashes)%nat.
Proof.
  revert order. induction hashes as [|x hashes IH]; intros order; simpl; [lia|].
  specialize (IH (if list_position order x =? 0 then order ++ [x] else order)).
  destruct (list_position order x =? 0); [rewrite length_app in IH; simpl in IH|]; lia.
Qed.

(** The loop of [pk3_list_lookup] returns the position of the first pending
    entry with the hash, once it has fuel for every pending entry. *)
Lemma pk3_lookup_loop_chain (fuel : nat) (it : fs_hashtable_iterator_t pk3_list_entry_t)
  (hash : Z) :
  0 <= current_bucket it -> (length (iter_pending it) < fuel)%nat ->
  pk3_lookup_loop fuel it hash = chain_lookup (iter_pending it) hash.
Proof.
  revert it. induction fuel as [|fuel IH]; intros it Hcb Hlen; [lia|].
  simpl. pose proof (fs_hashtable_next_pending it Hcb) as H.
  destruct (fs_hashtable_next it) as [[e|] it'].
  - destruct H as (Hp & Hcb' & _). rewrite Hp in *. simpl in *.
    destruct (entry_hash e =? hash); [reflexivity|].
    apply IH; [exact Hcb' | lia].
  - destruct H as (Hp & _). rewrite Hp. reflexivity.
Qed.

Lemma pk3_list_lookup_chain (pl : pk3_list_t) (hash : Z) :
  hashtable_initialized (pk3_ht pl) ->
  pk3_list_lookup pl hash =
  chain_lookup (bucket_at (pk3_ht pl) (hash mod bucket_count (pk3_ht pl))) hash.
Proof.
  intros H. unfold pk3_list_lookup. cbv zeta.
  destruct (iterate_targeted_pending (pk3_ht pl) hash H) as [Hp Hcb].
  rewrite pk3_lookup_loop_chain by (exact Hcb || lia).
  rewrite Hp. reflexivity.
Qed.

Lemma pk3_list_initialize_inv (bucket_count : Z) (pl0 : pk3_list_t) :
  pk3_list_initialize bucket_count = Some pl0 -> pk3_inv pl0 [].
Proof.
  unfold pk3_list_initialize, fs_hashtable_initialize.
  pose proof (int32_le_max bucket_count) as Hmax.
  destruct (Z.ltb_spec 0 (int32 bucket_count)) as [Hpos|]; [|discriminate].
  intros [= <-].
  assert (Hi : hashtable_initialized
                 {| buckets := replicate (Z.to_nat (int32 bucket_count)) ([] : list pk3_list_entry_t);
                    bucket_count := int32 bucket_count; element_count := 0 |}).
  { unfold hashtable_initialized, hashtable_wf. simpl. rewrite length_replicate. lia. }
  split; [exact Hi|]. split; [reflexivity|].
  intros h. rewrite pk3_list_lookup_chain by exact Hi. simpl.
  unfold bucket_at. simpl.
  destruct (replicate (Z.to_nat (int32 bucket_count)) [] !! _) as [b|] eqn:E;
    [|reflexivity].
  apply lookup_replicate in E. destruct E as [-> _]. reflexivity.
Qed.

(** One insertion: a hash that is present leaves the list as it is, a new
    hash gets the next position. *)
Lemma pk3_list_insert_inv (pl : pk3_list_t) (order : list Z) (h : Z) :
  pk3_inv pl order -> Z.of_nat (length order) < INT_MAX ->
  exists pl',
    pk3_list_insert pl h = Some pl'
    /\ pk3_inv pl' (if list_position order h =? 0 then order ++ [h] else order).
Proof.
  intros (Hi & Hc & Hl) Hlen. unfold pk3_list_insert. rewrite Hl.
  destruct (Z.eqb_spec (list_position order h) 0) as [E|E]; simpl negb; cbv iota.
  2: { exists pl. split; [reflexivity|]. split; [exact Hi|]. split; assumption. }
  destruct (fs_hashtable_insert_spec (pk3_ht pl)
              {| entry_hash := h; entry_position := int32 (element_count (pk3_ht pl) + 1) |}
              h Hi) as (t' & E1 & Hi' & Hbc & Hec & Hhead & Hother & _).
  rewrite E1. eexists. split; [reflexivity|].
  assert (Hpos : int32 (element_count (pk3_ht pl) + 1) = Z.of_nat (length order) + 1).
  { rewrite Hc. apply int32_small. lia. }
  split; [exact Hi'|]. split.
  { simpl. rewrite Hec, Hpos, length_app. simpl. lia. }
  intros h2. rewrite pk3_list_lookup_chain by exact Hi'. simpl pk3_ht.
  rewrite Hbc, list_position_snoc, <- Hl.
  destruct (Z.eq_dec (h2 mod bucket_count (pk3_ht pl)) (h mod bucket_count (pk3_ht pl)))
    as [Em|Em].
  - rewrite Em, Hhead. simpl chain_lookup. rewrite <- Em.
    rewrite <- pk3_list_lookup_chain by exact Hi.
    destruct (Z.eqb_spec h h2) as [->|Hne].
    + rewrite Hl, E. simpl. exact Hpos.
    + destruct (pk3_list_lookup pl h2 =? 0) eqn:Ez; [|reflexivity].
      apply Z.eqb_eq in Ez. exact Ez.
  - rewrite Hother by (try apply Z.mod_pos_bound; try apply Hi; exact Em).
    rewrite <- pk3_list_lookup_chain by exact Hi.
    destruct (Z.eqb_spec (pk3_list_lookup pl h2) 0) as [Ez|Ez]; [|reflexivity].
    destruct (Z.eqb_spec h h2) as [->|Hne]; [contradiction | exact Ez].
Qed.

Lemma pk3_list_insert_all_inv (hashes : list Z) (pl : pk3_list_t) (order : list Z) :
  pk3_inv pl order ->
  Z.of_nat (length order) + Z.of_nat (length hashes) <= INT_MAX ->
  exists pl',
    pk3_list_insert_all pl hashes = Some pl'
    /\ pk3_inv pl' (insertion_order order hashes).
Proof.
  revert pl order. induction hashes as [|h hashes IH]; intros pl order Hinv Hlen.
  - exists pl. split; [reflexivity | exact Hinv].
  - simpl length in Hlen.
    destruct (pk3_list_insert_inv pl order h Hinv ltac:(lia)) as (pl1 & E1 & Hinv1).
    simpl. rewrite E1. apply IH; [exact Hinv1|].
    destruct (list_position order h =? 0); [rewrite length_app; simpl|]; lia.
Qed.

(** C1. On a pk3 list set up by [pk3_list_initialize], any sequence of
    [pk3_list_insert] calls (as long as the count stays within [int])
    succeeds, and afterwards: inserting a hash that [pk3_list_lookup] finds
    leaves the list as it is; each inserted hash keeps the position it had
    right after any of its insertions, in particular the first; if the hashes
    inserted are distinct, the lookups return 1, 2, ..., K in insertion order;
    and the lookup of a hash that was never inserted returns 0. *)
Theorem pk3_list_first_insertion_positions (bucket_count : Z) (pl0 : pk3_list_t)
  (hashes : list Z) :
  pk3_list_initialize bucket_count = Some pl0 ->
  Z.of_nat (length hashes) <= INT_MAX ->
  exists pl,
    pk3_list_insert_all pl0 hashes = Some pl
    /\ (forall h, pk3_list_lookup pl h <> 0 -> pk3_list_insert pl h = Some pl)
    /\ (forall h, h ∈ hashes -> pk3_list_lookup pl h <> 0)
    /\ (forall hs1 hs2 h, hashes = hs1 ++ h :: hs2 ->
          exists pl1,
            pk3_list_insert_all pl0 (hs1 ++ [h]) = Some pl1
            /\ pk3_list_lookup pl1 h <> 0
            /\ pk3_list_lookup pl h = pk3_list_lookup pl1 h)
    /\ (NoDup hashes ->
          forall (i : nat) h, hashes !! i = Some h ->
                              pk3_list_lookup pl h = Z.of_nat i + 1)
    /\ (forall h, h ∉ hashes -> pk3_list_lookup pl h = 0).
Proof.
  intros Hinit Hlen.
  pose proof (pk3_list_initialize_inv bucket_count pl0 Hinit) as Hinv0.
  destruct (pk3_list_insert_all_inv hashes pl0 [] Hinv0 ltac:(simpl; lia))
    as (pl & Eall & Hinv).
  exists pl. split; [exact Eall|].
  destruct Hinv as (Hi & Hc & Hl).
  split.
  { intros h Hh. unfold pk3_list_insert.
    destruct (Z.eqb_spec (pk3_list_lookup pl h) 0); [contradiction | reflexivity]. }
  split.
  { intros h Hin. rewrite Hl. apply insertion_order_present. exact Hin. }
  split.
  { intros hs1 hs2 h ->.
    assert (Hlen1 : Z.of_nat (length ([] : list Z)) + Z.of_nat (length (hs1 ++ [h]))
                    <= INT_MAX).
    { rewrite !length_app in *. simpl in *. lia. }
    destruct (pk3_list_insert_all_inv (hs1 ++ [h]) pl0 [] Hinv0 Hlen1)
      as (pl1 & E1 & (_ & _ & Hl1)).
    exists pl1. split; [exact E1|].
    assert (Hp : list_position (insertion_order [] (hs1 ++ [h])) h <> 0).
    { apply insertion_order_present. apply elem_of_app. right.
      apply elem_of_cons. left. reflexivity. }
    split; [rewrite Hl1; exact Hp|].
    rewrite Hl, Hl1.
    replace (hs1 ++ h :: hs2) with ((hs1 ++ [h]) ++ hs2)
      by (rewrite <- app_assoc; reflexivity).
    rewrite insertion_order_app. apply insertion_order_stable. exact Hp. }
  split.
  { intros Hnd i h Hi'. rewrite Hl.
    rewrite insertion_order_NoDup by exact Hnd.
    apply list_position_lookup; assumption. }
  intros h Hnin. rewrite Hl. apply insertion_order_absent; [exact Hnin | reflexivity].
Qed.

(** An instance: a list of 4 buckets and the hashes 10, 6, 10, 3. *)
Lemma pk3_list_first_insertion_positions_witness :
  exists pl0 pl,
    pk3_list_initialize 4 = Some pl0
    /\ pk3_list_insert_all pl0 [10; 6; 10; 3] = Some pl
    /\ pk3_list_lookup pl 10 <> 0.
Proof.
  destruct (pk3_list_initialize 4) as [pl0|] eqn:E0; [|discriminate].
  destruct (pk3_list_first_insertion_positions 4 pl0 [10; 6; 10; 3] E0)
    as (pl & Eall & _ & Hin & _).
  { unfold INT_MAX. simpl. lia. }
  exists pl0, pl. split; [reflexivity|]. split; [exact Eall|].
  apply Hin. apply elem_of_cons. left. reflexivity.
Defined.

(** An instance: a table of three empty buckets. *)
Lemma fs_hashtable_insert_then_iterate_witness :
  let t := {| buckets := [[]; []; []]; bucket_count := 3; element_count := 0 |} in
  hashtable_initialized t
  /\ exists t', fs_hashtable_insert t 42 7 = Some t' /\ bucket_at t' 1 = [42].
Proof.
  intros t.
  assert (H : hashtable_initialized t).
  { unfold hashtable_initialized, hashtable_wf, INT_MAX. simpl. lia. }
  split; [exact H|].
  destruct (fs_hashtable_insert_then_iterate t 42 7 [(43, 4); (44, 5)] H)
    as (t' & _ & E & Hbc & Hhead & _).
  exists t'. split; [exact E|]. rewrite Hbc in Hhead. exact Hhead.
Defined.

(** ** Sort values *)

Lemma testbit_small_const (c m : Z) (f : Z -> bool) :
  0 <= c < 4294967296 ->
  (forall k : nat, (k < 32)%nat -> Z.testbit c (Z.of_nat k) = f (Z.of_nat k)) ->
  (forall m, 32 <= m -> f m = false) ->
  0 <= m -> Z.testbit c m = f m.
Proof.
  intros Hc Hlow Hhigh Hm. destruct (Z.ltb_spec m 32) as [Hlt|Hge].
  - rewrite <- (Z2Nat.id m Hm). apply Hlow. lia.
  - rewrite (Hhigh m Hge). destruct (Z.eq_dec c 0) as [->|Hne].
    + apply Z.bits_0.
    + apply Z.bits_above_log2; [lia|].
      assert (Z.log2 c < 32); [|lia].
      apply Z.log2_lt_pow2; lia.
Qed.

Ltac first_32_bits :=
  let k := fresh "k" in
  intros k ?; do 32 (destruct k as [|k]; [reflexivity|]); lia.

Lemma testbit_mask_odd_bytes (m : Z) :
  0 <= m ->
  Z.testbit 4278255360 m = ((8 <=? m) && (m <? 16)) || ((24 <=? m) && (m <? 32)).
Proof.
  apply (testbit_small_const 4278255360 m
           (fun m => ((8 <=? m) && (m <? 16)) || ((24 <=? m) && (m <? 32)))).
  - lia.
  - first_32_bits.
  - intros n Hn. lia.
Qed.

Lemma testbit_mask_even_bytes (m : Z) :
  0 <= m ->
  Z.testbit 16711935 m = (m <? 8) || ((16 <=? m) && (m <? 24)).
Proof.
  apply (testbit_small_const 16711935 m
           (fun m => (m <? 8) || ((16 <=? m) && (m <? 24)))).
  - lia.
  - first_32_bits.
  - intros n Hn. lia.
Qed.

Lemma testbit_u32 (x m : Z) :
  0 <= m -> Z.testbit (u32 x) m = (m <? 32) && Z.testbit x m.
Proof.
  intros Hm. unfold u32. change 4294967296 with (2 ^ 32).
  apply Z.testbit_mod_pow2. lia.
Qed.

Lemma testbit_255 (m : Z) : 0 <= m -> Z.testbit 255 m = (m <? 8).
Proof.
  intros Hm. change 255 with (Z.ones 8).
  destruct (Z.ltb_spec m 8).
  - apply Z.ones_spec_low. lia.
  - apply Z.ones_spec_high. lia.
Qed.

(** Settles the comparisons of the goal that the hypotheses decide. *)
Ltac decide_comparisons :=
  repeat match goal with
         | |- context [?a <? ?b] =>
             first [ replace (a <? b) with true by lia
                   | replace (a <? b) with false by lia ]
         | |- context [?a <=? ?b] =>
             first [ replace (a <=? b) with true by lia
                   | replace (a <=? b) with false by lia ]
         end.

Lemma byte_ranges (m : Z) :
  0 <= m ->
  m < 8 \/ 8 <= m < 16 \/ 16 <= m < 24 \/ 24 <= m < 32 \/ 32 <= m.
Proof. lia. Qed.

Lemma testbit_above_u32 (v m : Z) :
  0 <= v <= UINT_MAX -> 32 <= m -> Z.testbit v m = false.
Proof.
  intros Hv Hm. destruct (Z.eq_dec v 0) as [->|Hne]; [apply Z.bits_0|].
  apply Z.bits_above_log2; [lia|].
  assert (Z.log2 v < 32); [|lia].
  apply Z.log2_lt_pow2; unfold UINT_MAX in *; lia.
Qed.

(** Bit [m] of the value after the first statement of the swap. *)
Lemma testbit_swap_step1 (v m : Z) :
  0 <= v <= UINT_MAX -> 0 <= m ->
  Z.testbit (Z.lor (Z.land (u32 (Z.shiftl v 8)) 4278255360)
                   (Z.land (Z.shiftr v 8) 16711935)) m =
  if (m <? 8) || ((16 <=? m) && (m <? 24)) then Z.testbit v (m + 8)
  else if ((8 <=? m) && (m <? 16)) || ((24 <=? m) && (m <? 32)) then Z.testbit v (m - 8)
  else false.
Proof.
  intros Hv Hm.
  rewrite Z.lor_spec, !Z.land_spec, testbit_u32, Z.shiftl_spec, Z.shiftr_spec by lia.
  rewrite testbit_mask_odd_bytes, testbit_mask_even_bytes by lia.
  destruct (byte_ranges m Hm) as [H|[H|[H|[H|H]]]]; decide_comparisons; simpl;
    rewrite ?andb_false_r, ?orb_false_r, ?andb_true_r; reflexivity.
Qed.

(** Bit [m] of the swapped value: byte [k] holds byte [3-k] of [v]. *)
Lemma testbit_swap_bytes (v m : Z) :
  0 <= v <= UINT_MAX -> 0 <= m ->
  Z.testbit (swap_bytes v) m =
  if m <? 8 then Z.testbit v (m + 24)
  else if m <? 16 then Z.testbit v (m + 8)
  else if m <? 24 then Z.testbit v (m - 8)
  else if m <? 32 then Z.testbit v (m - 24)
  else false.
Proof.
  intros Hv Hm. unfold swap_bytes. cbv zeta.
  rewrite Z.lor_spec, testbit_u32, Z.shiftl_spec, Z.shiftr_spec by lia.
  rewrite (testbit_swap_step1 v (m + 16)) by lia.
  destruct (Z.ltb_spec m 16) as [H16|H16].
  - rewrite (Z.testbit_neg_r _ (m - 16)) by lia. rewrite andb_false_r, orb_false_l.
    destruct (byte_ranges m Hm) as [H|[H|[H|[H|H]]]]; try lia;
      decide_comparisons; simpl; f_equal; lia.
  - rewrite (testbit_swap_step1 v (m - 16)) by lia.
    destruct (byte_ranges m Hm) as [H|[H|[H|[H|H]]]]; try lia;
      decide_comparisons; simpl; rewrite ?orb_false_r;
      rewrite ?(testbit_above_u32 v (m + 16 - 8)) by lia;
      rewrite ?(testbit_above_u32 v (m + 16 + 8)) by lia;
      rewrite ?orb_false_r; try reflexivity; f_equal; lia.
Qed.

Lemma swap_bytes_byte (v k : Z) :
  0 <= v <= UINT_MAX -> k = 0 \/ k = 8 \/ k = 16 \/ k = 24 ->
  Z.land (Z.shiftr (swap_bytes v) k) 255 = Z.land (Z.shiftr v (24 - k)) 255.
Proof.
  intros Hv Hk. apply Z.bits_inj'. intros n Hn.
  rewrite !Z.land_spec, !Z.shiftr_spec, testbit_255 by lia.
  destruct (Z.ltb_spec n 8) as [H8|H8]; [|rewrite !andb_false_r; reflexivity].
  rewrite !andb_true_r, testbit_swap_bytes by lia.
  destruct Hk as [->|[->|[->| ->]]]; decide_comparisons; f_equal; lia.
Qed.

(** On a little-endian host the swapped value is laid out in memory as the
    big-endian bytes of the value; on a big-endian host the value itself is. *)
Lemma u32_bytes_swapped (v : Z) :
  0 <= v <= UINT_MAX -> u32_bytes true (swap_bytes v) = big_endian_bytes v.
Proof.
  intros Hv. unfold u32_bytes, big_endian_bytes.
  rewrite <- (Z.shiftr_0_r (swap_bytes v)) at 1.
  rewrite !swap_bytes_byte by (auto; lia). simpl Z.sub.
  rewrite Z.shiftr_0_r. reflexivity.
Qed.

Lemma u32_bytes_big (v : Z) : u32_bytes false v = big_endian_bytes v.
Proof. reflexivity. Qed.

(** Storing bytes inside a buffer replaces that stretch of it. *)
Lemma store_bytes_spec (bytes buffer : list Z) (pos : nat) :
  (pos + length bytes <= length buffer)%nat ->
  store_bytes buffer pos bytes =
  take pos buffer ++ bytes ++ drop (pos + length bytes) buffer.
Proof.
  revert buffer pos. induction bytes as [|b bytes IH]; intros buffer pos Hlen.
  - simpl. rewrite Nat.add_0_r, take_drop. reflexivity.
  - simpl in *. rewrite IH by (rewrite length_insert; lia).
    rewrite drop_insert_lt by lia.
    rewrite (take_S_r (<[pos:=b]> buffer) pos b)
      by (apply list_lookup_insert_eq; lia).
    rewrite take_insert_ge by lia.
    rewrite <- app_assoc. simpl.
    replace (S (pos + length bytes))%nat with (pos + S (length bytes))%nat by lia.
    reflexivity.
Qed.

(** With four bytes of room, [fs_write_sort_value] stores the big-endian
    bytes of the value at the position and advances by four. *)
Lemma fs_write_sort_value_room (little_endian : bool) (v : Z) (out : fsc_stream_t) :
  0 <= v <= UINT_MAX -> stream_ok out -> position out + 3 < size out ->
  fs_write_sort_value little_endian v out =
  {| data := take (Z.to_nat (position out)) (data out) ++ big_endian_bytes v ++
             drop (Z.to_nat (position out) + 4) (data out);
     position := position out + 4;
     size := size out;
     overflowed := overflowed out |}.
Proof.
  intros Hv (Hp & Hs & Hl) Hroom. unfold fs_write_sort_value. cbv zeta.
  rewrite (u32_small (position out + 3)), (u32_small (position out + 4))
    by (unfold UINT_MAX in *; lia).
  destruct (Z.ltb_spec (position out + 3) (size out)) as [_|?]; [|lia].
  assert (Hb : u32_bytes little_endian
                 (if negb (default 0 (u32_bytes little_endian 1 !! 0%nat) =? 0)
                  then swap_bytes v else v) = big_endian_bytes v).
  { destruct little_endian; simpl negb; cbv iota.
    - apply u32_bytes_swapped. exact Hv.
    - apply u32_bytes_big. }
  unfold swap_bytes in Hb. cbv zeta in Hb. rewrite Hb.
  rewrite store_bytes_spec by (simpl; lia). reflexivity.
Qed.

Lemma fs_write_sort_value_no_room (little_endian : bool) (v : Z) (out : fsc_stream_t) :
  stream_ok out -> size out <= position out + 3 <= UINT_MAX ->
  fs_write_sort_value little_endian v out = out.
Proof.
  intros (Hp & Hs & Hl) Hroom. unfold fs_write_sort_value. cbv zeta.
  rewrite u32_small by lia.
  destruct (Z.ltb_spec (position out + 3) (size out)); [lia | reflexivity].
Qed.

Lemma stream_field_written (pre bytes post : list Z) (pos : Z) (n : nat) :
  Z.to_nat pos = length pre -> n = length bytes ->
  take n (drop (Z.to_nat pos) (pre ++ bytes ++ post)) = bytes.
Proof.
  intros -> ->. rewrite drop_app_length, take_app_length. reflexivity.
Qed.

(** The big-endian layout orders the fields like the values. *)
Lemma big_endian_bytes_order (a b : Z) :
  0 <= a -> a < b -> b <= UINT_MAX ->
  fsc_memcmp (big_endian_bytes a) (big_endian_bytes b) 4 < 0.
Proof.
  intros Ha Hab Hb. unfold big_endian_bytes, UINT_MAX in *.
  change 255 with (Z.ones 8). rewrite !Z.land_ones, !Z.shiftr_div_pow2 by lia.
  change (2 ^ 8) with 256. change (2 ^ 16) with 65536. change (2 ^ 24) with 16777216.
  pose proof (Z.div_mod a 256 ltac:(lia)) as Ea0.
  pose proof (Z.div_mod (a / 256) 256 ltac:(lia)) as Ea1.
  pose proof (Z.div_mod (a / 65536) 256 ltac:(lia)) as Ea2.
  pose proof (Z.div_mod (a / 16777216) 256 ltac:(lia)) as Ea3.
  pose proof (Z.div_mod b 256 ltac:(lia)) as Eb0.
  pose proof (Z.div_mod (b / 256) 256 ltac:(lia)) as Eb1.
  pose proof (Z.div_mod (b / 65536) 256 ltac:(lia)) as Eb2.
  pose proof (Z.div_mod (b / 16777216) 256 ltac:(lia)) as Eb3.
  rewrite !Z.div_div in * by lia.
  change (256 * 256) with 65536 in *. change (65536 * 256) with 16777216 in *.
  change (16777216 * 256) with 4294967296 in *.
  rewrite (Z.div_small a 4294967296) in Ea3 by lia.
  rewrite (Z.div_small b 4294967296) in Eb3 by lia.
  pose proof (Z.mod_pos_bound a 256 ltac:(lia)).
  pose proof (Z.mod_pos_bound (a / 256) 256 ltac:(lia)).
  pose proof (Z.mod_pos_bound (a / 65536) 256 ltac:(lia)).
  pose proof (Z.mod_pos_bound (a / 16777216) 256 ltac:(lia)).
  pose proof (Z.mod_pos_bound b 256 ltac:(lia)).
  pose proof (Z.mod_pos_bound (b / 256) 256 ltac:(lia)).
  pose proof (Z.mod_pos_bound (b / 65536) 256 ltac:(lia)).
  pose proof (Z.mod_pos_bound (b / 16777216) 256 ltac:(lia)).
  simpl fsc_memcmp.
  repeat match goal with
         | |- context [?x =? ?y] => destruct (Z.eqb_spec x y)
         end; lia.
Qed.

(** C2, as the code has it.  When the buffer has four bytes of room
    ([position + 3 < size]), [fs_write_sort_value] appends exactly four bytes,
    the big-endian bytes of the value, whatever the byte order of the host,
    and leaves what was written before; so for 32-bit values [a < b] the field
    written for [a] compares strictly below the field written for [b] under
    byte-wise comparison, also between hosts of different byte order.  When
    fewer than four bytes are left it appends nothing. *)
Theorem fs_write_sort_value_big_endian_when_room (little_endian : bool) (a : Z)
  (out : fsc_stream_t) :
  0 <= a <= UINT_MAX -> stream_ok out ->
  (position out + 3 < size out ->
     let out' := fs_write_sort_value little_endian a out in
     position out' = position out + 4
     /\ size out' = size out
     /\ stream_field out' (position out) 4 = big_endian_bytes a
     /\ take (Z.to_nat (position out)) (data out')
        = take (Z.to_nat (position out)) (data out)
     /\ (forall (little_endian2 : bool) (b : Z) (out2 : fsc_stream_t),
           a < b <= UINT_MAX -> stream_ok out2 -> position out2 + 3 < size out2 ->
           fsc_memcmp (stream_field out' (position out) 4)
                      (stream_field (fs_write_sort_value little_endian2 b out2)
                                    (position out2) 4) 4 < 0))
  /\ (size out <= position out + 3 <= UINT_MAX ->
      fs_write_sort_value little_endian a out = out).
Proof.
  intros Ha Hok. split; [|apply fs_write_sort_value_no_room; exact Hok].
  intros Hroom out'. subst out'.
  assert (Hfield : forall le v o, 0 <= v <= UINT_MAX -> stream_ok o ->
                     position o + 3 < size o ->
                     stream_field (fs_write_sort_value le v o) (position o) 4
                     = big_endian_bytes v).
  { intros le v o Hv Ho Hr. rewrite fs_write_sort_value_room by assumption.
    unfold stream_field. cbn [data]. apply stream_field_written.
    - destruct Ho as (Hp & Hs & Hl). rewrite length_take. lia.
    - reflexivity. }
  rewrite Hfield by assumption.
  rewrite fs_write_sort_value_room by assumption. cbn [position size data].
  split; [reflexivity|]. split; [reflexivity|]. split; [reflexivity|]. split.
  - destruct Hok as (Hp & Hs & Hl). rewrite take_app_length'; [reflexivity|].
    rewrite length_take. lia.
  - intros le2 b out2 Hb Hok2 Hroom2. rewrite Hfield by (assumption || lia).
    apply big_endian_bytes_order; lia.
Qed.

(** An instance: a little-endian host, the value 1, an empty buffer of six
    bytes. *)
Lemma fs_write_sort_value_big_endian_when_room_witness :
  stream_ok (stream_init [0; 0; 0; 0; 0; 0])
  /\ stream_field (fs_write_sort_value true 1 (stream_init [0; 0; 0; 0; 0; 0])) 0 4
     = [0; 0; 0; 1].
Proof.
  assert (Hok : stream_ok (stream_init [0; 0; 0; 0; 0; 0])).
  { unfold stream_ok, UINT_MAX. simpl. lia. }
  split; [exact Hok|].
  destruct (fs_write_sort_value_big_endian_when_room true 1
              (stream_init [0; 0; 0; 0; 0; 0])) as [Hroom _].
  - unfold UINT_MAX. lia.
  - exact Hok.
  - destruct Hroom as (_ & _ & Hf & _); [simpl; lia | exact Hf].
Defined.

(** Without room nothing is appended: after one value in a
    buffer of six bytes, a second call appends nothing. *)
Lemma fs_write_sort_value_full_buffer :
  let out := fs_write_sort_value true 1 (stream_init [0; 0; 0; 0; 0; 0]) in
  position out = 4
  /\ fs_write_sort_value true 2 out = out
  /\ position (fs_write_sort_value true 2 out) <> position out + 4.
Proof. vm_compute. repeat split; congruence. Qed.

(** ** Sort strings *)

(** A second call finds the table filled and leaves it as it is. *)
Lemma get_string_sort_table_again :
  get_string_sort_table string_sort_table = string_sort_table.
Proof. vm_compute. reflexivity. Qed.

Lemma get_string_sort_table_reachable (table : list Z) :
  sort_table_reachable table -> get_string_sort_table table = string_sort_table.
Proof.
  intros [-> | ->]; [reflexivity | apply get_string_sort_table_again].
Qed.

(** Every byte value has a rank between 21 and 250: no rank is a terminator. *)
Lemma string_sort_table_range (c : ascii) :
  21 <= table_at string_sort_table (char_code c) <= 250.
Proof.
  assert (H : Forall (fun x => 21 <= x <= 250) string_sort_table).
  { apply Forall_forall. intros x Hx.
    assert (Hb : forallb (fun x => (21 <=? x) && (x <=? 250)) string_sort_table = true)
      by (vm_compute; reflexivity).
    rewrite forallb_forall in Hb. apply list_elem_of_In in Hx.
    specialize (Hb x Hx). lia. }
  unfold table_at, char_code.
  assert (Hlt : (Z.to_nat (Z.of_N (N_of_ascii c)) < length string_sort_table)%nat).
  { pose proof (N_ascii_bounded c). replace (length string_sort_table) with 256%nat
      by (vm_compute; reflexivity). lia. }
  destruct (lookup_lt_is_Some_2 _ _ Hlt) as [x Ex]. rewrite Ex. simpl.
  rewrite Forall_forall in H. apply H. apply list_elem_of_lookup. eauto.
Qed.

Lemma stream_put_ok (out : fsc_stream_t) (b : Z) :
  stream_ok out -> position out < size out ->
  stream_put out b =
  {| data := take (Z.to_nat (position out)) (data out) ++ [b] ++
             drop (Z.to_nat (position out) + 1) (data out);
     position := position out + 1;
     size := size out;
     overflowed := overflowed out |}
  /\ stream_ok (stream_put out b).
Proof.
  intros (Hp & Hs & Hl) Hroom. unfold stream_put.
  rewrite u32_small by lia.
  rewrite insert_take_drop by lia.
  replace (S (Z.to_nat (position out))) with (Z.to_nat (position out) + 1)%nat by lia.
  split; [reflexivity|].
  unfold stream_ok. cbn [position size data].
  rewrite length_app, length_take. simpl length. rewrite length_drop. lia.
Qed.

(** The characters of a C string that fits are all written, in order. *)
Lemma write_sort_chars_fits (sort_table : list Z) (s : string) (out : fsc_stream_t) :
  c_string s -> stream_ok out -> position out + string_length s <= size out ->
  write_sort_chars sort_table s out =
  {| data := take (Z.to_nat (position out)) (data out) ++
             sort_string_bytes sort_table s ++
             drop (Z.to_nat (position out) + String.length s) (data out);
     position := position out + string_length s;
     size := size out;
     overflowed := overflowed out |}
  /\ stream_ok (write_sort_chars sort_table s out).
Proof.
  revert out. induction s as [|c s IH]; intros out Hc Hok Hroom.
  - simpl. unfold string_length. simpl. rewrite Nat.add_0_r, Z.add_0_r, take_drop.
    destruct out; split; [reflexivity | exact Hok].
  - destruct Hc as [Hc Hs]. unfold string_length in *. simpl String.length in *.
    simpl write_sort_chars.
    destruct (Z.eqb_spec (char_code c) 0) as [?|_]; [contradiction|].
    destruct (Z.ltb_spec (position out) (size out)) as [Hlt|?]; [|lia].
    destruct (stream_put_ok out (table_at sort_table (char_code c)) Hok Hlt)
      as [Eput Hok'].
    assert (Hpos : position (stream_put out (table_at sort_table (char_code c)))
                   = position out + 1) by (rewrite Eput; reflexivity).
    assert (Hsize : size (stream_put out (table_at sort_table (char_code c)))
                    = size out) by (rewrite Eput; reflexivity).
    destruct (IH _ Hs Hok' ltac:(lia)) as [E Hok2].
    split; [|exact Hok2].
    rewrite E, Hpos, Hsize. rewrite Eput. cbn [data overflowed].
    destruct Hok as (Hp & Hsz & Hl).
    f_equal; [|lia].
    replace (Z.to_nat (position out + 1)) with (S (Z.to_nat (position out))) by lia.
    rewrite (app_assoc _ [_]).
    rewrite take_app_length' by (rewrite length_app, length_take; simpl; lia).
    rewrite drop_app_ge by (rewrite length_app, length_take; simpl; lia).
    rewrite length_app, length_take. simpl length.
    rewrite drop_drop. rewrite <- app_assoc. simpl.
    do 4 f_equal. lia.
Qed.

(** Writing never touches the bytes before the position, never moves the
    position back, and keeps the stream within its buffer. *)
Lemma write_sort_chars_preserves (sort_table : list Z) (s : string) (out : fsc_stream_t) :
  stream_ok out ->
  stream_ok (write_sort_chars sort_table s out)
  /\ position out <= position (write_sort_chars sort_table s out)
  /\ size (write_sort_chars sort_table s out) = size out
  /\ take (Z.to_nat (position out)) (data (write_sort_chars sort_table s out))
     = take (Z.to_nat (position out)) (data out).
Proof.
  revert out. induction s as [|c s IH]; intros out Hok; simpl.
  - repeat split; try apply Hok; lia.
  - destruct (char_code c =? 0); [repeat split; try apply Hok; lia|].
    destruct (Z.ltb_spec (position out) (size out)) as [Hlt|?];
      [|repeat split; try apply Hok; lia].
    destruct (stream_put_ok out (table_at sort_table (char_code c)) Hok Hlt)
      as [Eput Hok'].
    destruct (IH _ Hok') as (H1 & H2 & H3 & H4).
    rewrite Eput in H2, H3, H4. cbn [position size data] in H2, H3, H4.
    rewrite Eput. split; [rewrite <- Eput; exact H1|].
    split; [lia|]. split; [exact H3|].
    destruct Hok as (Hp & Hsz & Hl).
    apply (f_equal (take (Z.to_nat (position out)))) in H4.
    rewrite !take_take in H4.
    replace (Z.to_nat (position out) `min` Z.to_nat (position out + 1))%nat
      with (Z.to_nat (position out)) in H4 by lia.
    rewrite H4. rewrite take_app_length'; [reflexivity|].
    rewrite length_take. lia.
Qed.

(** A string that does not fit fills the buffer: no byte is left for a
    terminator. *)
Lemma write_sort_chars_fills (sort_table : list Z) (s : string) (out : fsc_stream_t) :
  c_string s -> stream_ok out -> size out <= position out + string_length s ->
  position (write_sort_chars sort_table s out) = size out.
Proof.
  revert out. unfold string_length.
  induction s as [|c s IH]; intros out Hc Hok Hroom; simpl in *.
  - destruct Hok as (Hp & _). lia.
  - destruct Hc as [Hc Hs].
    destruct (Z.eqb_spec (char_code c) 0) as [?|_]; [contradiction|].
    destruct (Z.ltb_spec (position out) (size out)) as [Hlt|?];
      [|destruct Hok as (Hp & _); lia].
    destruct (stream_put_ok out (table_at sort_table (char_code c)) Hok Hlt)
      as [Eput Hok'].
    rewrite (IH _ Hs Hok'); rewrite Eput; cbn [position size]; [reflexivity | lia].
Qed.

Lemma write_sort_chars_app (sort_table : list Z) (s1 s2 : string) (out : fsc_stream_t) :
  c_string s1 -> stream_ok out -> position out + string_length s1 <= size out ->
  write_sort_chars sort_table (s1 ++ s2) out =
  write_sort_chars sort_table s2 (write_sort_chars sort_table s1 out).
Proof.
  revert out. unfold string_length.
  induction s1 as [|c s1 IH]; intros out Hc Hok Hroom; simpl in *; [reflexivity|].
  destruct Hc as [Hc Hs].
  destruct (Z.eqb_spec (char_code c) 0) as [?|_]; [contradiction|].
  destruct (Z.ltb_spec (position out) (size out)) as [Hlt|?]; [|lia].
  destruct (stream_put_ok out (table_at sort_table (char_code c)) Hok Hlt)
    as [Eput Hok'].
  apply IH; [exact Hs | exact Hok' |]. rewrite Eput. cbn [position size]. lia.
Qed.

Lemma length_sort_string_bytes_aux (s : string) (sort_table : list Z) :
  length (sort_string_bytes sort_table s) = String.length s.
Proof. induction s as [|c s IH]; simpl; [reflexivity | rewrite IH; reflexivity]. Qed.

(** A C string that leaves room for the terminator: the key is the ranks of
    its characters and the terminator. *)
Lemma fs_write_sort_string_fits (table : list Z) (s : string) (out : fsc_stream_t)
  (prioritize_shorter : bool) :
  sort_table_reachable table -> c_string s -> stream_ok out ->
  position out + string_length s < size out ->
  fs_write_sort_string table s out prioritize_shorter =
  ({| data := take (Z.to_nat (position out)) (data out) ++
              (sort_string_bytes string_sort_table s
                 ++ [sort_terminator prioritize_shorter]) ++
              drop (Z.to_nat (position out) + String.length s + 1) (data out);
      position := position out + string_length s + 1;
      size := size out;
      overflowed := overflowed out |},
   string_sort_table).
Proof.
  intros Ht Hc Hok Hroom. unfold fs_write_sort_string. cbv zeta.
  rewrite (get_string_sort_table_reachable table Ht).
  destruct (write_sort_chars_fits string_sort_table s out Hc Hok ltac:(lia))
    as [E Hok1].
  f_equal.
  assert (Hlt : position (write_sort_chars string_sort_table s out)
                < size (write_sort_chars string_sort_table s out)).
  { rewrite E. cbn [position size]. lia. }
  destruct (Z.ltb_spec (position (write_sort_chars string_sort_table s out))
                       (size (write_sort_chars string_sort_table s out))); [|lia].
  destruct (stream_put_ok _ (if prioritize_shorter then 255 else 0) Hok1 Hlt)
    as [Eput _].
  rewrite Eput, E. cbn [position size data overflowed].
  destruct Hok as (Hp & Hsz & Hl). unfold string_length in *.
  f_equal.
  replace (Z.to_nat (position out + Z.of_nat (String.length s)))
    with (Z.to_nat (position out) + String.length s)%nat by lia.
  set (pre := take (Z.to_nat (position out)) (data out)).
  set (bytes := sort_string_bytes string_sort_table s).
  assert (Hpre : (Z.to_nat (position out) + String.length s)%nat = length (pre ++ bytes)).
  { subst pre bytes. rewrite length_app, length_take, length_sort_string_bytes_aux. lia. }
  rewrite !(app_assoc pre bytes).
  rewrite take_app_length' by exact Hpre.
  rewrite drop_app_add' by exact Hpre.
  rewrite drop_drop. rewrite <- !app_assoc. unfold sort_terminator. simpl.
  reflexivity.
Qed.

Lemma fsc_memcmp_first_difference (p a b : list Z) (x y : Z) (n : nat) :
  x <> y -> (length p < n)%nat ->
  fsc_memcmp (p ++ x :: a) (p ++ y :: b) n = x - y.
Proof.
  revert n. induction p as [|z p IH]; intros n Hne Hn.
  - destruct n as [|n]; [simpl in Hn; lia|]. simpl.
    destruct (Z.eqb_spec x y); [contradiction | reflexivity].
  - destruct n as [|n]; [simpl in Hn; lia|]. simpl. rewrite Z.eqb_refl.
    apply IH; [exact Hne | simpl in Hn; lia].
Qed.

Lemma split_at_take (d p : list Z) (x : Z) (k : nat) :
  take (S k) d = p ++ [x] -> d = p ++ x :: drop (S k) d.
Proof.
  intros H. rewrite <- (take_drop (S k) d) at 1. rewrite H, <- app_assoc. reflexivity.
Qed.

Lemma stream_put_preserves (out : fsc_stream_t) (b : Z) (n : nat) :
  stream_ok out -> position out < size out -> (n <= Z.to_nat (position out))%nat ->
  take n (data (stream_put out b)) = take n (data out).
Proof.
  intros Hok Hlt Hn. destruct (stream_put_ok out b Hok Hlt) as [E _].
  rewrite E. cbn [data]. destruct Hok as (Hp & Hs & Hl).
  rewrite take_app_le by (rewrite length_take; lia).
  rewrite take_take. f_equal. lia.
Qed.

(** The key of a longer string: after the ranks of the characters of [s]
    comes the rank of the next character. *)
Lemma fs_write_sort_string_longer (table : list Z) (s : string) (c : ascii)
  (rest : string) (out : fsc_stream_t) (prioritize_shorter : bool) :
  sort_table_reachable table -> c_string s -> char_code c <> 0 ->
  stream_ok out -> position out + string_length s < size out ->
  let key := fst (fs_write_sort_string table (s ++ String c rest) out
                                       prioritize_shorter) in
  position out + string_length s + 1 <= position key
  /\ take (Z.to_nat (position out) + String.length s + 1) (data key)
     = take (Z.to_nat (position out)) (data out) ++
       sort_string_bytes string_sort_table s ++
       [table_at string_sort_table (char_code c)].
Proof.
  intros Ht Hc Hcc Hok Hroom key. subst key.
  unfold fs_write_sort_string. cbv zeta. cbn [fst].
  rewrite (get_string_sort_table_reachable table Ht).
  rewrite write_sort_chars_app by (assumption || lia).
  destruct (write_sort_chars_fits string_sort_table s out Hc Hok ltac:(lia))
    as [Es Hoks].
  set (o_s := write_sort_chars string_sort_table s out) in *.
  assert (Hpos_s : position o_s = position out + string_length s)
    by (rewrite Es; reflexivity).
  assert (Hsize_s : size o_s = size out) by (rewrite Es; reflexivity).
  simpl write_sort_chars.
  destruct (Z.eqb_spec (char_code c) 0) as [?|_]; [contradiction|].
  destruct (Z.ltb_spec (position o_s) (size o_s)) as [Hlt|?]; [|lia].
  destruct (stream_put_ok o_s (table_at string_sort_table (char_code c)) Hoks Hlt)
    as [Eput Hokc].
  set (o_c := stream_put o_s (table_at string_sort_table (char_code c))) in *.
  assert (Hpos_c : position o_c = position out + string_length s + 1)
    by (rewrite Eput, Hpos_s; reflexivity).
  assert (Hdata_c : take (Z.to_nat (position out) + String.length s + 1) (data o_c)
                    = take (Z.to_nat (position out)) (data out) ++
                      sort_string_bytes string_sort_table s ++
                      [table_at string_sort_table (char_code c)]).
  { rewrite Eput. cbn [data]. rewrite Hpos_s. rewrite Es. cbn [data].
    destruct Hok as (Hp & Hsz & Hl). unfold string_length in *.
    set (pre := take (Z.to_nat (position out)) (data out)).
    set (bytes := sort_string_bytes string_sort_table s).
    assert (Hpre : (Z.to_nat (position out) + String.length s)%nat
                   = length (pre ++ bytes)).
    { subst pre bytes. rewrite length_app, length_take, length_sort_string_bytes_aux.
      lia. }
    replace (Z.to_nat (position out + Z.of_nat (String.length s)))
      with (Z.to_nat (position out) + String.length s)%nat by lia.
    rewrite !(app_assoc pre bytes).
    rewrite (take_app_length' (pre ++ bytes)) by exact Hpre.
    rewrite (app_assoc (pre ++ bytes)).
    rewrite take_app_length'; [rewrite <- app_assoc; reflexivity|].
    rewrite length_app. simpl. lia. }
  destruct (write_sort_chars_preserves string_sort_table rest o_c Hokc)
    as (Hok1 & Hle1 & Hsz1 & Htake1).
  set (o_1 := write_sort_chars string_sort_table rest o_c) in *.
  assert (Hn : (Z.to_nat (position out) + String.length s + 1)%nat
               = Z.to_nat (position o_c)).
  { rewrite Hpos_c. unfold string_length. destruct Hok as (Hp & _). lia. }
  assert (Hdata_1 : take (Z.to_nat (position out) + String.length s + 1) (data o_1)
                    = take (Z.to_nat (position out) + String.length s + 1) (data o_c)).
  { rewrite Hn. exact Htake1. }
  destruct (Z.ltb_spec (position o_1) (size o_1)) as [Hlt1|Hge1].
  - destruct (stream_put_ok o_1 (if prioritize_shorter then 255 else 0) Hok1 Hlt1)
      as [Eput1 _].
    split.
    + rewrite Eput1. cbn [position]. lia.
    + rewrite stream_put_preserves by (assumption || lia).
      rewrite Hdata_1. exact Hdata_c.
  - split; [lia|]. rewrite Hdata_1. exact Hdata_c.
Qed.

Lemma stream_init_ok (buffer : list Z) :
  Z.of_nat (length buffer) <= UINT_MAX -> stream_ok (stream_init buffer).
Proof. intros H. unfold stream_ok, stream_init. simpl. lia. Qed.

(** The two keys of a string and of a longer string that starts with it
    first differ where the terminator of the shorter one stands. *)
Lemma prefix_keys_compare (table : list Z) (s : string) (c : ascii) (rest : string)
  (buffer1 buffer2 : list Z) (prioritize_shorter : bool) :
  sort_table_reachable table -> c_string s -> char_code c <> 0 ->
  Z.of_nat (length buffer1) <= UINT_MAX -> Z.of_nat (length buffer2) <= UINT_MAX ->
  string_length s < Z.of_nat (length buffer1) ->
  string_length s < Z.of_nat (length buffer2) ->
  let key_s := fst (fs_write_sort_string table s (stream_init buffer1)
                                         prioritize_shorter) in
  let key_t := fst (fs_write_sort_string table (s ++ String c rest)
                                         (stream_init buffer2) prioritize_shorter) in
  compare_sort_streams key_s key_t
  = table_at string_sort_table (char_code c) - sort_terminator prioritize_shorter
  /\ compare_sort_streams key_t key_s
     = sort_terminator prioritize_shorter - table_at string_sort_table (char_code c).
Proof.
  intros Ht Hc Hcc Hb1 Hb2 Hr1 Hr2 key_s key_t.
  pose proof (stream_init_ok buffer1 Hb1) as Hok1.
  pose proof (stream_init_ok buffer2 Hb2) as Hok2.
  pose proof (fs_write_sort_string_fits table s (stream_init buffer1)
                prioritize_shorter Ht Hc Hok1 Hr1) as Es.
  destruct (fs_write_sort_string_longer table s c rest (stream_init buffer2)
              prioritize_shorter Ht Hc Hcc Hok2 Hr2) as [Hpos_t Hdata_t].
  fold key_t in Hpos_t, Hdata_t.
  assert (Eks : key_s = fst (fs_write_sort_string table s (stream_init buffer1)
                                                  prioritize_shorter)) by reflexivity.
  rewrite Es in Eks. cbn [fst] in Eks.
  cbn [stream_init position data size] in Eks, Hpos_t, Hdata_t.
  simpl Z.to_nat in Eks, Hdata_t. rewrite take_0 in Eks, Hdata_t.
  simpl app in Eks, Hdata_t. simpl Nat.add in Eks, Hdata_t.
  replace (String.length s + 1)%nat with (S (String.length s)) in Hdata_t by lia.
  apply split_at_take in Hdata_t.
  assert (Hds : data key_s = sort_string_bytes string_sort_table s ++
                  sort_terminator prioritize_shorter ::
                  drop (String.length s + 1) buffer1).
  { rewrite Eks. cbn [data]. rewrite <- app_assoc. reflexivity. }
  assert (Hps : position key_s = string_length s + 1) by (rewrite Eks; reflexivity).
  pose proof (string_sort_table_range c) as Hrange.
  assert (Hne : table_at string_sort_table (char_code c)
                <> sort_terminator prioritize_shorter)
    by (unfold sort_terminator; destruct prioritize_shorter; lia).
  unfold compare_sort_streams. rewrite Hps, Hds, Hdata_t.
  unfold string_length in *.
  split; rewrite fsc_memcmp_first_difference;
    try reflexivity; try congruence;
    rewrite length_sort_string_bytes_aux;
    destruct (Z.ltb_spec (Z.of_nat (String.length s) + 1) (position key_t));
    destruct (Z.ltb_spec (position key_t) (Z.of_nat (String.length s) + 1)); lia.
Qed.

(** C5, as the code has it.  When the buffer has room for the characters of
    a string and one more byte, [fs_write_sort_string] appends the ranks of
    the characters and then the terminator, 0x00 when [prioritize_shorter] is
    false and 0xFF when it is true; so a string that is a strict prefix of
    another sorts after it under the default termination and before it when
    [prioritize_shorter] is set ("sorts before" is "takes precedence": the
    greater key).  When the characters fill the buffer, no terminator is
    written. *)
Theorem fs_write_sort_string_prefix_order (table : list Z) (s : string) (c : ascii)
  (rest : string) (buffer1 buffer2 : list Z) :
  sort_table_reachable table -> c_string s -> char_code c <> 0 ->
  Z.of_nat (length buffer1) <= UINT_MAX -> Z.of_nat (length buffer2) <= UINT_MAX ->
  let key_s prio := fst (fs_write_sort_string table s (stream_init buffer1) prio) in
  let key_t prio := fst (fs_write_sort_string table (s ++ String c rest)
                                              (stream_init buffer2) prio) in
  (string_length s < Z.of_nat (length buffer1) ->
   forall prio,
     position (key_s prio) = string_length s + 1
     /\ stream_field (key_s prio) 0 (String.length s + 1)
        = sort_string_bytes string_sort_table s ++ [sort_terminator prio])
  /\ (string_length s < Z.of_nat (length buffer1) ->
      string_length s < Z.of_nat (length buffer2) ->
      sorts_before (key_t false) (key_s false)
      /\ sorts_before (key_s true) (key_t true))
  /\ (Z.of_nat (length buffer1) <= string_length s ->
      forall prio,
        position (key_s prio) = Z.of_nat (length buffer1)
        /\ key_s prio = write_sort_chars string_sort_table s (stream_init buffer1)).
Proof.
  intros Ht Hc Hcc Hb1 Hb2 key_s key_t.
  pose proof (stream_init_ok buffer1 Hb1) as Hok1.
  split; [|split].
  - intros Hr1 prio. subst key_s. cbv beta.
    rewrite (fs_write_sort_string_fits table s (stream_init buffer1) prio Ht Hc Hok1 Hr1).
    cbn [fst position stream_init]. split; [reflexivity|].
    unfold stream_field. cbn [data]. simpl Z.to_nat. rewrite take_0, drop_0.
    simpl app. rewrite take_app_length'; [reflexivity|].
    rewrite length_app, length_sort_string_bytes_aux. simpl. lia.
  - intros Hr1 Hr2. pose proof (string_sort_table_range c) as Hrange.
    unfold sorts_before. subst key_s key_t. cbv beta. split.
    + destruct (prefix_keys_compare table s c rest buffer1 buffer2 false
                  Ht Hc Hcc Hb1 Hb2 Hr1 Hr2) as [_ E].
      rewrite E. unfold sort_terminator. lia.
    + destruct (prefix_keys_compare table s c rest buffer1 buffer2 true
                  Ht Hc Hcc Hb1 Hb2 Hr1 Hr2) as [E _].
      rewrite E. unfold sort_terminator. lia.
  - intros Hfull prio. subst key_s. cbv beta.
    unfold fs_write_sort_string. cbv zeta. cbn [fst].
    rewrite (get_string_sort_table_reachable table Ht).
    pose proof (write_sort_chars_fills string_sort_table s (stream_init buffer1)
                  Hc Hok1 ltac:(simpl; lia)) as Hfill.
    destruct (write_sort_chars_preserves string_sort_table s (stream_init buffer1) Hok1)
      as (_ & _ & Hsz & _).
    destruct (Z.ltb_spec (position (write_sort_chars string_sort_table s
                                                     (stream_init buffer1)))
                         (size (write_sort_chars string_sort_table s
                                                 (stream_init buffer1)))); [lia|].
    split; [exact Hfill | reflexivity].
Qed.

(** An instance: "ab" and "abc" in buffers of eight bytes. *)
Lemma fs_write_sort_string_prefix_order_witness :
  sorts_before (fst (fs_write_sort_string sort_table_zero "abc"
                       (stream_init [0; 0; 0; 0; 0; 0; 0; 0]) false))
               (fst (fs_write_sort_string sort_table_zero "ab"
                       (stream_init [0; 0; 0; 0; 0; 0; 0; 0]) false))
  /\ sorts_before (fst (fs_write_sort_string sort_table_zero "ab"
                          (stream_init [0; 0; 0; 0; 0; 0; 0; 0]) true))
                  (fst (fs_write_sort_string sort_table_zero "abc"
                          (stream_init [0; 0; 0; 0; 0; 0; 0; 0]) true)).
Proof.
  destruct (fs_write_sort_string_prefix_order sort_table_zero "ab" "c" ""
              [0; 0; 0; 0; 0; 0; 0; 0] [0; 0; 0; 0; 0; 0; 0; 0])
    as (_ & H & _).
  - left. reflexivity.
  - simpl. unfold char_code. simpl. lia.
  - unfold char_code. simpl. lia.
  - unfold UINT_MAX. simpl. lia.
  - unfold UINT_MAX. simpl. lia.
  - apply H; unfold string_length; simpl; lia.
Defined.

(** Without room there is no terminator: in a buffer of two
    bytes the keys of "ab" and "abc" are the same two bytes, no terminator is
    written, and neither key sorts before the other. *)
Lemma fs_write_sort_string_no_terminator :
  let key_ab := fst (fs_write_sort_string sort_table_zero "ab"
                                          (stream_init [0; 0]) false) in
  let key_abc := fst (fs_write_sort_string sort_table_zero "abc"
                                           (stream_init [0; 0]) false) in
  data key_ab = [225; 226] /\ position key_ab = 2
  /\ key_abc = key_ab
  /\ ~ sorts_before key_abc key_ab /\ ~ sorts_before key_ab key_abc.
Proof.
  vm_compute. repeat split; congruence.
Qed.

(** ** The collation table *)

Lemma byte_forall (P : Z -> bool) :
  forallb P (map Z.of_nat (seq 0 256)) = true ->
  forall c, 0 <= c < 256 -> P c = true.
Proof.
  intros H c Hc. rewrite forallb_forall in H. apply H.
  apply in_map_iff. exists (Z.to_nat c). split; [lia|].
  apply in_seq. lia.
Qed.

Lemma string_sort_table_collation_ranks (c : Z) :
  0 <= c < 256 -> collation_rank_ok string_sort_table c = true.
Proof.
  apply (byte_forall (collation_rank_ok string_sort_table)).
  vm_compute. reflexivity.
Qed.

Lemma sort_key_Abc (table : list Z) (buffer : list Z) :
  sort_table_reachable table -> 4 <= Z.of_nat (length buffer) <= UINT_MAX ->
  data (fst (fs_write_sort_string table "Abc" (stream_init buffer) false))
  = [225; 226; 227; 0] ++ drop 4 buffer
  /\ position (fst (fs_write_sort_string table "Abc" (stream_init buffer) false)) = 4.
Proof.
  intros Ht Hb.
  rewrite (fs_write_sort_string_fits table "Abc" (stream_init buffer) false Ht).
  - cbn [fst data position stream_init]. split; reflexivity.
  - simpl. unfold char_code. simpl. lia.
  - apply stream_init_ok. lia.
  - unfold string_length. simpl. lia.
Qed.

Lemma sort_key_abd (table : list Z) (buffer : list Z) :
  sort_table_reachable table -> 4 <= Z.of_nat (length buffer) <= UINT_MAX ->
  data (fst (fs_write_sort_string table "abd" (stream_init buffer) false))
  = [225; 226; 228; 0] ++ drop 4 buffer
  /\ position (fst (fs_write_sort_string table "abd" (stream_init buffer) false)) = 4.
Proof.
  intros Ht Hb.
  rewrite (fs_write_sort_string_fits table "abd" (stream_init buffer) false Ht).
  - cbn [fst data position stream_init]. split; reflexivity.
  - simpl. unfold char_code. simpl. lia.
  - apply stream_init_ok. lia.
  - unfold string_length. simpl. lia.
Qed.

(** C4, as the code has it.  The table [fs_write_sort_string] uses maps the
    lowercase letters and the uppercase letters in order onto the same ranks
    225..250, so that the two cases of a letter share a rank and consecutive
    letters of either case have adjacent ranks, maps the digits in order onto
    215..224, and gives every other byte value a rank from 21 to 214.  The key
    of "Abc" is byte-wise below the key of "abd", the rank of 'c' being below
    the rank of 'd'; a greater key takes precedence, so it is "abd" that
    sorts before "Abc". *)
Theorem string_sort_table_collation (table : list Z) (buffer1 buffer2 : list Z) :
  sort_table_reachable table ->
  4 <= Z.of_nat (length buffer1) <= UINT_MAX ->
  4 <= Z.of_nat (length buffer2) <= UINT_MAX ->
  let sort_table := snd (fs_write_sort_string table "Abc" (stream_init buffer1) false) in
  let key_Abc := fst (fs_write_sort_string table "Abc" (stream_init buffer1) false) in
  let key_abd := fst (fs_write_sort_string table "abd" (stream_init buffer2) false) in
  sort_table = get_string_sort_table table
  /\ (forall i, 0 <= i < 26 ->
        table_at sort_table (char_code "a" + i) = 225 + i
        /\ table_at sort_table (char_code "A" + i) = 225 + i)
  /\ (forall i, 0 <= i < 25 ->
        table_at sort_table (char_code "A" + (i + 1))
        = table_at sort_table (char_code "a" + i) + 1
        /\ table_at sort_table (char_code "a" + (i + 1))
           = table_at sort_table (char_code "A" + i) + 1)
  /\ (forall i, 0 <= i < 10 -> table_at sort_table (char_code "0" + i) = 215 + i)
  /\ (forall c, 0 <= c < 256 ->
        ~ char_code "a" <= c <= char_code "z" ->
        ~ char_code "A" <= c <= char_code "Z" ->
        ~ char_code "0" <= c <= char_code "9" ->
        21 <= table_at sort_table c <= 214)
  /\ stream_field key_Abc 0 4 = [225; 226; 227; 0]
  /\ stream_field key_abd 0 4 = [225; 226; 228; 0]
  /\ fsc_memcmp (data key_Abc) (data key_abd) 4 < 0
  /\ sorts_before key_abd key_Abc.
Proof.
  intros Ht Hb1 Hb2 sort_table key_Abc key_abd.
  assert (Et : sort_table = string_sort_table).
  { subst sort_table. unfold fs_write_sort_string. cbn [snd].
    apply get_string_sort_table_reachable. exact Ht. }
  assert (Hletters : forall i, 0 <= i < 26 ->
            table_at sort_table (char_code "a" + i) = 225 + i
            /\ table_at sort_table (char_code "A" + i) = 225 + i).
  { intros i Hi. rewrite Et.
    pose proof (string_sort_table_collation_ranks (char_code "a" + i)) as Hl.
    pose proof (string_sort_table_collation_ranks (char_code "A" + i)) as Hu.
    unfold collation_rank_ok in Hl, Hu. cbv zeta in Hl, Hu.
    change (char_code "a") with 97 in *. change (char_code "z") with 122 in *.
    change (char_code "A") with 65 in *. change (char_code "Z") with 90 in *.
    change (char_code "0") with 48 in *. change (char_code "9") with 57 in *.
    replace ((97 <=? 97 + i) && (97 + i <=? 122)) with true in Hl by lia.
    replace ((97 <=? 65 + i) && (65 + i <=? 122)) with false in Hu by lia.
    replace ((65 <=? 65 + i) && (65 + i <=? 90)) with true in Hu by lia.
    specialize (Hl ltac:(lia)). specialize (Hu ltac:(lia)). lia. }
  split.
  { rewrite Et. symmetry. apply get_string_sort_table_reachable. exact Ht. }
  split; [exact Hletters|]. split.
  { intros i Hi.
    destruct (Hletters i ltac:(lia)) as [E1 E2].
    destruct (Hletters (i + 1) ltac:(lia)) as [E3 E4]. lia. }
  split.
  { intros i Hi. rewrite Et.
    pose proof (string_sort_table_collation_ranks (char_code "0" + i)) as Hd.
    unfold collation_rank_ok in Hd. cbv zeta in Hd.
    change (char_code "a") with 97 in *. change (char_code "z") with 122 in *.
    change (char_code "A") with 65 in *. change (char_code "Z") with 90 in *.
    change (char_code "0") with 48 in *. change (char_code "9") with 57 in *.
    replace ((97 <=? 48 + i) && (48 + i <=? 122)) with false in Hd by lia.
    replace ((65 <=? 48 + i) && (48 + i <=? 90)) with false in Hd by lia.
    replace ((48 <=? 48 + i) && (48 + i <=? 57)) with true in Hd by lia.
    specialize (Hd ltac:(lia)). lia. }
  split.
  { intros c Hc Hl Hu Hd. rewrite Et.
    pose proof (string_sort_table_collation_ranks c Hc) as H.
    unfold collation_rank_ok in H. cbv zeta in H.
    replace ((char_code "a" <=? c) && (c <=? char_code "z")) with false in H by lia.
    replace ((char_code "A" <=? c) && (c <=? char_code "Z")) with false in H by lia.
    replace ((char_code "0" <=? c) && (c <=? char_code "9")) with false in H by lia.
    lia. }
  destruct (sort_key_Abc table buffer1 Ht Hb1) as [D1 P1].
  destruct (sort_key_abd table buffer2 Ht Hb2) as [D2 P2].
  fold key_Abc in D1, P1. fold key_abd in D2, P2.
  unfold stream_field, sorts_before, compare_sort_streams.
  rewrite D1, D2, P1, P2. simpl. repeat split; lia.
Qed.

(** An instance: from the zeroed table, in buffers of eight bytes. *)
Lemma string_sort_table_collation_witness :
  sort_table_reachable sort_table_zero
  /\ sorts_before
       (fst (fs_write_sort_string sort_table_zero "abd"
               (stream_init [0; 0; 0; 0; 0; 0; 0; 0]) false))
       (fst (fs_write_sort_string sort_table_zero "Abc"
               (stream_init [0; 0; 0; 0; 0; 0; 0; 0]) false)).
Proof.
  assert (Ht : sort_table_reachable sort_table_zero) by (left; reflexivity).
  split; [exact Ht|].
  apply (string_sort_table_collation sort_table_zero
           [0; 0; 0; 0; 0; 0; 0; 0] [0; 0; 0; 0; 0; 0; 0; 0] Ht);
    unfold UINT_MAX; simpl; lia.
Defined.

(** "Abc" before "abd" fails: with the key comparison of the code, in which the
    greater key comes first, "Abc" does not sort before "abd"; "abd" sorts
    before "Abc".  [fs_compare_pk3_source] on a file of Abc.pk3 and a file of
    abd.pk3 is positive: the second has precedence. *)
Lemma collation_Abc_not_before_abd :
  let key_Abc := fst (fs_write_sort_string sort_table_zero "Abc"
                        (stream_init [0; 0; 0; 0; 0; 0; 0; 0]) false) in
  let key_abd := fst (fs_write_sort_string sort_table_zero "abd"
                        (stream_init [0; 0; 0; 0; 0; 0; 0; 0]) false) in
  stream_field key_Abc 0 4 = [225; 226; 227; 0]
  /\ stream_field key_abd 0 4 = [225; 226; 228; 0]
  /\ compare_sort_streams key_Abc key_abd = 1
  /\ ~ sorts_before key_Abc key_abd
  /\ sorts_before key_abd key_Abc
  /\ fst (fs_compare_pk3_source (X := example_externals) sort_table_zero
            (replicate 1024 0) (replicate 1024 0) example_in_Abc example_in_abd) = 1.
Proof.
  vm_compute. repeat split; congruence.
Qed.

(** ** File disabled check *)

Section FileDisabledFacts.

Context `{X : fs_externals}.
Variable G : fs_globals.

Lemma computes_ret {A : Type} (a : A) : computes G (ret a) (fun _ => a).
Proof.
  intros st. exists st. split; [reflexivity|]. split; [reflexivity|].
  exists []. split; [rewrite app_nil_r; reflexivity | constructor].
Qed.

Lemma computes_bind {A B : Type} (c : M A) (k : A -> M B)
  (v : list string -> A) (w : A -> list string -> B) :
  computes G c v -> (forall a, computes G (k a) (w a)) ->
  computes G (bind c k) (fun folders => w (v folders) folders).
Proof.
  intros Hc Hk st. destruct (Hc st) as (st1 & E1 & F1 & evs1 & Ev1 & N1).
  destruct (Hk (v (effective_folders G st)) st1) as (st2 & E2 & F2 & evs2 & Ev2 & N2).
  exists st2. unfold bind. rewrite E1, E2, F1. split; [reflexivity|].
  split; [congruence|]. exists (evs1 ++ evs2). split.
  - rewrite Ev2, Ev1, app_assoc. reflexivity.
  - apply Forall_app. split; assumption.
Qed.

Lemma computes_ext {A : Type} (c : M A) (v v' : list string -> A) :
  computes G c v -> (forall folders, v folders = v' folders) -> computes G c v'.
Proof.
  intros Hc Hv st. destruct (Hc st) as (st' & E & H). exists st'.
  rewrite <- Hv. split; assumption.
Qed.

(** A second update finds the counter up to date and does nothing. *)
Lemma fs_servercfg_update_state_again (st : fs_state) :
  fs_servercfg_update_state G (snd (fs_servercfg_update_state G st))
  = (tt, snd (fs_servercfg_update_state G st)).
Proof.
  unfold fs_servercfg_update_state.
  destruct (Z.eqb_spec (fs_servercfg_modificationCount G) (servercfg_cvar_mod_count st))
    as [E|E]; simpl negb; cbv iota.
  - simpl. destruct (Z.eqb_spec (fs_servercfg_modificationCount G)
                                (servercfg_cvar_mod_count st)); [reflexivity|contradiction].
  - destruct (servercfg_parse _ _) as [folders hit]. simpl.
    rewrite Z.eqb_refl. reflexivity.
Qed.

Lemma fs_servercfg_update_state_events (st : fs_state) :
  exists evs,
    events (snd (fs_servercfg_update_state G st)) = events st ++ evs
    /\ servercfg_notices evs.
Proof.
  unfold fs_servercfg_update_state.
  destruct (negb _).
  - destruct (servercfg_parse _ _) as [folders hit]. simpl.
    eexists. split; [reflexivity|].
    destruct hit; repeat constructor.
  - exists []. simpl. rewrite app_nil_r. split; [reflexivity | constructor].
Qed.

Lemma fs_servercfg_priority_computes (mod_dir : string) :
  computes G (fs_servercfg_priority G mod_dir)
           (fun folders => servercfg_rank folders mod_dir).
Proof.
  intros st. unfold fs_servercfg_priority, bind.
  destruct (fs_servercfg_update_state G st) as [[] st1] eqn:E.
  exists st1. split; [|split].
  - unfold effective_folders, servercfg_rank. rewrite E. reflexivity.
  - unfold effective_folders.
    pose proof (fs_servercfg_update_state_again st) as H. rewrite E in H. simpl in H.
    rewrite H, E. reflexivity.
  - pose proof (fs_servercfg_update_state_events st) as H. rewrite E in H. exact H.
Qed.

Lemma inactive_mod_file_disabled_computes (file : fsc_file_t) (level : Z)
  (ignore_servercfg : bool) :
  computes G (inactive_mod_file_disabled G file level ignore_servercfg)
           (fun folders => inactive_mod_rule G folders file level ignore_servercfg).
Proof.
  unfold inactive_mod_file_disabled, inactive_mod_rule.
  destruct (2 <=? level); [apply computes_ret|].
  destruct (0 <? modtype_value _); [apply computes_ret|].
  destruct ((level =? 1) && level1_allowed G file); [apply computes_ret|].
  destruct (FS_SERVERCFG_ENABLED && negb ignore_servercfg); [|apply computes_ret].
  apply (computes_bind _ _ _ (fun priority _ => priority =? 0)).
  - apply fs_servercfg_priority_computes.
  - intros a. apply computes_ret.
Qed.

Lemma servercfg_limit_disabled_computes (file : fsc_file_t) (checks : Z) :
  computes G (servercfg_limit_disabled G file checks)
           (fun folders => check_requested checks FD_CHECK_LIST_SERVERCFG_LIMIT
                           && servercfg_limit_rule G folders file).
Proof.
  unfold servercfg_limit_disabled, servercfg_limit_rule.
  destruct FS_SERVERCFG_ENABLED; simpl andb;
    [|eapply computes_ext; [apply computes_ret|];
      intros; rewrite andb_false_r; reflexivity].
  destruct (check_requested checks FD_CHECK_LIST_SERVERCFG_LIMIT); simpl andb;
    [|apply computes_ret].
  destruct (negb (fs_servercfg_listlimit G =? 0)); simpl andb; [|apply computes_ret].
  eapply computes_ext.
  - apply (computes_bind _ _
             (fun folders => servercfg_rank folders (fsc_get_mod_dir file))
             (fun priority _ =>
                if priority =? 0 then
                  if fs_servercfg_listlimit G =? 1 then
                    match fsc_get_base_file file with
                    | Some base_file => core_pk3_position G (pk3_hash base_file) =? 0
                    | None => true
                    end
                  else true
                else false)).
    + apply fs_servercfg_priority_computes.
    + intros a. destruct (a =? 0); [|apply computes_ret].
      destruct (fs_servercfg_listlimit G =? 1); [|apply computes_ret].
      destruct (fsc_get_base_file file); apply computes_ret.
  - intros folders. cbv beta.
    destruct (servercfg_rank folders (fsc_get_mod_dir file) =? 0); reflexivity.
Qed.

Lemma list_level_min :
  (if fs_read_inactive_mods G <? fs_list_inactive_mods G
   then fs_read_inactive_mods G else fs_list_inactive_mods G)
  = Z.min (fs_read_inactive_mods G) (fs_list_inactive_mods G).
Proof.
  destruct (Z.ltb_spec (fs_read_inactive_mods G) (fs_list_inactive_mods G)); lia.
Qed.

(** [fs_file_disabled] returns the identifier of the first requested check
    that triggers. *)
Lemma fs_file_disabled_computes (file : fsc_file_t) (checks : Z) :
  computes G (fs_file_disabled G file checks)
           (fun folders => first_triggered checks (disabled_checks G folders file)).
Proof.
  unfold fs_file_disabled, disabled_checks, first_triggered.
  rewrite list_level_min.
  rewrite <- andb_assoc. fold (pure_list_rule G file).
  destruct (check_requested checks FD_CHECK_PURE_LIST && pure_list_rule G file);
    [apply computes_ret|].
  pose (tail3 := fun folders : list string =>
          if check_requested checks FD_CHECK_LIST_SERVERCFG_LIMIT
             && servercfg_limit_rule G folders file
          then FD_CHECK_LIST_SERVERCFG_LIMIT else 0).
  pose (tail2 := fun folders : list string =>
          if check_requested checks FD_CHECK_LIST_INACTIVE_MODS
             && inactive_mod_rule G folders file
                  (Z.min (fs_read_inactive_mods G) (fs_list_inactive_mods G)) false
          then FD_CHECK_LIST_INACTIVE_MODS else tail3 folders).
  pose (tail1 := fun folders : list string =>
          if check_requested checks FD_CHECK_READ_INACTIVE_MODS_IGNORE_SERVERCFG
             && inactive_mod_rule G folders file (fs_read_inactive_mods G) true
          then FD_CHECK_READ_INACTIVE_MODS_IGNORE_SERVERCFG else tail2 folders).
  assert (H3 : computes G
                 (bind (servercfg_limit_disabled G file checks)
                       (fun d : bool =>
                          if d then ret FD_CHECK_LIST_SERVERCFG_LIMIT else ret 0))
                 tail3).
  { apply (computes_bind _ _
             (fun folders =>
                check_requested checks FD_CHECK_LIST_SERVERCFG_LIMIT
                && servercfg_limit_rule G folders file)
             (fun (d : bool) _ => if d then FD_CHECK_LIST_SERVERCFG_LIMIT else 0)).
    - apply servercfg_limit_disabled_computes.
    - intros [|]; apply computes_ret. }
  assert (H2 : forall k, computes G k tail3 ->
                 computes G
                   (bind (if check_requested checks FD_CHECK_LIST_INACTIVE_MODS then
                            inactive_mod_file_disabled G file
                              (Z.min (fs_read_inactive_mods G) (fs_list_inactive_mods G))
                              false
                          else ret false)
                         (fun d : bool =>
                            if d then ret FD_CHECK_LIST_INACTIVE_MODS else k))
                   tail2).
  { intros k Hk.
    apply (computes_bind _ _
             (fun folders =>
                check_requested checks FD_CHECK_LIST_INACTIVE_MODS
                && inactive_mod_rule G folders file
                     (Z.min (fs_read_inactive_mods G) (fs_list_inactive_mods G)) false)
             (fun (d : bool) folders =>
                if d then FD_CHECK_LIST_INACTIVE_MODS else tail3 folders)).
    - destruct (check_requested checks FD_CHECK_LIST_INACTIVE_MODS); simpl andb;
        [apply inactive_mod_file_disabled_computes | apply computes_ret].
    - intros [|]; [apply computes_ret | exact Hk]. }
  assert (H1 : forall k, computes G k tail2 ->
                 computes G
                   (bind (if check_requested checks
                               FD_CHECK_READ_INACTIVE_MODS_IGNORE_SERVERCFG then
                            inactive_mod_file_disabled G file (fs_read_inactive_mods G) true
                          else ret false)
                         (fun d : bool =>
                            if d then ret FD_CHECK_READ_INACTIVE_MODS_IGNORE_SERVERCFG
                            else k))
                   tail1).
  { intros k Hk.
    apply (computes_bind _ _
             (fun folders =>
                check_requested checks FD_CHECK_READ_INACTIVE_MODS_IGNORE_SERVERCFG
                && inactive_mod_rule G folders file (fs_read_inactive_mods G) true)
             (fun (d : bool) folders =>
                if d then FD_CHECK_READ_INACTIVE_MODS_IGNORE_SERVERCFG
                else tail2 folders)).
    - destruct (check_requested checks FD_CHECK_READ_INACTIVE_MODS_IGNORE_SERVERCFG);
        simpl andb; [apply inactive_mod_file_disabled_computes | apply computes_ret].
    - intros [|]; [apply computes_ret | exact Hk]. }
  apply (computes_bind _ _
           (fun folders =>
              check_requested checks FD_CHECK_READ_INACTIVE_MODS
              && inactive_mod_rule G folders file (fs_read_inactive_mods G) false)
           (fun (d : bool) folders =>
              if d then FD_CHECK_READ_INACTIVE_MODS else tail1 folders)).
  - destruct (check_requested checks FD_CHECK_READ_INACTIVE_MODS); simpl andb;
      [apply inactive_mod_file_disabled_computes | apply computes_ret].
  - intros [|]; [apply computes_ret|]. apply H1. apply H2. exact H3.
Qed.

End FileDisabledFacts.

Section FileDisabledProperties.

Context `{X : fs_externals}.
Variable G : fs_globals.

Lemma fs_file_disabled_value (file : fsc_file_t) (checks : Z) (st : fs_state) :
  fst (fs_file_disabled G file checks st)
  = first_triggered checks (disabled_checks G (effective_folders G st) file).
Proof.
  destruct (fs_file_disabled_computes G file checks st) as (st' & E & _).
  rewrite E. reflexivity.
Qed.

Lemma inactive_mod_file_disabled_value (file : fsc_file_t) (level : Z)
  (ignore_servercfg : bool) (st : fs_state) :
  fst (inactive_mod_file_disabled G file level ignore_servercfg st)
  = inactive_mod_rule G (effective_folders G st) file level ignore_servercfg.
Proof.
  destruct (inactive_mod_file_disabled_computes G file level ignore_servercfg st)
    as (st' & E & _).
  rewrite E. reflexivity.
Qed.

Lemma check_requested_nonzero (checks flag : Z) :
  check_requested checks flag = true -> flag <> 0.
Proof.
  unfold check_requested. intros H ->. rewrite Z.land_0_r in H. discriminate.
Qed.

Lemma first_triggered_zero (checks : Z) (l : list (Z * bool)) :
  first_triggered checks l = 0 <->
  forall flag triggers, In (flag, triggers) l ->
                        check_requested checks flag = true -> triggers = false.
Proof.
  induction l as [|[f t] l IH]; simpl.
  - split; [intros _ ? ? [] | reflexivity].
  - destruct (check_requested checks f) eqn:Er; simpl andb.
    + destruct t.
      * split.
        -- intros E. apply check_requested_nonzero in Er. contradiction.
        -- intros H. specialize (H f true (or_introl eq_refl) Er). discriminate.
      * rewrite IH. split.
        -- intros H flag triggers [[= <- <-]|Hin] Hr; [reflexivity | eauto].
        -- intros H flag triggers Hin Hr. eauto.
    + rewrite IH. split.
      * intros H flag triggers [[= <- <-]|Hin] Hr; [congruence | eauto].
      * intros H flag triggers Hin Hr. eauto.
Qed.

Lemma first_triggered_at (checks : Z) (l : list (Z * bool)) (k : nat) (flag : Z) :
  l !! k = Some (flag, true) -> check_requested checks flag = true ->
  (forall (j : nat) f t, (j < k)%nat -> l !! j = Some (f, t) ->
                         check_requested checks f && t = false) ->
  first_triggered checks l = flag.
Proof.
  revert k. induction l as [|[f t] l IH]; intros k Hk Hr Hbefore.
  - rewrite lookup_nil in Hk. discriminate.
  - destruct k as [|k]; simpl in Hk.
    + injection Hk as -> ->. simpl. rewrite Hr. reflexivity.
    + simpl. rewrite (Hbefore 0%nat f t ltac:(lia) eq_refl).
      apply (IH k Hk Hr). intros j f' t' Hj Hl.
      apply (Hbefore (S j) f' t' ltac:(lia) Hl).
Qed.

(** A file the rule disables at a level is disabled at every lower level. *)
Lemma inactive_mod_rule_monotone (folders : list string) (file : fsc_file_t)
  (level level' : Z) (ignore_servercfg : bool) :
  level' <= level ->
  inactive_mod_rule G folders file level ignore_servercfg = true ->
  inactive_mod_rule G folders file level' ignore_servercfg = true.
Proof.
  unfold inactive_mod_rule. intros Hle.
  destruct (Z.leb_spec 2 level); [discriminate|].
  destruct (Z.leb_spec 2 level'); [lia|].
  destruct (0 <? modtype_value _); [discriminate|].
  destruct (Z.eqb_spec level 1) as [->|E]; destruct (Z.eqb_spec level' 1) as [->|E'];
    simpl andb; try lia; destruct (level1_allowed G file); try discriminate; auto.
Qed.

(** C3. For every file and check mask, [fs_file_disabled] returns the
    identifier of the first check, in the order pure list, read inactive
    mods, read inactive mods ignoring servercfg, list inactive mods, servercfg
    list limit, that is requested and triggers, and 0 if and only if no
    requested check triggers; so when the pure list check is requested and
    triggers the result is [FD_CHECK_PURE_LIST], whatever inactive mod check
    is requested and triggers with it, and no other identifier. *)
Theorem fs_file_disabled_priority (file : fsc_file_t) (checks : Z) (st : fs_state) :
  let checks_in_order := disabled_checks G (effective_folders G st) file in
  let result := fst (fs_file_disabled G file checks st) in
  map fst checks_in_order
  = [FD_CHECK_PURE_LIST; FD_CHECK_READ_INACTIVE_MODS;
     FD_CHECK_READ_INACTIVE_MODS_IGNORE_SERVERCFG;
     FD_CHECK_LIST_INACTIVE_MODS; FD_CHECK_LIST_SERVERCFG_LIMIT]
  /\ result = first_triggered checks checks_in_order
  /\ (forall (k : nat) flag,
        checks_in_order !! k = Some (flag, true) ->
        check_requested checks flag = true ->
        (forall (j : nat) f t, (j < k)%nat -> checks_in_order !! j = Some (f, t) ->
                               check_requested checks f && t = false) ->
        result = flag)
  /\ (result = 0 <->
      forall flag triggers, In (flag, triggers) checks_in_order ->
                            check_requested checks flag = true -> triggers = false)
  /\ (check_requested checks FD_CHECK_PURE_LIST = true ->
      pure_list_rule G file = true ->
      forall inactive_flag level ignore_servercfg,
        In inactive_flag [FD_CHECK_READ_INACTIVE_MODS;
                          FD_CHECK_READ_INACTIVE_MODS_IGNORE_SERVERCFG;
                          FD_CHECK_LIST_INACTIVE_MODS] ->
        check_requested checks inactive_flag = true ->
        fst (inactive_mod_file_disabled G file level ignore_servercfg st) = true ->
        result = FD_CHECK_PURE_LIST
        /\ (inactive_flag <> FD_CHECK_PURE_LIST -> result <> inactive_flag)).
Proof.
  intros checks_in_order result.
  assert (Hres : result = first_triggered checks checks_in_order)
    by apply fs_file_disabled_value.
  split; [reflexivity|]. split; [exact Hres|]. split.
  { intros k flag Hk Hr Hbefore. rewrite Hres.
    apply (first_triggered_at checks checks_in_order k flag Hk Hr Hbefore). }
  split.
  { rewrite Hres. apply first_triggered_zero. }
  intros Hr Hp inactive_flag level ign _ _ _.
  assert (E : result = FD_CHECK_PURE_LIST).
  { rewrite Hres. subst checks_in_order. unfold disabled_checks. simpl.
    rewrite Hr, Hp. reflexivity. }
  split; [exact E | congruence].
Qed.

(** C9. When the list inactive mods check is the one requested,
    [fs_file_disabled] decides by the inactive mod rule at the level
    [min(fs_read_inactive_mods, fs_list_inactive_mods)]: a file disabled for
    reading is disabled for listing, and when the read level is the smaller
    of the two the listing decision is the reading decision. *)
Theorem list_inactive_mods_level_is_min (file : fsc_file_t)
  (checks_list checks_read : Z) (st : fs_state) :
  requests_only_list checks_list -> requests_only_read checks_read ->
  let listing := fst (fs_file_disabled G file checks_list st) in
  let reading := fst (fs_file_disabled G file checks_read st) in
  listing
  = (if fst (inactive_mod_file_disabled G file
               (Z.min (fs_read_inactive_mods G) (fs_list_inactive_mods G)) false st)
     then FD_CHECK_LIST_INACTIVE_MODS else 0)
  /\ reading
     = (if fst (inactive_mod_file_disabled G file (fs_read_inactive_mods G) false st)
        then FD_CHECK_READ_INACTIVE_MODS else 0)
  /\ (reading <> 0 -> listing <> 0)
  /\ (fs_read_inactive_mods G <= fs_list_inactive_mods G ->
      (listing <> 0 <-> reading <> 0)).
Proof.
  intros (Hl & Hl1 & Hl2 & Hl3 & Hl4) (Hr & Hr1 & Hr2 & Hr3 & Hr4) listing reading.
  assert (El : listing
               = if inactive_mod_rule G (effective_folders G st) file
                      (Z.min (fs_read_inactive_mods G) (fs_list_inactive_mods G)) false
                 then FD_CHECK_LIST_INACTIVE_MODS else 0).
  { subst listing. rewrite fs_file_disabled_value. unfold disabled_checks. simpl.
    rewrite Hl, Hl1, Hl2, Hl3, Hl4. simpl.
    destruct (inactive_mod_rule _ _ _ _ _); reflexivity. }
  assert (Er : reading
               = if inactive_mod_rule G (effective_folders G st) file
                      (fs_read_inactive_mods G) false
                 then FD_CHECK_READ_INACTIVE_MODS else 0).
  { subst reading. rewrite fs_file_disabled_value. unfold disabled_checks. simpl.
    rewrite Hr, Hr1, Hr2, Hr3, Hr4. simpl.
    destruct (inactive_mod_rule _ _ _ _ _); reflexivity. }
  pose proof (check_requested_nonzero _ _ Hl) as Nl.
  pose proof (check_requested_nonzero _ _ Hr) as Nr.
  rewrite !inactive_mod_file_disabled_value.
  split; [exact El|]. split; [exact Er|].
  rewrite El, Er. split.
  - destruct (inactive_mod_rule G _ file (fs_read_inactive_mods G) false) eqn:E;
      [|congruence].
    intros _.
    rewrite (inactive_mod_rule_monotone _ file (fs_read_inactive_mods G)
               (Z.min (fs_read_inactive_mods G) (fs_list_inactive_mods G)) false
               ltac:(lia) E).
    exact Nl.
  - intros Hle. rewrite Z.min_l by exact Hle.
    destruct (inactive_mod_rule G _ file (fs_read_inactive_mods G) false);
      split; congruence.
Qed.

(** C10. When the connected server pure state is 1 and the pure list check
    is requested, [fs_file_disabled] returns [FD_CHECK_PURE_LIST] for every
    file whose sourcetype is not [FSC_SOURCETYPE_PK3], whatever the pure list
    holds: the pk3 list position of such a file is 0. *)
Theorem fs_file_disabled_pure_non_pk3 (file : fsc_file_t) (checks : Z) (st : fs_state) :
  connected_server_pure_state G = 1 ->
  check_requested checks FD_CHECK_PURE_LIST = true ->
  sourcetype file <> FSC_SOURCETYPE_PK3 ->
  get_pk3_list_position G file = 0
  /\ fst (fs_file_disabled G file checks st) = FD_CHECK_PURE_LIST.
Proof.
  intros Hs Hr Ht.
  assert (Hp : get_pk3_list_position G file = 0).
  { unfold get_pk3_list_position.
    destruct (Z.eqb_spec (sourcetype file) FSC_SOURCETYPE_PK3); [contradiction|].
    reflexivity. }
  split; [exact Hp|].
  unfold fs_file_disabled. rewrite Hr, Hs, Hp. reflexivity.
Qed.

End FileDisabledProperties.

(** ** Core pak verification *)

Section CorePakFacts.

Context `{X : fs_externals}.
Variable G : fs_globals.

(** The name match the first loop ends with: the last candidate, or the
    value it started from when there is no candidate. *)
Lemma pak_state_files_computes (files : list fsc_file_t) (mod_ : option string)
  (hash : Z) (start : option fsc_file_t) :
  computes G (pak_state_files G files mod_ hash start)
    (fun folders =>
       let candidates := List.filter (name_candidate G folders mod_) files in
       match List.find (fun f => pk3_hash f =? hash) candidates with
       | Some f => inl {| name_match := Some f; hash_match := Some f |}
       | None => inr (match last candidates with Some f => Some f | None => start end)
       end).
Proof.
  revert start. induction files as [|file files IH]; intros start.
  - exact (computes_ret G (inr start)).
  - pose (T := fun (start' : option fsc_file_t) (folders : list string) =>
                 match List.find (fun f => pk3_hash f =? hash)
                         (List.filter (name_candidate G folders mod_) files)
                       return (core_pak_state_t + option fsc_file_t) with
                 | Some f => inl {| name_match := Some f; hash_match := Some f |}
                 | None =>
                     inr (match last (List.filter (name_candidate G folders mod_) files)
                          with Some f => Some f | None => start' end)
                 end).
    assert (HT : forall start', computes G (pak_state_files G files mod_ hash start')
                                         (T start')) by (intros; apply IH).
    simpl pak_state_files.
    destruct (sourcetype file =? FSC_SOURCETYPE_DIRECT) eqn:Esrc; simpl negb; cbv iota.
    + eapply computes_ext.
      * apply (computes_bind G _ _
                 (fun folders =>
                    first_triggered FD_CHECK_READ_INACTIVE_MODS
                                    (disabled_checks G folders file))
                 (fun d folders =>
                    if negb (d =? 0) then T start folders
                    else if negb (Q_stricmp (qp_ext file) ".pk3" =? 0) then T start folders
                    else if mod_differs (fsc_get_mod_dir file) mod_ then T start folders
                    else if pk3_hash file =? hash
                    then inl {| name_match := Some file; hash_match := Some file |}
                    else T (Some file) folders)).
        -- apply fs_file_disabled_computes.
        -- intros d.
           destruct (negb (d =? 0)); [apply HT|].
           destruct (negb (Q_stricmp (qp_ext file) ".pk3" =? 0)); [apply HT|].
           destruct (mod_differs (fsc_get_mod_dir file) mod_); [apply HT|].
           destruct (pk3_hash file =? hash); [apply computes_ret | apply HT].
      * intros folders. cbv beta zeta. simpl List.filter.
        assert (Enc : name_candidate G folders mod_ file
                      = read_enabled G folders file
                        && (Q_stricmp (qp_ext file) ".pk3" =? 0)
                        && negb (mod_differs (fsc_get_mod_dir file) mod_))
          by (unfold name_candidate; rewrite Esrc; reflexivity).
        rewrite Enc. unfold read_enabled.
        destruct (first_triggered FD_CHECK_READ_INACTIVE_MODS
                    (disabled_checks G folders file) =? 0); simpl negb; simpl andb;
          cbv iota; [|reflexivity].
        destruct (Q_stricmp (qp_ext file) ".pk3" =? 0); simpl negb; simpl andb;
          cbv iota; [|reflexivity].
        destruct (mod_differs (fsc_get_mod_dir file) mod_); simpl negb; cbv iota;
          [reflexivity|].
        simpl List.find. destruct (pk3_hash file =? hash); [reflexivity|].
        rewrite last_cons. unfold T.
        destruct (List.find _ _); [reflexivity|].
        destruct (last _); reflexivity.
    + eapply computes_ext; [apply (HT start)|].
      intros folders. cbv beta zeta. simpl List.filter.
      assert (Enc : name_candidate G folders mod_ file = false)
        by (unfold name_candidate; rewrite Esrc; reflexivity).
      rewrite Enc. reflexivity.
Qed.

Lemma pak_state_pk3s_computes (pk3s : list fsc_file_t) :
  computes G (pak_state_pk3s G pk3s)
           (fun folders => List.find (read_enabled G folders) pk3s).
Proof.
  induction pk3s as [|pk3 pk3s IH].
  - exact (computes_ret G None).
  - simpl pak_state_pk3s. eapply computes_ext.
    + apply (computes_bind G _ _
               (fun folders =>
                  first_triggered FD_CHECK_READ_INACTIVE_MODS
                                  (disabled_checks G folders pk3))
               (fun d folders =>
                  if negb (d =? 0) then List.find (read_enabled G folders) pk3s
                  else Some pk3)).
      * apply fs_file_disabled_computes.
      * intros d. destruct (negb (d =? 0)); [exact IH | apply computes_ret].
    + intros folders. cbv beta. simpl List.find. unfold read_enabled at 2.
      destruct (first_triggered _ _ =? 0); reflexivity.
Qed.

Lemma get_pak_state_computes (mod_ : option string) (filename : string) (hash : Z) :
  computes G (get_pak_state G mod_ filename hash)
           (fun folders => pak_state_of G folders mod_ filename hash).
Proof.
  unfold get_pak_state. eapply computes_ext.
  - apply (computes_bind G _ _
             (fun folders =>
                let candidates :=
                  List.filter (name_candidate G folders mod_)
                              (fsc_file_iterator "" filename) in
                match List.find (fun f => pk3_hash f =? hash) candidates with
                | Some f => inl {| name_match := Some f; hash_match := Some f |}
                | None => inr (match last candidates with
                               | Some f => Some f
                               | None => None
                               end)
                end)
             (fun r folders =>
                match r with
                | inl result => result
                | inr nm =>
                    {| name_match := nm;
                       hash_match := List.find (read_enabled G folders)
                                               (fsc_pk3_iterator hash) |}
                end)).
    + apply (pak_state_files_computes (fsc_file_iterator "" filename) mod_ hash None).
    + intros [result|nm]; [apply computes_ret|].
      apply (computes_bind G _ _
               (fun folders => List.find (read_enabled G folders) (fsc_pk3_iterator hash))
               (fun hm _ => {| name_match := nm; hash_match := hm |})).
      * apply pak_state_pk3s_computes.
      * intros hm. apply computes_ret.
  - intros folders. cbv beta zeta. unfold pak_state_of. cbv zeta.
    destruct (List.find _ _); [reflexivity|].
    destruct (last _); reflexivity.
Qed.

Lemma get_pak_states_computes (mod_ : string) (hashes : list Z) (i : Z) :
  computes G (get_pak_states G mod_ hashes i)
           (fun folders => pak_states_of G folders mod_ hashes i).
Proof.
  revert i. induction hashes as [|hash hashes IH]; intros i.
  - exact (computes_ret G []).
  - simpl get_pak_states.
    apply (computes_bind G _ _
             (fun folders => pak_state_of G folders (Some mod_) (pak_filename i) hash)
             (fun s folders => s :: pak_states_of G folders mod_ hashes (i + 1))).
    + apply get_pak_state_computes.
    + intros s.
      apply (computes_bind G _ _
               (fun folders => pak_states_of G folders mod_ hashes (i + 1))
               (fun l _ => s :: l)).
      * apply IH.
      * intros l. apply computes_ret.
Qed.

End CorePakFacts.

Section CorePakProperties.

Context `{X : fs_externals}.
Variable G : fs_globals.

Lemma get_pak_state_value (mod_ : option string) (filename : string) (hash : Z)
  (st : fs_state) :
  fst (get_pak_state G mod_ filename hash st)
  = pak_state_of G (effective_folders G st) mod_ filename hash.
Proof.
  destruct (get_pak_state_computes G mod_ filename hash st) as (st' & E & _).
  rewrite E. reflexivity.
Qed.

(** [read_enabled] is [fs_file_disabled] with the read inactive mods check
    returning 0. *)
Lemma read_enabled_spec (file : fsc_file_t) (st : fs_state) :
  read_enabled G (effective_folders G st) file
  = (fst (fs_file_disabled G file FD_CHECK_READ_INACTIVE_MODS st) =? 0).
Proof.
  unfold read_enabled.
  destruct (fs_file_disabled_computes G file FD_CHECK_READ_INACTIVE_MODS st)
    as (st' & E & _).
  rewrite E. reflexivity.
Qed.

(** C7, as the code has it.  Among the files the name iterator produces,
    the candidates are those that are direct-sourced, not disabled, of
    extension ".pk3" and in the expected directory.  If a candidate has the
    expected hash, the first such candidate is both the name match and the
    hash match: the same object.  Otherwise the name match is the last
    candidate encountered, and the hash match is the first file of the
    hash-indexed view that is not disabled. *)
Theorem get_pak_state_matches (mod_ : option string) (filename : string) (hash : Z)
  (st : fs_state) :
  let folders := effective_folders G st in
  let candidates :=
    List.filter (name_candidate G folders mod_) (fsc_file_iterator "" filename) in
  let state := fst (get_pak_state G mod_ filename hash st) in
  (forall f, List.find (fun f => pk3_hash f =? hash) candidates = Some f ->
             name_match state = Some f /\ hash_match state = Some f)
  /\ (List.find (fun f => pk3_hash f =? hash) candidates = None ->
      name_match state = last candidates
      /\ hash_match state
         = List.find (read_enabled G folders) (fsc_pk3_iterator hash))
  /\ (forall f, In f candidates -> pk3_hash f = hash ->
                exists f', name_match state = Some f' /\ hash_match state = Some f'
                           /\ pk3_hash f' = hash /\ In f' candidates).
Proof.
  intros folders candidates state.
  assert (E : state = pak_state_of G folders mod_ filename hash)
    by apply get_pak_state_value.
  unfold pak_state_of in E. cbv zeta in E. fold candidates in E.
  split; [|split].
  - intros f Hf. rewrite Hf in E. rewrite E. split; reflexivity.
  - intros Hn. rewrite Hn in E. rewrite E. split; reflexivity.
  - intros f Hin Hh.
    destruct (List.find (fun f => pk3_hash f =? hash) candidates) as [f'|] eqn:Ef.
    + exists f'. rewrite E. apply find_some in Ef. destruct Ef as [Hin' Hh'].
      repeat split; [lia | exact Hin'].
    + exfalso. pose proof (find_none _ _ Ef f Hin) as Hc. simpl in Hc. lia.
Qed.

Lemma pak_state_of_no_hash (folders : list string) (mod_ : option string)
  (filename : string) (hash : Z) :
  no_enabled_file_with_hash G folders hash ->
  hash_match (pak_state_of G folders mod_ filename hash) = None.
Proof.
  intros [Hpk3 Hfile]. unfold pak_state_of. cbv zeta.
  destruct (List.find (fun f => pk3_hash f =? hash) _) as [f|] eqn:Ef.
  - exfalso. apply find_some in Ef. destruct Ef as [Hin Hh].
    apply filter_In in Hin. destruct Hin as [Hin Hc].
    unfold name_candidate in Hc.
    rewrite (Hfile filename f Hin ltac:(lia)) in Hc.
    rewrite andb_false_r in Hc. discriminate.
  - simpl. destruct (List.find (read_enabled G folders) _) as [f|] eqn:Ep;
      [|reflexivity].
    exfalso. apply find_some in Ep. destruct Ep as [Hin He].
    rewrite (Hpk3 f Hin) in He. discriminate.
Qed.

Lemma pak_states_of_no_hash (folders : list string) (mod_ : string)
  (hashes : list Z) (i : Z) :
  (forall h, In h hashes -> no_enabled_file_with_hash G folders h) ->
  existsb has_hash_match (pak_states_of G folders mod_ hashes i) = false.
Proof.
  revert i. induction hashes as [|h hashes IH]; intros i H; simpl; [reflexivity|].
  unfold has_hash_match at 1.
  rewrite pak_state_of_no_hash by (apply H; left; reflexivity).
  apply IH. intros h' Hin. apply H. right. exact Hin.
Qed.

(** C6, as the code has it.  When the base game directory is not the
    default one ([com_basegame] differs from [BASEGAME]) and no enumerated
    file that is not disabled has the hash of any expected archive, of the
    base set or of the expansion set, [fs_check_core_paks] prints the
    standalone notice, sets [com_standalone] to "1" and returns: nothing else
    is reported, no warning for any archive and no dialog. *)
Theorem fs_check_core_paks_standalone (st : fs_state) :
  Q_stricmp (com_basegame G) BASEGAME <> 0 ->
  (forall h, In h (core_hashes ++ missionpack_hashes) ->
             no_enabled_file_with_hash G (effective_folders G st) h) ->
  exists notices,
    servercfg_notices notices
    /\ events (snd (fs_check_core_paks G st))
       = events st ++ notices ++
         [Ev_print Print_standalone; Ev_cvar_set "com_standalone" "1"].
Proof.
  intros Hgame Hnone.
  destruct (get_pak_states_computes G BASEGAME core_hashes 0 st)
    as (st1 & E1 & F1 & evs1 & Ev1 & N1).
  destruct (get_pak_states_computes G "missionpack" missionpack_hashes 0 st1)
    as (st2 & E2 & F2 & evs2 & Ev2 & N2).
  exists (evs1 ++ evs2). split; [apply Forall_app; split; assumption|].
  unfold fs_check_core_paks, bind. rewrite E1, E2. cbv zeta.
  rewrite F1.
  rewrite (pak_states_of_no_hash (effective_folders G st) BASEGAME core_hashes 0)
    by (intros h Hin; apply Hnone; apply in_or_app; left; exact Hin).
  rewrite (pak_states_of_no_hash (effective_folders G st) "missionpack"
             missionpack_hashes 0)
    by (intros h Hin; apply Hnone; apply in_or_app; right; exact Hin).
  destruct (Z.eqb_spec (Q_stricmp (com_basegame G) BASEGAME) 0); [contradiction|].
  simpl. rewrite Ev2, Ev1, <- !app_assoc. reflexivity.
Qed.

End CorePakProperties.

(** ** The properties on the example installation *)

(** An instance: the pk3 of the inactive mod directory, with the pure list and read
    inactive mods checks requested: both trigger, the result is the pure list
    identifier. *)
Lemma fs_file_disabled_priority_witness :
  pure_list_rule (X := example_externals) example_globals example_inactive = true
  /\ fst (inactive_mod_file_disabled (X := example_externals) example_globals
            example_inactive 0 false fs_state_initial) = true
  /\ fst (fs_file_disabled (X := example_externals) example_globals
            example_inactive 3 fs_state_initial) = 1.
Proof.
  split; [reflexivity|]. split; [reflexivity|].
  destruct (fs_file_disabled_priority (X := example_externals) example_globals
              example_inactive 3 fs_state_initial) as (_ & _ & _ & _ & H).
  apply (H eq_refl eq_refl 2 0 false); [left; reflexivity | reflexivity | reflexivity].
Defined.

(** An instance: the same file, read level 0 and list level 1. *)
Lemma list_inactive_mods_level_is_min_witness :
  requests_only_list (X := example_externals) 8
  /\ requests_only_read (X := example_externals) 2
  /\ (fst (fs_file_disabled (X := example_externals) example_globals
             example_inactive 8 fs_state_initial) <> 0
      <-> fst (fs_file_disabled (X := example_externals) example_globals
                 example_inactive 2 fs_state_initial) <> 0).
Proof.
  assert (Hl : requests_only_list (X := example_externals) 8)
    by (repeat split; reflexivity).
  assert (Hr : requests_only_read (X := example_externals) 2)
    by (repeat split; reflexivity).
  split; [exact Hl|]. split; [exact Hr|].
  destruct (list_inactive_mods_level_is_min (X := example_externals) example_globals
              example_inactive 8 2 fs_state_initial Hl Hr) as (_ & _ & _ & H).
  apply H. simpl. lia.
Defined.

(** An instance: a direct-sourced pk3 file. *)
Lemma fs_file_disabled_pure_non_pk3_witness :
  connected_server_pure_state example_globals = 1
  /\ fst (fs_file_disabled (X := example_externals) example_globals
            example_pak0_first 1 fs_state_initial) = 1.
Proof.
  split; [reflexivity|].
  apply (fs_file_disabled_pure_non_pk3 (X := example_externals) example_globals
           example_pak0_first 1 fs_state_initial).
  - reflexivity.
  - reflexivity.
  - simpl. lia.
Defined.

(** The first file encountered is not the name match: with two files named
    pak0.pk3, neither of the
    expected hash, the name match is the second one encountered, not the
    first; and when the second has the expected hash it is the hash match too,
    although another file comes first in the hash-indexed view. *)
Lemma get_pak_state_name_match_is_last :
  let candidates :=
    List.filter (name_candidate (X := example_externals) example_globals []
                                (Some "baseq3"%string))
                (fsc_file_iterator (fs_externals := example_externals) "" "pak0") in
  let state := fst (get_pak_state (X := example_externals) example_globals
                      (Some "baseq3"%string) "pak0" 1566731103 fs_state_initial) in
  let state2 := fst (get_pak_state (X := example_externals) example_globals
                       (Some "baseq3"%string) "pak0" 222 fs_state_initial) in
  candidates = [example_pak0_first; example_pak0_second]
  /\ name_match state = Some example_pak0_second
  /\ name_match state <> head candidates
  /\ List.find (read_enabled (X := example_externals) example_globals [])
               (fsc_pk3_iterator (fs_externals := example_externals) 222)
     = Some example_renamed
  /\ hash_match state2 = Some example_pak0_second
  /\ hash_match state2 <> Some example_renamed.
Proof.
  vm_compute. repeat split; congruence.
Qed.

(** An instance: a file with the name and the hash. *)
Lemma get_pak_state_matches_witness :
  let state := fst (get_pak_state (X := example_externals) example_globals
                      (Some "baseq3"%string) "pak0" 222 fs_state_initial) in
  name_match state = Some example_pak0_second
  /\ hash_match state = Some example_pak0_second.
Proof.
  destruct (get_pak_state_matches (X := example_externals) example_globals
              (Some "baseq3"%string) "pak0" 222 fs_state_initial) as (H & _).
  apply H. reflexivity.
Defined.

(** An instance: another base game, no file with an expected hash, standalone
    mode. *)
Lemma fs_check_core_paks_standalone_witness :
  Q_stricmp (fs_externals := example_externals)
            (com_basegame example_globals_othergame)
            (BASEGAME (fs_externals := example_externals)) <> 0
  /\ exists notices,
       servercfg_notices notices
       /\ events (snd (fs_check_core_paks (X := example_externals)
                         example_globals_othergame fs_state_initial))
          = events fs_state_initial ++ notices ++
            [Ev_print Print_standalone; Ev_cvar_set "com_standalone" "1"].
Proof.
  assert (Hgame : Q_stricmp (fs_externals := example_externals)
                    (com_basegame example_globals_othergame)
                    (BASEGAME (fs_externals := example_externals)) <> 0)
    by (vm_compute; congruence).
  split; [exact Hgame|].
  apply (fs_check_core_paks_standalone (X := example_externals)
           example_globals_othergame fs_state_initial Hgame).
  intros h Hin. split.
  - intros f Hf. simpl in Hin.
    repeat (destruct Hin as [<-|Hin]; [vm_compute in Hf; contradiction|]).
    contradiction.
  - intros name f Hf Hh. exfalso.
    change (In f (List.filter (fun f0 => example_stricmp (qp_name f0) name =? 0)
                              example_files)) in Hf.
    apply filter_In in Hf. destruct Hf as [Hf _]. simpl in Hin.
    repeat (destruct Hf as [<-|Hf]; [simpl in Hh; subst h; lia|]).
    contradiction.
Defined.

(** No standalone mode with the default base game: no file has an expected
    hash, yet no standalone mode is signalled and every archive of the base
    set is reported. *)
Lemma fs_check_core_paks_default_game_warns :
  events (snd (fs_check_core_paks (X := example_externals) example_globals
                 fs_state_initial))
  = [Ev_print (Print_incorrect_hash "baseq3" "pak0");
     Ev_print (Print_not_found "baseq3" "pak1");
     Ev_print (Print_not_found "baseq3" "pak2");
     Ev_print (Print_not_found "baseq3" "pak3");
     Ev_print (Print_not_found "baseq3" "pak4");
     Ev_print (Print_not_found "baseq3" "pak5");
     Ev_print (Print_not_found "baseq3" "pak6");
     Ev_print (Print_not_found "baseq3" "pak7");
     Ev_print (Print_not_found "baseq3" "pak8");
     Ev_print Print_default_cfg_not_found;
     Ev_dialog
       [Popup_incorrect_hash "baseq3" "pak0";
        Popup_not_found "baseq3" "pak1"; Popup_not_found "baseq3" "pak2";
        Popup_not_found "baseq3" "pak3"; Popup_not_found "baseq3" "pak4";
        Popup_not_found "baseq3" "pak5"; Popup_not_found "baseq3" "pak6";
        Popup_not_found "baseq3" "pak7"; Popup_not_found "baseq3" "pak8";
        Popup_default_cfg_not_found]]
  /\ forall h, In h (core_hashes ++ missionpack_hashes) ->
       hash_match (fst (get_pak_state (X := example_externals) example_globals
                          (Some "baseq3"%string) "pak0" h fs_state_initial)) = None
       /\ fsc_pk3_iterator (fs_externals := example_externals) h = [].
Proof.
  split; [vm_compute; reflexivity|].
  intros h Hin. simpl in Hin.
  repeat (destruct Hin as [<-|Hin]; [vm_compute; split; reflexivity|]).
  contradiction.
Qed.

(** * Properties of the rest of the file *)

(** ** Hash table: contents, count, release *)

Section HashTableContents.

Context {A : Type}.
Implicit Types (t : fs_hashtable_t A).

Lemma fs_hashtable_initialize_initialized (count : Z) t :
  fs_hashtable_initialize count = Some t -> count <= INT_MAX ->
  hashtable_initialized t
  /\ bucket_count t = count
  /\ element_count t = 0
  /\ forall i, bucket_at t i = [].
Proof.
  unfold fs_hashtable_initialize.
  destruct (Z.ltb_spec 0 count) as [Hp|]; [|discriminate].
  intros [= <-] Hmax. unfold hashtable_initialized, hashtable_wf. simpl.
  rewrite length_replicate. repeat split; try lia.
  intros i. unfold bucket_at. simpl.
  destruct (replicate _ _ !! _) as [b|] eqn:E; [|reflexivity].
  apply lookup_replicate in E. destruct E as [-> _]. reflexivity.
Qed.

(** The chain of every bucket after a sequence of insertions: the entries
    inserted with a hash of that bucket, the latest first, before the
    entries the bucket held. *)
Lemma fs_hashtable_insert_all_buckets (ins : list (A * Z)) t :
  hashtable_initialized t ->
  Z.of_nat (length ins) + element_count t <= INT_MAX -> 0 <= element_count t ->
  exists t',
    fs_hashtable_insert_all t ins = Some t'
    /\ hashtable_initialized t'
    /\ bucket_count t' = bucket_count t
    /\ element_count t' = element_count t + Z.of_nat (length ins)
    /\ forall h,
         bucket_at t' (h mod bucket_count t)
         = rev (inserted_in_bucket (bucket_count t) h ins)
           ++ bucket_at t (h mod bucket_count t).
Proof.
  revert t. induction ins as [|[e h0] ins IH]; intros t H Hlen Hec.
  - exists t. simpl. repeat split; try apply H; try lia. 
  - simpl length in Hlen.
    destruct (fs_hashtable_insert_spec t e h0 H)
      as (t1 & E1 & H1 & Hbc & Hec1 & Hhead & Hother & _).
    rewrite int32_small in Hec1 by lia.
    destruct (IH t1 H1 ltac:(lia) ltac:(lia)) as (t' & E' & H' & Hbc' & Hec' & Hb).
    exists t'. simpl fs_hashtable_insert_all. rewrite E1.
    split; [exact E'|]. split; [exact H'|]. split; [congruence|].
    split; [simpl length; lia|].
    intros h. rewrite Hbc in Hb. rewrite Hb.
    unfold inserted_in_bucket. simpl List.filter.
    destruct (Z.eqb_spec (h0 mod bucket_count t) (h mod bucket_count t)) as [Em|Em].
    + simpl. rewrite <- Em, Hhead, <- app_assoc. reflexivity.
    + rewrite Hother; [reflexivity | | congruence].
      apply Z.mod_pos_bound. apply H.
Qed.

End HashTableContents.

(** X1. After [fs_hashtable_initialize] and any sequence of insertions, the
    iteration for a hash ([iterate_all] false) yields exactly the entries that
    were inserted with a hash of the same bucket ([hash % bucket_count]), the
    latest insertion first, and no entry of another bucket. *)
Theorem fs_hashtable_targeted_iteration_contents {A : Type} (bucket_count : Z)
  (t0 : fs_hashtable_t A) (ins : list (A * Z)) (hash : Z) :
  fs_hashtable_initialize bucket_count = Some t0 ->
  bucket_count <= INT_MAX -> Z.of_nat (length ins) <= INT_MAX ->
  exists t,
    fs_hashtable_insert_all t0 ins = Some t
    /\ iter_yields (fs_hashtable_iterate t hash false)
                   (rev (inserted_in_bucket bucket_count hash ins))
    /\ forall e, e ∈ rev (inserted_in_bucket bucket_count hash ins) ->
                 exists h, (e, h) ∈ ins /\ h mod bucket_count = hash mod bucket_count.
Proof.
  intros Hinit Hmax Hlen.
  destruct (fs_hashtable_initialize_initialized bucket_count t0 Hinit Hmax)
    as (H0 & Hbc0 & Hec0 & Hempty).
  destruct (fs_hashtable_insert_all_buckets ins t0 H0 ltac:(lia) ltac:(lia))
    as (t & E & H & Hbc & _ & Hb).
  exists t. split; [exact E|]. split.
  - destruct (iterate_targeted_pending t hash H) as [Hp Hcb].
    rewrite Hbc, Hb, Hempty, app_nil_r, Hbc0 in Hp. rewrite <- Hp.
    apply iter_yields_pending. exact Hcb.
  - intros e He. apply list_elem_of_In in He. apply in_rev in He.
    unfold inserted_in_bucket in He. apply in_map_iff in He.
    destruct He as ([e' h] & <- & Hin). apply filter_In in Hin.
    destruct Hin as [Hin Hm]. simpl in Hm. exists h. split.
    + apply list_elem_of_In. exact Hin.
    + lia.
Qed.

(** An instance: four buckets, three insertions, two of them in bucket 2. *)
Lemma fs_hashtable_targeted_iteration_contents_witness :
  exists t0 t,
    fs_hashtable_initialize 4 = Some t0
    /\ fs_hashtable_insert_all t0 [(1%nat, 6); (2%nat, 7); (3%nat, 10)] = Some t
    /\ iter_yields (fs_hashtable_iterate t 2 false) [3%nat; 1%nat].
Proof.
  destruct (fs_hashtable_initialize (A := nat) 4) as [t0|] eqn:E0; [|discriminate].
  destruct (fs_hashtable_targeted_iteration_contents 4 t0
              [(1%nat, 6); (2%nat, 7); (3%nat, 10)] 2 E0) as (t & E & Hy & _).
  - unfold INT_MAX. lia.
  - unfold INT_MAX. simpl. lia.
  - exists t0, t. split; [reflexivity|]. split; [exact E | exact Hy].
Defined.

Section HashTableReleaseFacts.

Context {A : Type}.
Implicit Types (t : fs_hashtable_t A) (it : fs_hashtable_iterator_t A).

Lemma free_entries_loop_pending (fuel : nat) it :
  0 <= current_bucket it -> (length (iter_pending it) < fuel)%nat ->
  free_entries_loop fuel it = iter_pending it.
Proof.
  revert it. induction fuel as [|fuel IH]; intros it Hcb Hlen; [lia|].
  simpl. pose proof (fs_hashtable_next_pending it Hcb) as H.
  destruct (fs_hashtable_next it) as [[e|] it'].
  - destruct H as (Hp & Hcb' & _). rewrite Hp in *. simpl in Hlen.
    f_equal. apply IH; [exact Hcb' | lia].
  - destruct H as (Hp & _). rewrite Hp. reflexivity.
Qed.

Lemma fs_hashtable_free_entries_all t :
  hashtable_wf t -> fs_hashtable_free_entries t = concat (buckets t).
Proof.
  intros Hwf. unfold fs_hashtable_free_entries. cbv zeta.
  destruct (iterate_all_pending t 0 true Hwf (or_intror eq_refl)) as [Hp Hcb].
  rewrite free_entries_loop_pending by (exact Hcb || lia). exact Hp.
Qed.

Lemma concat_replicate_nil (n : nat) : concat (replicate n ([] : list A)) = [].
Proof. induction n as [|n IH]; simpl; [reflexivity | exact IH]. Qed.

Lemma fs_hashtable_zeroed_wf : hashtable_wf (fs_hashtable_zeroed (A := A)).
Proof. unfold hashtable_wf, INT_MAX. simpl. lia. Qed.

End HashTableReleaseFacts.

(** X2. The element count of a table is the number of entries it holds:
    after [fs_hashtable_initialize] and [n] insertions (with [n] in the range
    of [int]) it is [n], and the full iteration yields [n] entries, the
    entries inserted, each once. *)
Theorem fs_hashtable_element_count {A : Type} (bucket_count : Z)
  (t0 : fs_hashtable_t A) (ins : list (A * Z)) :
  fs_hashtable_initialize bucket_count = Some t0 ->
  bucket_count <= INT_MAX -> Z.of_nat (length ins) <= INT_MAX ->
  exists t,
    fs_hashtable_insert_all t0 ins = Some t
    /\ element_count t = Z.of_nat (length ins)
    /\ iter_yields (fs_hashtable_iterate t 0 true) (concat (buckets t))
    /\ concat (buckets t) ≡ₚ map fst ins
    /\ Z.of_nat (length (concat (buckets t))) = element_count t.
Proof.
  intros Hinit Hmax Hlen.
  destruct (fs_hashtable_initialize_initialized bucket_count t0 Hinit Hmax)
    as (H0 & Hbc0 & Hec0 & Hempty).
  destruct (fs_hashtable_insert_all_buckets ins t0 H0 ltac:(lia) ltac:(lia))
    as (t & E & H & Hbc & Hec & _).
  destruct (fs_hashtable_insert_all_spec t0 ins H0) as (t' & E' & _ & _ & _ & Hperm).
  rewrite E in E'. injection E' as <-.
  assert (Hnil : concat (buckets t0) = []).
  { unfold fs_hashtable_initialize in Hinit.
    destruct (0 <? bucket_count); [|discriminate]. injection Hinit as <-.
    simpl. apply concat_replicate_nil. }
  rewrite Hnil, app_nil_r in Hperm.
  assert (Hperm' : concat (buckets t) ≡ₚ map fst ins).
  { rewrite Hperm. symmetry. apply Permutation_rev. }
  exists t. split; [exact E|]. split; [lia|]. split.
  - destruct (iterate_all_pending t 0 true (proj1 H) (or_intror eq_refl)) as [<- Hcb].
    apply iter_yields_pending. exact Hcb.
  - split; [exact Hperm'|].
    rewrite (Permutation_length Hperm'), length_map. lia.
Qed.

(** An instance: three insertions into four buckets. *)
Lemma fs_hashtable_element_count_witness :
  exists t0 t,
    fs_hashtable_initialize 4 = Some t0
    /\ fs_hashtable_insert_all t0 [(1%nat, 6); (2%nat, 7); (3%nat, 10)] = Some t
    /\ element_count t = 3.
Proof.
  destruct (fs_hashtable_initialize (A := nat) 4) as [t0|] eqn:E0; [|discriminate].
  destruct (fs_hashtable_element_count 4 t0
              [(1%nat, 6); (2%nat, 7); (3%nat, 10)] E0) as (t & E & Hc & _).
  - unfold INT_MAX. lia.
  - unfold INT_MAX. simpl. lia.
  - exists t0, t. split; [reflexivity|]. split; [exact E | exact Hc].
Defined.

(** X3. [fs_hashtable_reset] on an initialized table releases every stored
    entry exactly once, in bucket order, and leaves an initialized table with
    the same bucket count, no entry and element count 0: its iterations yield
    nothing, a second reset releases nothing and changes nothing, and
    insertion works again. *)
Theorem fs_hashtable_reset_empties {A : Type} (t : fs_hashtable_t A) :
  hashtable_initialized t ->
  let released := fst (fs_hashtable_reset t) in
  let t' := snd (fs_hashtable_reset t) in
  released = concat (buckets t)
  /\ hashtable_initialized t'
  /\ bucket_count t' = bucket_count t
  /\ element_count t' = 0
  /\ (forall h (iterate_all : bool),
        iter_yields (fs_hashtable_iterate t' h iterate_all) [])
  /\ fs_hashtable_reset t' = ([], t')
  /\ (forall entry hash, exists t'',
        fs_hashtable_insert t' entry hash = Some t''
        /\ element_count t'' = 1
        /\ iter_yields (fs_hashtable_iterate t'' hash false) [entry]).
Proof.
  intros H released t'. subst released t'. unfold fs_hashtable_reset. cbn [fst snd].
  set (t' := {| buckets := replicate (Z.to_nat (bucket_count t)) [];
                bucket_count := bucket_count t; element_count := 0 |}).
  assert (H' : hashtable_initialized t').
  { destruct H as [[Hb Hl] Hp]. unfold hashtable_initialized, hashtable_wf. simpl.
    rewrite length_replicate. lia. }
  assert (Hempty : forall i, bucket_at t' i = []).
  { intros i. unfold bucket_at. simpl.
    destruct (replicate _ _ !! _) as [b|] eqn:E; [|reflexivity].
    apply lookup_replicate in E. destruct E as [-> _]. reflexivity. }
  assert (Hnil : concat (buckets t') = []) by apply concat_replicate_nil.
  split; [apply fs_hashtable_free_entries_all; apply H|].
  split; [exact H'|]. split; [reflexivity|]. split; [reflexivity|]. split.
  { intros h [|].
    - destruct (iterate_all_pending t' h true (proj1 H') (or_intror eq_refl))
        as [Hp Hcb].
      rewrite Hnil in Hp. rewrite <- Hp. apply iter_yields_pending. exact Hcb.
    - destruct (iterate_targeted_pending t' h H') as [Hp Hcb].
      rewrite Hempty in Hp. rewrite <- Hp. apply iter_yields_pending. exact Hcb. }
  split.
  { rewrite fs_hashtable_free_entries_all by apply H'. rewrite Hnil. reflexivity. }
  intros entry hash.
  destruct (fs_hashtable_insert_spec t' entry hash H')
    as (t'' & E & H'' & Hbc & Hec & Hhead & _).
  exists t''. split; [exact E|]. split; [rewrite Hec; reflexivity|].
  destruct (iterate_targeted_pending t'' hash H'') as [Hp Hcb].
  rewrite Hbc, Hhead, Hempty in Hp. rewrite <- Hp.
  apply iter_yields_pending. exact Hcb.
Qed.

(** An instance: a table of two buckets holding three entries. *)
Lemma fs_hashtable_reset_empties_witness :
  let t := {| buckets := [[5%nat; 3%nat]; [4%nat]]; bucket_count := 2;
              element_count := 3 |} in
  hashtable_initialized t
  /\ fst (fs_hashtable_reset t) = [5%nat; 3%nat; 4%nat].
Proof.
  intros t.
  assert (H : hashtable_initialized t).
  { unfold hashtable_initialized, hashtable_wf, INT_MAX. simpl. lia. }
  split; [exact H|].
  destruct (fs_hashtable_reset_empties t H) as (E & _). exact E.
Defined.

(** X4. [fs_hashtable_free] is valid for an initialized table and for a
    zeroed one: it releases every stored entry once and leaves the zeroed
    table, on which iteration yields nothing, another free releases nothing,
    and [fs_hashtable_insert] fails its assertion. *)
Theorem fs_hashtable_free_zeroes {A : Type} (t : fs_hashtable_t A) :
  hashtable_wf t ->
  fs_hashtable_free t = (concat (buckets t), fs_hashtable_zeroed)
  /\ fs_hashtable_free (fs_hashtable_zeroed (A := A)) = ([], fs_hashtable_zeroed)
  /\ (forall h (iterate_all : bool),
        iter_yields (fs_hashtable_iterate (fs_hashtable_zeroed (A := A)) h iterate_all) [])
  /\ (forall entry hash,
        fs_hashtable_insert (fs_hashtable_zeroed (A := A)) entry hash = None).
Proof.
  intros Hwf. unfold fs_hashtable_free.
  rewrite fs_hashtable_free_entries_all by exact Hwf.
  rewrite fs_hashtable_free_entries_all by apply fs_hashtable_zeroed_wf.
  split; [reflexivity|]. split; [reflexivity|]. split.
  - intros h all.
    destruct (iterate_all_pending (fs_hashtable_zeroed (A := A)) h all
                fs_hashtable_zeroed_wf (or_introl eq_refl)) as [Hp Hcb].
    simpl concat in Hp. rewrite <- Hp. apply iter_yields_pending. exact Hcb.
  - intros entry hash. reflexivity.
Qed.

(** An instance: the same table of two buckets. *)
Lemma fs_hashtable_free_zeroes_witness :
  fs_hashtable_free {| buckets := [[5%nat; 3%nat]; [4%nat]]; bucket_count := 2;
                       element_count := 3 |}
  = ([5%nat; 3%nat; 4%nat], fs_hashtable_zeroed).
Proof.
  apply (fs_hashtable_free_zeroes
           {| buckets := [[5%nat; 3%nat]; [4%nat]]; bucket_count := 2;
              element_count := 3 |}).
  unfold hashtable_wf, INT_MAX. simpl. lia.
Defined.

(** ** Pk3 list: set-up, positions, release *)

Lemma list_position_at (l : list Z) (h : Z) :
  list_position l h <> 0 -> l !! Z.to_nat (list_position l h - 1) = Some h.
Proof.
  induction l as [|x l IH]; simpl; [congruence|].
  destruct (Z.eqb_spec x h) as [->|Hne]; [reflexivity|].
  pose proof (list_position_range l h) as Hr.
  destruct (Z.eqb_spec (list_position l h) 0) as [E|E]; [congruence|].
  intros _. replace (Z.to_nat (list_position l h + 1 - 1))
    with (S (Z.to_nat (list_position l h - 1))) by lia.
  simpl. apply IH. exact E.
Qed.

Lemma insertion_order_keeps_NoDup (hashes order : list Z) :
  NoDup order -> NoDup (insertion_order order hashes).
Proof.
  revert order. induction hashes as [|x hashes IH]; intros order Hnd; simpl.
  - exact Hnd.
  - apply IH. destruct (Z.eqb_spec (list_position order x) 0) as [E|E]; [|exact Hnd].
    apply NoDup_app. split; [exact Hnd|]. split.
    + intros y Hy Hyx. apply list_elem_of_singleton in Hyx. subst y.
      apply list_position_zero in E. contradiction.
    + apply NoDup_singleton.
Qed.

Lemma insertion_order_from (hashes order : list Z) (x : Z) :
  x ∈ insertion_order order hashes -> x ∈ order \/ x ∈ hashes.
Proof.
  revert order. induction hashes as [|y hashes IH]; intros order Hx; simpl in Hx.
  - left. exact Hx.
  - destruct (IH _ Hx) as [H|H].
    + destruct (list_position order y =? 0); [|left; exact H].
      apply elem_of_app in H. destruct H as [H|H]; [left; exact H|].
      apply list_elem_of_singleton in H. subst. right. apply elem_of_cons. left. reflexivity.
    + right. apply elem_of_cons. right. exact H.
Qed.

Lemma pk3_entries_of_snoc (order : list Z) (h : Z) :
  list_position order h = 0 ->
  pk3_entries_of (order ++ [h])
  = pk3_entries_of order
    ++ [{| entry_hash := h; entry_position := Z.of_nat (length order) + 1 |}].
Proof.
  intros E. unfold pk3_entries_of. rewrite map_app. simpl. f_equal.
  - apply map_ext_in. intros x Hx. f_equal. rewrite list_position_snoc.
    destruct (Z.eqb_spec (list_position order x) 0) as [Ex|Ex]; [|reflexivity].
    apply list_position_zero in Ex. apply list_elem_of_In in Hx. contradiction.
  - rewrite list_position_snoc, E. simpl. rewrite Z.eqb_refl. reflexivity.
Qed.

(** The entries stored: one for each distinct hash, with its position. *)
Lemma pk3_list_insert_all_entries (hashes : list Z) (pl : pk3_list_t) (order : list Z) :
  pk3_inv pl order ->
  concat (buckets (pk3_ht pl)) ≡ₚ pk3_entries_of order ->
  Z.of_nat (length order) + Z.of_nat (length hashes) <= INT_MAX ->
  exists pl',
    pk3_list_insert_all pl hashes = Some pl'
    /\ pk3_inv pl' (insertion_order order hashes)
    /\ concat (buckets (pk3_ht pl')) ≡ₚ pk3_entries_of (insertion_order order hashes).
Proof.
  revert pl order. induction hashes as [|h hashes IH]; intros pl order Hinv Hperm Hlen.
  - exists pl. repeat split; try apply Hinv. exact Hperm.
  - simpl length in Hlen. simpl pk3_list_insert_all. simpl insertion_order.
    destruct (pk3_list_insert_inv pl order h Hinv ltac:(lia)) as (pl1 & E1 & Hinv1).
    rewrite E1. apply IH; [exact Hinv1 | |].
    + unfold pk3_list_insert in E1. destruct Hinv as (Hi & Hc & Hl).
      rewrite Hl in E1.
      destruct (Z.eqb_spec (list_position order h) 0) as [E|E]; simpl negb in E1;
        cbv iota in E1.
      * destruct (fs_hashtable_insert_spec (pk3_ht pl)
                    {| entry_hash := h;
                       entry_position := int32 (element_count (pk3_ht pl) + 1) |}
                    h Hi) as (t' & Et & _ & _ & _ & _ & _ & Hp).
        rewrite Et in E1. injection E1 as <-. simpl pk3_ht.
        rewrite Hp, Hperm, pk3_entries_of_snoc by exact E.
        rewrite Hc, int32_small by lia.
        rewrite Permutation_app_comm. reflexivity.
      * injection E1 as <-. exact Hperm.
    + destruct (list_position order h =? 0); [rewrite length_app; simpl|]; lia.
Qed.

Lemma pk3_list_initialize_entries (bucket_count : Z) (pl0 : pk3_list_t) :
  pk3_list_initialize bucket_count = Some pl0 ->
  concat (buckets (pk3_ht pl0)) = [].
Proof.
  unfold pk3_list_initialize, fs_hashtable_initialize.
  destruct (0 <? int32 bucket_count); [|discriminate].
  intros [= <-]. simpl. apply concat_replicate_nil.
Qed.

(** X5. [pk3_list_initialize], called with an [unsigned int] bucket count,
    succeeds exactly when the count is between 1 and [INT_MAX]: 0 and the
    counts that turn negative as [int] fail the assertion of
    [fs_hashtable_initialize].  The list it sets up is empty: every lookup
    returns 0. *)
Theorem pk3_list_initialize_succeeds_iff (count : Z) :
  0 <= count <= UINT_MAX ->
  (is_Some (pk3_list_initialize count) <-> 1 <= count <= INT_MAX)
  /\ forall pl, pk3_list_initialize count = Some pl ->
       bucket_count (pk3_ht pl) = count
       /\ element_count (pk3_ht pl) = 0
       /\ forall h, pk3_list_lookup pl h = 0.
Proof.
  intros Hc. split.
  - unfold pk3_list_initialize, fs_hashtable_initialize, int32.
    rewrite u32_small by exact Hc. unfold INT_MAX, UINT_MAX in *.
    destruct (Z.leb_spec count 2147483647) as [Hle|Hgt].
    + destruct (Z.ltb_spec 0 count) as [Hp|Hn].
      * split; [lia | intros _; eexists; reflexivity].
      * split; [intros [x Hx]; discriminate | lia].
    + destruct (Z.ltb_spec 0 (count - 4294967296)) as [Hp|Hn]; [lia|].
      split; [intros [x Hx]; discriminate | lia].
  - intros pl Hinit.
    destruct (pk3_list_initialize_inv count pl Hinit) as (Hi & Hec & Hl).
    split; [|split; [exact Hec | exact Hl]].
    unfold pk3_list_initialize, fs_hashtable_initialize in Hinit.
    destruct (Z.ltb_spec 0 (int32 count)) as [Hp|]; [|discriminate].
    injection Hinit as <-. simpl. unfold int32 in *.
    rewrite u32_small in * by exact Hc. unfold INT_MAX, UINT_MAX in *.
    destruct (Z.leb_spec count 2147483647); lia.
Qed.

(** An instance: 64 buckets. *)
Lemma pk3_list_initialize_succeeds_iff_witness :
  is_Some (pk3_list_initialize 64).
Proof.
  apply (pk3_list_initialize_succeeds_iff 64); unfold UINT_MAX, INT_MAX; lia.
Defined.

(** X6. In a pk3 list filled by insertions, the positions number the
    distinct hashes: every lookup is between 0 and the element count, two
    hashes with the same nonzero position are the same hash, and every
    position from 1 to the element count belongs to one of the hashes
    inserted. *)
Theorem pk3_list_positions_number_hashes (count : Z) (pl0 : pk3_list_t)
  (hashes : list Z) :
  pk3_list_initialize count = Some pl0 ->
  Z.of_nat (length hashes) <= INT_MAX ->
  exists pl,
    pk3_list_insert_all pl0 hashes = Some pl
    /\ (forall h, 0 <= pk3_list_lookup pl h <= element_count (pk3_ht pl))
    /\ element_count (pk3_ht pl) <= Z.of_nat (length hashes)
    /\ (forall h1 h2, pk3_list_lookup pl h1 = pk3_list_lookup pl h2 ->
                      pk3_list_lookup pl h1 <> 0 -> h1 = h2)
    /\ (forall p, 1 <= p <= element_count (pk3_ht pl) ->
                  exists h, h ∈ hashes /\ pk3_list_lookup pl h = p).
Proof.
  intros Hinit Hlen.
  pose proof (pk3_list_initialize_inv count pl0 Hinit) as Hinv0.
  destruct (pk3_list_insert_all_inv hashes pl0 [] Hinv0 ltac:(simpl; lia))
    as (pl & Eall & (Hi & Hc & Hl)).
  exists pl. split; [exact Eall|]. split.
  { intros h. rewrite Hl, Hc. apply list_position_range. }
  split.
  { rewrite Hc. pose proof (insertion_order_length hashes []). simpl in *. lia. }
  split.
  { intros h1 h2 E Hn. rewrite !Hl in *.
    pose proof (list_position_at _ h1 Hn) as H1.
    rewrite E in Hn. pose proof (list_position_at _ h2 Hn) as H2.
    rewrite E in H1. congruence. }
  intros p Hp. rewrite Hc in Hp.
  destruct (lookup_lt_is_Some_2 (insertion_order [] hashes) (Z.to_nat (p - 1))
              ltac:(lia)) as [h Eh].
  exists h. split.
  - destruct (insertion_order_from hashes [] h) as [H|H]; [|inversion H|exact H].
    apply list_elem_of_lookup. eauto.
  - rewrite Hl.
    rewrite (list_position_lookup _ (Z.to_nat (p - 1)) h); [lia | | exact Eh].
    apply insertion_order_keeps_NoDup. constructor.
Qed.

(** An instance: four buckets, the hashes 10, 6, 10, 3. *)
Lemma pk3_list_positions_number_hashes_witness :
  exists pl0 pl,
    pk3_list_initialize 4 = Some pl0
    /\ pk3_list_insert_all pl0 [10; 6; 10; 3] = Some pl
    /\ element_count (pk3_ht pl) <= 4.
Proof.
  destruct (pk3_list_initialize 4) as [pl0|] eqn:E0; [|discriminate].
  destruct (pk3_list_positions_number_hashes 4 pl0 [10; 6; 10; 3] E0)
    as (pl & Eall & _ & Hc & _).
  { unfold INT_MAX. simpl. lia. }
  exists pl0, pl. split; [reflexivity|]. split; [exact Eall | exact Hc].
Defined.

(** X7. [pk3_list_free] on a list filled by insertions releases one entry
    for each distinct hash inserted, the entry holding the hash and the
    position its lookup returned; afterwards the list is zeroed: every lookup
    returns 0 and an insertion fails the assertion until the list is
    initialized again. *)
Theorem pk3_list_free_releases (count : Z) (pl0 : pk3_list_t) (hashes : list Z) :
  pk3_list_initialize count = Some pl0 ->
  Z.of_nat (length hashes) <= INT_MAX ->
  exists pl,
    pk3_list_insert_all pl0 hashes = Some pl
    /\ Z.of_nat (length (fst (pk3_list_free pl))) = element_count (pk3_ht pl)
    /\ (forall e, e ∈ fst (pk3_list_free pl) ->
                  entry_hash e ∈ hashes
                  /\ entry_position e <> 0
                  /\ pk3_list_lookup pl (entry_hash e) = entry_position e)
    /\ (forall h, h ∈ hashes ->
                  exists e, e ∈ fst (pk3_list_free pl) /\ entry_hash e = h)
    /\ NoDup (map entry_hash (fst (pk3_list_free pl)))
    /\ (forall h, pk3_list_lookup (snd (pk3_list_free pl)) h = 0)
    /\ (forall h, pk3_list_insert (snd (pk3_list_free pl)) h = None).
Proof.
  intros Hinit Hlen.
  pose proof (pk3_list_initialize_inv count pl0 Hinit) as Hinv0.
  assert (Hperm0 : concat (buckets (pk3_ht pl0)) ≡ₚ pk3_entries_of [])
    by (rewrite (pk3_list_initialize_entries count pl0 Hinit); reflexivity).
  destruct (pk3_list_insert_all_entries hashes pl0 [] Hinv0 Hperm0 ltac:(simpl; lia))
    as (pl & Eall & (Hi & Hc & Hl) & Hperm).
  set (order := insertion_order [] hashes) in *.
  assert (Hnd : NoDup order) by (apply insertion_order_keeps_NoDup; constructor).
  assert (Hfree : fst (pk3_list_free pl) = concat (buckets (pk3_ht pl))).
  { unfold pk3_list_free, fs_hashtable_free. cbn [fst].
    apply fs_hashtable_free_entries_all. apply Hi. }
  assert (Hsnd : snd (pk3_list_free pl) = {| pk3_ht := fs_hashtable_zeroed |})
    by reflexivity.
  exists pl. split; [exact Eall|]. rewrite Hfree, Hsnd. split.
  { rewrite (Permutation_length Hperm). unfold pk3_entries_of.
    rewrite length_map. lia. }
  split.
  { intros e He. rewrite Hperm in He. unfold pk3_entries_of in He.
    apply list_elem_of_In in He. apply in_map_iff in He.
    destruct He as (h & <- & Hin). simpl. apply list_elem_of_In in Hin.
    split.
    - destruct (insertion_order_from hashes [] h Hin) as [H|H]; [inversion H|exact H].
    - split; [|apply Hl]. intros E. apply list_position_zero in E. contradiction. }
  split.
  { intros h Hin.
    exists {| entry_hash := h; entry_position := list_position order h |}.
    split; [|reflexivity]. rewrite Hperm. unfold pk3_entries_of.
    apply list_elem_of_In. apply in_map_iff. exists h. split; [reflexivity|].
    apply list_elem_of_In.
    pose proof (insertion_order_present hashes [] h Hin) as Hp.
    fold order in Hp.
    destruct (decide (h ∈ order)) as [Ho|Ho]; [exact Ho|].
    apply list_position_zero in Ho. contradiction. }
  split.
  { rewrite Hperm. unfold pk3_entries_of. rewrite map_map. simpl.
    rewrite map_id. exact Hnd. }
  split; intros h; reflexivity.
Qed.

(** An instance: four buckets, the hashes 10, 6, 10, 3. *)
Lemma pk3_list_free_releases_witness :
  exists pl0 pl,
    pk3_list_initialize 4 = Some pl0
    /\ pk3_list_insert_all pl0 [10; 6; 10; 3] = Some pl
    /\ Z.of_nat (length (fst (pk3_list_free pl))) = element_count (pk3_ht pl).
Proof.
  destruct (pk3_list_initialize 4) as [pl0|] eqn:E0; [|discriminate].
  destruct (pk3_list_free_releases 4 pl0 [10; 6; 10; 3] E0)
    as (pl & Eall & Hc & _).
  { unfold INT_MAX. simpl. lia. }
  exists pl0, pl. split; [reflexivity|]. split; [exact Eall | exact Hc].
Defined.

(** ** File names *)

Lemma char_code_range (c : ascii) : 0 <= char_code c < 256.
Proof. unfold char_code. pose proof (N_ascii_bounded c). lia. Qed.

Lemma filename_fold_zero (c : Z) : 0 <= c < 256 -> (filename_fold c = 0 <-> c = 0).
Proof.
  intros Hc. unfold filename_fold. change (char_code "a") with 97.
  change (char_code "z") with 122. change (char_code "A") with 65.
  destruct ((97 <=? c) && (c <=? 122)) eqn:E.
  - destruct ((c - (97 - 65) =? 92) || (c - (97 - 65) =? 58)) eqn:E2; lia.
  - destruct ((c =? 92) || (c =? 58)) eqn:E2; lia.
Qed.

Lemma FS_FilenameCompare_codes (s1 s2 : string) :
  FS_FilenameCompare s1 s2 = false
  <-> map filename_fold (c_codes s1) = map filename_fold (c_codes s2).
Proof.
  assert (F0 : filename_fold 0 = 0) by reflexivity.
  revert s2. induction s1 as [|a s1 IH]; intros s2.
  - cbn [FS_FilenameCompare c_codes map]. rewrite F0.
    destruct s2 as [|b s2]; cbn [head_code c_codes map].
    + rewrite F0. split; reflexivity.
    + pose proof (filename_fold_zero (char_code b) (char_code_range b)) as Hz.
      destruct (Z.eqb_spec (char_code b) 0) as [E|E].
      * rewrite E, F0. split; reflexivity.
      * destruct (Z.eqb_spec 0 (filename_fold (char_code b))) as [E2|E2].
        -- symmetry in E2. apply Hz in E2. contradiction.
        -- cbn [negb map]. split; discriminate.
  - cbn [FS_FilenameCompare c_codes].
    pose proof (filename_fold_zero (char_code a) (char_code_range a)) as Hza.
    destruct s2 as [|b s2]; cbn [head_code string_tail c_codes].
    + rewrite F0.
      destruct (Z.eqb_spec (char_code a) 0) as [E|E].
      * rewrite E, F0. split; reflexivity.
      * destruct (Z.eqb_spec (filename_fold (char_code a)) 0) as [E2|E2].
        -- apply Hza in E2. contradiction.
        -- cbn [negb map]. split; discriminate.
    + pose proof (filename_fold_zero (char_code b) (char_code_range b)) as Hzb.
      destruct (Z.eqb_spec (filename_fold (char_code a)) (filename_fold (char_code b)))
        as [E|E]; cbn [negb].
      * destruct (Z.eqb_spec (filename_fold (char_code a)) 0) as [E0|E0].
        -- assert (Ha : char_code a = 0) by (apply Hza; exact E0).
           assert (Hb : char_code b = 0) by (apply Hzb; congruence).
           destruct (Z.eqb_spec (char_code a) 0); [|contradiction].
           destruct (Z.eqb_spec (char_code b) 0); [|contradiction].
           split; reflexivity.
        -- assert (Ha : char_code a <> 0) by (intros Hc; apply E0; apply Hza; exact Hc).
           assert (Hb : char_code b <> 0)
             by (intros Hc; apply E0; rewrite E; apply Hzb; exact Hc).
           destruct (Z.eqb_spec (char_code a) 0); [contradiction|].
           destruct (Z.eqb_spec (char_code b) 0); [contradiction|].
           cbn [map]. rewrite IH. split; [intros ->; rewrite E; reflexivity|].
           intros Hm. injection Hm as _ Ht. exact Ht.
      * split; [discriminate|]. intros Hm. exfalso.
        destruct (Z.eqb_spec (char_code a) 0) as [Ea|Ea];
          destruct (Z.eqb_spec (char_code b) 0) as [Eb|Eb]; cbn [map] in Hm.
        -- apply E. rewrite Ea, Eb. reflexivity.
        -- discriminate.
        -- discriminate.
        -- injection Hm as Hm _. contradiction.
Qed.

(** X8. [FS_FilenameCompare] tests an equivalence of file names: it returns
    [qfalse] exactly when the two C strings have the same characters once
    lowercase letters are read as uppercase and backslashes and colons as
    slashes; so a name equals itself, the order of the arguments does not
    matter, and names equal to a third one are equal. *)
Theorem FS_FilenameCompare_equivalence (s1 s2 s3 : string) :
  (FS_FilenameCompare s1 s2 = false
   <-> map filename_fold (c_codes s1) = map filename_fold (c_codes s2))
  /\ FS_FilenameCompare s1 s1 = false
  /\ FS_FilenameCompare s1 s2 = FS_FilenameCompare s2 s1
  /\ (FS_FilenameCompare s1 s2 = false -> FS_FilenameCompare s2 s3 = false ->
      FS_FilenameCompare s1 s3 = false).
Proof.
  split; [apply FS_FilenameCompare_codes|]. split.
  { apply FS_FilenameCompare_codes. reflexivity. }
  split.
  { destruct (FS_FilenameCompare s1 s2) eqn:E12;
      destruct (FS_FilenameCompare s2 s1) eqn:E21; try reflexivity.
    - apply FS_FilenameCompare_codes in E21. symmetry in E21.
      apply FS_FilenameCompare_codes in E21. congruence.
    - apply FS_FilenameCompare_codes in E12. symmetry in E12.
      apply FS_FilenameCompare_codes in E12. congruence. }
  intros H12 H23. apply FS_FilenameCompare_codes.
  apply FS_FilenameCompare_codes in H12. apply FS_FilenameCompare_codes in H23.
  congruence.
Qed.

Lemma idpak_loop_spec (n : nat) (i numPaks : Z) (pak base : string) :
  0 <= i -> n = Z.to_nat (numPaks - i) ->
  let r := idpak_loop n i numPaks pak base in
  i <= r
  /\ (forall j, i <= j < r -> j < numPaks
                /\ FS_FilenameCompare pak (va_pak base j) = true)
  /\ (r < numPaks -> FS_FilenameCompare pak (va_pak base r) = false)
  /\ (numPaks <= r -> r = Z.max i numPaks).
Proof.
  revert i. induction n as [|n IH]; intros i Hi Hn; simpl.
  - repeat split; intros; lia.
  - destruct (Z.ltb_spec i numPaks) as [Hlt|Hge]; [|lia].
    destruct (FS_FilenameCompare pak (va_pak base i)) eqn:E; simpl negb; cbv iota.
    + destruct (IH (i + 1) ltac:(lia) ltac:(lia)) as (H1 & H2 & H3 & H4).
      split; [lia|]. split; [|split; [exact H3 | intros Hr; specialize (H4 Hr); lia]].
      intros j Hj. destruct (Z.eq_dec j i) as [->|Hne].
      * split; [exact Hlt | exact E].
      * apply H2. lia.
    + repeat split; try lia. intros _. exact E.
Qed.

(** X9. [FS_idPak] returns [qtrue] exactly when the name equals, in the
    sense of [FS_FilenameCompare], one of [base/pak0] ... [base/pak(numPaks-1)];
    it returns [qfalse] when [numPaks] is zero or negative. *)
Theorem FS_idPak_spec (pak base : string) (numPaks : Z) :
  (FS_idPak pak base numPaks = true
   <-> exists i, 0 <= i < numPaks
                 /\ FS_FilenameCompare pak (va_pak base i) = false)
  /\ (numPaks <= 0 -> FS_idPak pak base numPaks = false).
Proof.
  unfold FS_idPak.
  destruct (idpak_loop_spec (Z.to_nat numPaks) 0 numPaks pak base
              ltac:(lia) ltac:(f_equal; lia)) as (H1 & H2 & H3 & H4).
  split.
  - split.
    + intros Hlt. apply Z.ltb_lt in Hlt. eexists. split; [|apply H3; exact Hlt]. lia.
    + intros (i & Hi & Ei). apply Z.ltb_lt.
      destruct (Z.lt_ge_cases (idpak_loop (Z.to_nat numPaks) 0 numPaks pak base)
                              numPaks) as [Hlt|Hge]; [exact Hlt|].
      exfalso. destruct (H2 i ltac:(lia)) as [_ Hc]. congruence.
  - intros Hn. apply Z.ltb_ge. lia.
Qed.

(** ** The core pak table and the servercfg directories *)

Lemma process_paks_position (hash : Z) (hashes : list Z) (i : Z) :
  process_paks hash hashes i =
  if list_position hashes hash =? 0 then None
  else Some (i + list_position hashes hash).
Proof.
  revert i. induction hashes as [|h hashes IH]; intros i; simpl; [reflexivity|].
  rewrite (Z.eqb_sym hash h). destruct (Z.eqb_spec h hash) as [E|E].
  - reflexivity.
  - rewrite IH. pose proof (list_position_range hashes hash).
    destruct (Z.eqb_spec (list_position hashes hash) 0) as [E0|E0]; [reflexivity|].
    destruct (Z.eqb_spec (list_position hashes hash + 1) 0); [lia|].
    f_equal. lia.
Qed.

Lemma process_paks_default (hash : Z) (hashes : list Z) :
  default 0 (process_paks hash hashes 0) = list_position hashes hash.
Proof.
  rewrite process_paks_position.
  destruct (Z.eqb_spec (list_position hashes hash) 0) as [E|E]; simpl; lia.
Qed.

Section CorePakPosition.

Context `{X : fs_externals}.
Variable G : fs_globals.

(** X10. [core_pk3_position] returns the position, counted from 1, of the
    first occurrence of the hash in the table in use (the Team Arena table
    when it is defined and the current game directory is [BASETA], the base
    table otherwise) and 0 exactly when the hash is not in that table; the
    element at that position is the hash, and the base table is not consulted
    in the Team Arena case. *)
Theorem core_pk3_position_spec (hash : Z) :
  let table := selected_core_paks G in
  core_pk3_position G hash = list_position table hash
  /\ (core_pk3_position G hash = 0 <-> hash ∉ table)
  /\ 0 <= core_pk3_position G hash <= Z.of_nat (length table)
  /\ (core_pk3_position G hash <> 0 ->
      table !! Z.to_nat (core_pk3_position G hash - 1) = Some hash).
Proof.
  cbv zeta.
  assert (E : core_pk3_position G hash = list_position (selected_core_paks G) hash).
  { unfold core_pk3_position, selected_core_paks.
    destruct FS_CORE_PAKS_TEAMARENA as [ta|]; destruct FS_CORE_PAKS as [paks|];
      try destruct (Q_stricmp (current_game_dir G) BASETA =? 0);
      rewrite ?process_paks_default; reflexivity. }
  rewrite E. split; [reflexivity|]. split; [apply list_position_zero|].
  split; [apply list_position_range | apply list_position_at].
Qed.

Lemma servercfg_parse_spec (tokens folders : list string) :
  Z.of_nat (length folders) <= MAX_SERVERCFG_FOLDERS ->
  servercfg_parse tokens folders =
  (folders ++ map (fun token => Q_strncpyz token FSC_MAX_MODDIR)
                  (take (Z.to_nat MAX_SERVERCFG_FOLDERS - length folders) tokens),
   Z.of_nat (Z.to_nat MAX_SERVERCFG_FOLDERS - length folders)
   <? Z.of_nat (length tokens)).
Proof.
  unfold MAX_SERVERCFG_FOLDERS.
  revert folders. induction tokens as [|token tokens IH]; intros folders Hlen.
  - simpl. rewrite take_nil. simpl. rewrite app_nil_r.
    f_equal. symmetry. apply Z.ltb_ge. lia.
  - cbn [servercfg_parse]. unfold MAX_SERVERCFG_FOLDERS.
    destruct (Z.leb_spec 32 (Z.of_nat (length folders))) as [Hfull|Hroom].
    + replace (Z.to_nat 32 - length folders)%nat with 0%nat by lia.
      simpl. rewrite app_nil_r. f_equal.
    + rewrite IH by (rewrite length_app; simpl; lia).
      rewrite length_app. simpl length.
      replace (Z.to_nat 32 - length folders)%nat
        with (S (Z.to_nat 32 - (length folders + 1)))%nat by lia.
      cbn [take map]. rewrite <- app_assoc. cbn [app]. f_equal.
      destruct (Z.ltb_spec (Z.of_nat (Z.to_nat 32 - (length folders + 1)))
                           (Z.of_nat (length tokens)));
        destruct (Z.ltb_spec (Z.of_nat (S (Z.to_nat 32 - (length folders + 1))))
                             (Z.of_nat (S (length tokens)))); try reflexivity; lia.
Qed.

(** X11. [fs_servercfg_update_state] does nothing when the modification
    count of the cvar is the one it recorded.  Otherwise it records the count
    and rebuilds the directory list as the bounded copies of the first 32
    tokens of the cvar string, printing "MAX_SERVERCFG_FOLDERS hit" exactly
    when there are more than 32 tokens.  The list never holds more than
    [MAX_SERVERCFG_FOLDERS] directories afterwards. *)
Theorem fs_servercfg_update_state_bounded (st : fs_state) :
  let st' := snd (fs_servercfg_update_state G st) in
  let tokens := COM_ParseExt_tokens (fs_servercfg_string G) in
  (fs_servercfg_modificationCount G = servercfg_cvar_mod_count st -> st' = st)
  /\ (fs_servercfg_modificationCount G <> servercfg_cvar_mod_count st ->
      servercfg_cvar_mod_count st' = fs_servercfg_modificationCount G
      /\ servercfg_folders st' =
         map (fun token => Q_strncpyz token FSC_MAX_MODDIR)
             (take (Z.to_nat MAX_SERVERCFG_FOLDERS) tokens)
      /\ events st' =
         events st ++
         (if MAX_SERVERCFG_FOLDERS <? Z.of_nat (length tokens)
          then [Ev_print Print_max_servercfg_folders] else []))
  /\ (Z.of_nat (length (servercfg_folders st)) <= MAX_SERVERCFG_FOLDERS ->
      Z.of_nat (length (servercfg_folders st')) <= MAX_SERVERCFG_FOLDERS).
Proof.
  cbv zeta. unfold fs_servercfg_update_state.
  rewrite (servercfg_parse_spec _ []) by (simpl; unfold MAX_SERVERCFG_FOLDERS; lia).
  destruct (Z.eqb_spec (fs_servercfg_modificationCount G) (servercfg_cvar_mod_count st))
    as [E|E]; cbn [negb snd].
  - split; [reflexivity|]. split; [contradiction|]. intros H. exact H.
  - cbn [length app servercfg_cvar_mod_count servercfg_folders events].
    rewrite Nat.sub_0_r. split; [contradiction|]. split.
    + intros _. split; [reflexivity|]. split; [reflexivity|].
      rewrite Z2Nat.id by (unfold MAX_SERVERCFG_FOLDERS; lia). reflexivity.
    + intros _. rewrite length_map, length_take. unfold MAX_SERVERCFG_FOLDERS. lia.
Qed.

Lemma servercfg_search_none (mod_dir : string) (folders : list string) (i count : Z) :
  (forall folder, folder ∈ folders -> Q_stricmp mod_dir folder <> 0) ->
  servercfg_search mod_dir folders i count = 0.
Proof.
  revert i. induction folders as [|folder folders IH]; intros i H; simpl.
  - reflexivity.
  - destruct (Z.eqb_spec (Q_stricmp mod_dir folder) 0) as [E|E].
    + exfalso. apply (H folder); [left | exact E].
    + apply IH. intros f Hf. apply H. right. exact Hf.
Qed.

Lemma servercfg_search_first (mod_dir : string) (folders : list string) (i count : Z)
  (k : nat) :
  servercfg_first_match folders mod_dir k ->
  servercfg_search mod_dir folders i count = count - i - Z.of_nat k.
Proof.
  revert i k. induction folders as [|folder folders IH]; intros i k [(f & Hf & Ef) Hb].
  - rewrite lookup_nil in Hf. discriminate.
  - simpl. destruct k as [|k].
    + simpl in Hf. injection Hf as ->. rewrite Ef. simpl. lia.
    + destruct (Z.eqb_spec (Q_stricmp mod_dir folder) 0) as [E|E].
      * exfalso. apply (Hb 0%nat folder); [lia | reflexivity | exact E].
      * rewrite (IH (i + 1) k); [lia|]. split.
        -- exists f. split; [exact Hf | exact Ef].
        -- intros j f' Hj Hf'. apply (Hb (S j) f'); [lia | exact Hf'].
Qed.

Lemma servercfg_search_found (mod_dir : string) (folders : list string) (i count : Z) :
  servercfg_search mod_dir folders i count = 0
  \/ exists k, servercfg_first_match folders mod_dir k.
Proof.
  revert i. induction folders as [|folder folders IH]; intros i; simpl.
  - left. reflexivity.
  - destruct (Z.eqb_spec (Q_stricmp mod_dir folder) 0) as [E|E].
    + right. exists 0%nat. split.
      * exists folder. split; [reflexivity | exact E].
      * intros j f Hj. lia.
    + destruct (IH (i + 1)) as [H0 | (k & (f & Hf & Ef) & Hb)]; [left; exact H0|].
      right. exists (S k). split.
      * exists f. split; [exact Hf | exact Ef].
      * intros j f' Hj Hf'. destruct j as [|j].
        -- simpl in Hf'. injection Hf' as <-. exact E.
        -- apply (Hb j f'); [lia | exact Hf'].
Qed.

Lemma servercfg_first_match_exists (mod_dir : string) (folders : list string)
  (folder : string) :
  folder ∈ folders -> Q_stricmp mod_dir folder = 0 ->
  exists k, servercfg_first_match folders mod_dir k.
Proof.
  intros Hin Ef. induction folders as [|f0 l IH].
  - apply elem_of_nil in Hin. contradiction.
  - destruct (Z.eq_dec (Q_stricmp mod_dir f0) 0) as [E0|E0].
    + exists 0%nat. split; [exists f0; split; [reflexivity | exact E0]|].
      intros j f Hj. lia.
    + apply elem_of_cons in Hin. destruct Hin as [->|Hin]; [contradiction|].
      destruct (IH Hin) as (k & (f & Hf & Ef') & Hb). exists (S k). split.
      * exists f. split; [exact Hf | exact Ef'].
      * intros j f' Hj Hf'. destruct j as [|j].
        -- simpl in Hf'. injection Hf' as <-. exact E0.
        -- apply (Hb j f'); [lia | exact Hf'].
Qed.

(** X12. [fs_servercfg_priority] returns 0 exactly when no directory of the
    servercfg list equals [mod_dir] ([Q_stricmp]); when the first directory
    equal to it has index [k], it returns the length of the list minus [k].
    The value lies between 0 and the length of the list, and of two
    directories the one matched earlier in the list gets the strictly higher
    value. *)
Theorem fs_servercfg_priority_order (mod_dir mod_dir' : string) (st : fs_state) :
  let folders := effective_folders G st in
  let priority := fst (fs_servercfg_priority G mod_dir st) in
  let priority' := fst (fs_servercfg_priority G mod_dir' st) in
  0 <= priority <= Z.of_nat (length folders)
  /\ (priority = 0 <->
      forall folder, folder ∈ folders -> Q_stricmp mod_dir folder <> 0)
  /\ (forall k, servercfg_first_match folders mod_dir k ->
                priority = Z.of_nat (length folders) - Z.of_nat k)
  /\ (forall k k', servercfg_first_match folders mod_dir k ->
                   servercfg_first_match folders mod_dir' k' ->
                   (k < k')%nat -> priority' < priority).
Proof.
  cbv zeta.
  assert (V : forall m, fst (fs_servercfg_priority G m st)
                        = servercfg_rank (effective_folders G st) m).
  { intros m. destruct (fs_servercfg_priority_computes G m st) as (st' & E & _).
    rewrite E. reflexivity. }
  rewrite !V. unfold servercfg_rank.
  set (folders := effective_folders G st).
  assert (F : forall m k, servercfg_first_match folders m k ->
                          servercfg_search m folders 0 (Z.of_nat (length folders))
                          = Z.of_nat (length folders) - Z.of_nat k
                          /\ (k < length folders)%nat).
  { intros m k Hk. rewrite (servercfg_search_first _ _ _ _ k Hk). split; [lia|].
    destruct Hk as [(f & Hf & _) _]. apply lookup_lt_Some in Hf. exact Hf. }
  split; [|split; [|split]].
  - destruct (servercfg_search_found mod_dir folders 0 (Z.of_nat (length folders)))
      as [H0 | (k & Hk)].
    + rewrite H0. lia.
    + destruct (F _ _ Hk) as [-> Hlt]. lia.
  - split.
    + intros H0 folder Hin Ef.
      destruct (servercfg_first_match_exists mod_dir folders folder Hin Ef) as (k & Hk).
      destruct (F _ _ Hk) as [E Hlt]. rewrite E in H0. lia.
    + apply servercfg_search_none.
  - intros k Hk. apply F. exact Hk.
  - intros k k' Hk Hk' Hlt. destruct (F _ _ Hk) as [-> _].
    destruct (F _ _ Hk') as [-> _]. lia.
Qed.

End CorePakPosition.

(** ** The file disabled check *)

Lemma first_triggered_cases (checks : Z) (l : list (Z * bool)) :
  first_triggered checks l = 0
  \/ (check_requested checks (first_triggered checks l) = true
      /\ In (first_triggered checks l, true) l).
Proof.
  induction l as [|[flag triggers] l IH]; simpl; [left; reflexivity|].
  destruct (check_requested checks flag) eqn:Er; destruct triggers; simpl;
    try (destruct IH as [H0 | [Hr Hin]]; [left; exact H0 | right; split; [exact Hr | right; exact Hin]]).
  right. split; [exact Er | left; reflexivity].
Qed.

Section FileDisabledMore.

Context `{X : fs_externals}.
Variable G : fs_globals.

(** X13. [fs_file_disabled] returns 0 or the identifier of a check that the
    mask requests and that is one of the five checks of the function; with an
    empty mask it returns 0.  The call leaves the servercfg directory list as
    [fs_servercfg_update_state] gives it. *)
Theorem fs_file_disabled_result (file : fsc_file_t) (checks : Z) (st : fs_state) :
  let result := fst (fs_file_disabled G file checks st) in
  (result = 0
   \/ (check_requested checks result = true
       /\ In result [FD_CHECK_PURE_LIST; FD_CHECK_READ_INACTIVE_MODS;
                     FD_CHECK_READ_INACTIVE_MODS_IGNORE_SERVERCFG;
                     FD_CHECK_LIST_INACTIVE_MODS; FD_CHECK_LIST_SERVERCFG_LIMIT]))
  /\ (checks = 0 -> result = 0)
  /\ effective_folders G (snd (fs_file_disabled G file checks st))
     = effective_folders G st.
Proof.
  cbv zeta. rewrite fs_file_disabled_value.
  set (l := disabled_checks G (effective_folders G st) file).
  split; [|split].
  - destruct (first_triggered_cases checks l) as [H0 | [Hr Hin]]; [left; exact H0|].
    right. split; [exact Hr|].
    apply (in_map fst) in Hin. exact Hin.
  - intros ->. apply first_triggered_zero. intros flag triggers _ Hr.
    unfold check_requested in Hr. rewrite Z.land_0_l in Hr. discriminate.
  - destruct (fs_file_disabled_computes G file checks st) as (st' & E & F & _).
    rewrite E. exact F.
Qed.

(** X14. The inactive mod check that ignores the servercfg list is the
    stricter one: a file it lets through is let through by the plain check at
    the same level.  The two differ only when [FS_SERVERCFG_ENABLED] is
    defined and the mod directory of the file is in the servercfg list. *)
Theorem inactive_mod_ignore_servercfg_stricter (file : fsc_file_t) (level : Z)
  (st : fs_state) :
  let plain := fst (inactive_mod_file_disabled G file level false st) in
  let ignoring := fst (inactive_mod_file_disabled G file level true st) in
  (ignoring = false -> plain = false)
  /\ (FS_SERVERCFG_ENABLED = false
      \/ fst (fs_servercfg_priority G (fsc_get_mod_dir file) st) = 0 ->
      plain = ignoring).
Proof.
  cbv zeta. rewrite !inactive_mod_file_disabled_value.
  assert (V : fst (fs_servercfg_priority G (fsc_get_mod_dir file) st)
              = servercfg_rank (effective_folders G st) (fsc_get_mod_dir file)).
  { destruct (fs_servercfg_priority_computes G (fsc_get_mod_dir file) st)
      as (st' & E & _). rewrite E. reflexivity. }
  rewrite V. unfold inactive_mod_rule.
  destruct (2 <=? level); [split; reflexivity|].
  destruct (0 <? modtype_value (fs_get_mod_type G (Some (fsc_get_mod_dir file))));
    [split; reflexivity|].
  destruct ((level =? 1) && level1_allowed G file); [split; reflexivity|].
  destruct FS_SERVERCFG_ENABLED; simpl.
  - split; [discriminate|]. intros [Hd | ->]; [discriminate | reflexivity].
  - split; [discriminate | reflexivity].
Qed.

Lemma inactive_mod_rule_active (folders : list string) (file : fsc_file_t) (level : Z)
  (ignore_servercfg : bool) :
  (2 <=? level)
  || (0 <? modtype_value (fs_get_mod_type G (Some (fsc_get_mod_dir file)))) = true ->
  inactive_mod_rule G folders file level ignore_servercfg = false.
Proof.
  unfold inactive_mod_rule. intros H.
  destruct (2 <=? level); [reflexivity|]. rewrite orb_false_l in H.
  rewrite H. reflexivity.
Qed.

(** X15. None of the three inactive mod checks disables a file whose mod
    directory is the current mod, basemod or the base game, and none disables
    any file when both [fs_read_inactive_mods] and [fs_list_inactive_mods] are
    2 or more: the result of [fs_file_disabled] is then decided by the pure
    list check and the servercfg list limit check alone. *)
Theorem inactive_mod_checks_spare_active_files (file : fsc_file_t) (checks : Z)
  (st : fs_state) :
  (2 <=? fs_read_inactive_mods G) && (2 <=? fs_list_inactive_mods G)
  || (0 <? modtype_value (fs_get_mod_type G (Some (fsc_get_mod_dir file)))) = true ->
  fst (fs_file_disabled G file checks st) =
  first_triggered checks
    [ (FD_CHECK_PURE_LIST, pure_list_rule G file);
      (FD_CHECK_LIST_SERVERCFG_LIMIT,
       servercfg_limit_rule G (effective_folders G st) file) ].
Proof.
  intros H. rewrite fs_file_disabled_value. unfold disabled_checks.
  assert (R : forall level ign,
             level = fs_read_inactive_mods G
             \/ level = Z.min (fs_read_inactive_mods G) (fs_list_inactive_mods G) ->
             inactive_mod_rule G (effective_folders G st) file level ign = false).
  { intros level ign Hl. apply inactive_mod_rule_active.
    destruct (0 <? modtype_value (fs_get_mod_type G (Some (fsc_get_mod_dir file))));
      [apply orb_true_r|].
    rewrite orb_false_r in H. apply andb_true_iff in H. destruct H as [H1 H2].
    apply Z.leb_le in H1. apply Z.leb_le in H2. rewrite orb_false_r.
    apply Z.leb_le. lia. }
  cbn [first_triggered]. rewrite !R by (left + right; reflexivity).
  rewrite !andb_false_r. reflexivity.
Qed.

(** X16. With the pure list of the connected server built by
    [pk3_list_insert] from a sequence of hashes, a file from a pk3 is
    disabled by the pure list check exactly when the hash of its pk3 is not
    among them: its list position is the rank of the first insertion of the
    hash; when the hash is absent and the check is requested the result is
    [FD_CHECK_PURE_LIST]; when it is present the result is decided by the
    four other checks. *)
Theorem fs_file_disabled_pure_list_members (bucket_count : Z) (pl0 : pk3_list_t)
  (hashes : list Z) (file : fsc_file_t) (checks : Z) (st : fs_state) :
  pk3_list_initialize bucket_count = Some pl0 ->
  pk3_list_insert_all pl0 hashes = Some (connected_server_pure_list G) ->
  Z.of_nat (length hashes) <= INT_MAX ->
  connected_server_pure_state G = 1 ->
  sourcetype file = FSC_SOURCETYPE_PK3 ->
  get_pk3_list_position G file
  = list_position (insertion_order [] hashes) (base_file_pk3_hash file)
  /\ (base_file_pk3_hash file ∉ hashes ->
      check_requested checks FD_CHECK_PURE_LIST = true ->
      fst (fs_file_disabled G file checks st) = FD_CHECK_PURE_LIST)
  /\ (base_file_pk3_hash file ∈ hashes ->
      fst (fs_file_disabled G file checks st)
      = first_triggered checks (tail (disabled_checks G (effective_folders G st) file))).
Proof.
  intros Hinit Hins Hlen Hstate Htype.
  destruct (pk3_list_insert_all_inv hashes pl0 []
              (pk3_list_initialize_inv _ _ Hinit) ltac:(simpl; lia))
    as (pl & Hpl & _ & _ & Hlook).
  rewrite Hins in Hpl. injection Hpl as <-.
  assert (Hpos : get_pk3_list_position G file
                 = list_position (insertion_order [] hashes) (base_file_pk3_hash file)).
  { unfold get_pk3_list_position. rewrite Htype, Z.eqb_refl. simpl. apply Hlook. }
  split; [exact Hpos|]. rewrite fs_file_disabled_value.
  unfold disabled_checks. cbn [first_triggered tail]. unfold pure_list_rule.
  rewrite Hstate, Hpos. simpl (1 =? 1). cbn [andb]. split.
  - intros Habs Hr. rewrite Hr.
    rewrite (insertion_order_absent hashes [] _ Habs eq_refl). reflexivity.
  - intros Hin. pose proof (insertion_order_present hashes [] _ Hin) as Hne.
    destruct (Z.eqb_spec (list_position (insertion_order [] hashes)
                            (base_file_pk3_hash file)) 0) as [E|_]; [contradiction|].
    rewrite andb_false_r. reflexivity.
Qed.

End FileDisabledMore.

Lemma inactive_mod_checks_spare_active_files_witness :
  fst (fs_file_disabled (X := example_externals) example_globals
         example_pak0_first 30 fs_state_initial) = 0.
Proof.
  rewrite (inactive_mod_checks_spare_active_files (X := example_externals)
             example_globals example_pak0_first 30 fs_state_initial).
  - reflexivity.
  - reflexivity.
Defined.

Lemma fs_file_disabled_pure_list_members_witness :
  get_pk3_list_position (X := example_externals) example_globals_pure example_in_abd = 2
  /\ fst (fs_file_disabled (X := example_externals) example_globals_pure
            example_in_abd 31 fs_state_initial) = 0.
Proof.
  destruct (fs_file_disabled_pure_list_members (X := example_externals)
              example_globals_pure 8
              {| pk3_ht := {| buckets := replicate 8 []; bucket_count := 8;
                              element_count := 0 |} |}
              [444; 555; 444] example_in_abd 31 fs_state_initial)
    as (Hpos & _ & Hin).
  - reflexivity.
  - reflexivity.
  - vm_compute. discriminate.
  - reflexivity.
  - reflexivity.
  - split; [rewrite Hpos; reflexivity|].
    rewrite Hin; [reflexivity|].
    apply list_elem_of_In. simpl. right. left. reflexivity.
Defined.

(** ** Sort keys, in general *)

Lemma write_sort_chars_general (sort_table : list Z) (s : string) (out : fsc_stream_t) :
  stream_ok out ->
  let written := take (stream_room out) (map (table_at sort_table) (c_codes s)) in
  write_sort_chars sort_table s out =
  {| data := take (Z.to_nat (position out)) (data out) ++ written ++
             drop (Z.to_nat (position out) + length written) (data out);
     position := position out + Z.of_nat (length written);
     size := size out;
     overflowed := overflowed out |}.
Proof.
  revert out. induction s as [|c s IH]; intros out Hok; cbv zeta.
  - cbn [write_sort_chars c_codes map]. rewrite take_nil. cbn [app length].
    rewrite Nat.add_0_r, take_drop, Z.add_0_r. destruct out; reflexivity.
  - cbn [write_sort_chars c_codes].
    destruct (Z.eqb_spec (char_code c) 0) as [E0|E0].
    + cbn [map]. rewrite take_nil. cbn [app length].
      rewrite Nat.add_0_r, take_drop, Z.add_0_r. destruct out; reflexivity.
    + destruct Hok as (Hpos & Hsize & Hlen).
      destruct (Z.ltb_spec (position out) (size out)) as [Hroom|Hfull].
      * destruct (stream_put_ok out (table_at sort_table (char_code c))
                    (conj Hpos (conj Hsize Hlen)) Hroom) as [Eput Hok1].
        rewrite (IH _ Hok1). rewrite Eput. cbn [data position size overflowed].
        unfold stream_room. cbn [position size].
        replace (Z.to_nat (size out - position out))
          with (S (Z.to_nat (size out - (position out + 1)))) by lia.
        cbn [map take length].
        set (W := take (Z.to_nat (size out - (position out + 1)))
                       (map (table_at sort_table) (c_codes s))).
        assert (Ht : length (take (Z.to_nat (position out)) (data out))
                     = Z.to_nat (position out)) by (rewrite length_take; lia).
        f_equal; [|lia].
        replace (Z.to_nat (position out + 1)) with (Z.to_nat (position out) + 1)%nat
          by lia.
        rewrite (app_assoc (take _ _) [_]).
        rewrite take_app_length' by (rewrite length_app; simpl; lia).
        rewrite drop_app_add' by (rewrite length_app; simpl; lia).
        rewrite drop_drop. rewrite <- !app_assoc. cbn [app].
        replace (Z.to_nat (position out) + S (length W))%nat
          with (Z.to_nat (position out) + 1 + length W)%nat by lia.
        reflexivity.
      * unfold stream_room.
        replace (Z.to_nat (size out - position out)) with 0%nat by lia.
        rewrite take_0. cbn [app length]. rewrite Nat.add_0_r, take_drop, Z.add_0_r.
        destruct out; reflexivity.
Qed.

Lemma fs_write_sort_string_general (table : list Z) (s : string)
  (out : fsc_stream_t) (prioritize_shorter : bool) :
  sort_table_reachable table -> stream_ok out ->
  let written := take (stream_room out) (sort_key_bytes s prioritize_shorter) in
  fs_write_sort_string table s out prioritize_shorter =
  ({| data := take (Z.to_nat (position out)) (data out) ++ written ++
              drop (Z.to_nat (position out) + length written) (data out);
      position := position out + Z.of_nat (length written);
      size := size out;
      overflowed := overflowed out |},
   string_sort_table)
  /\ stream_ok (fst (fs_write_sort_string table s out prioritize_shorter)).
Proof.
  intros Ht Hok. cbv zeta.
  assert (Hok' := Hok). destruct Hok' as (Hpos & Hsize & Hlen).
  unfold fs_write_sort_string. rewrite (get_string_sort_table_reachable _ Ht).
  destruct (write_sort_chars_preserves string_sort_table s out Hok)
    as (Hok1 & Hge & Hs1 & _).
  rewrite (write_sort_chars_general _ _ _ Hok) in *.
  set (R := map (table_at string_sort_table) (c_codes s)) in *.
  unfold sort_key_bytes. fold R. unfold sort_terminator.
  set (term := if prioritize_shorter then 255 else 0).
  cbn [position size] in *.
  assert (Hl : (length (take (stream_room out) R) <= stream_room out)%nat)
    by (rewrite length_take; lia).
  unfold stream_room in *.
  destruct (Z.ltb_spec (position out + Z.of_nat (length (take (Z.to_nat (size out - position out)) R)))
                       (size out)) as [Hroom|Hfull].
  - assert (Hall : take (Z.to_nat (size out - position out)) R = R).
    { apply take_ge. rewrite length_take in Hroom. lia. }
    rewrite Hall in *.
    destruct (stream_put_ok _ term Hok1 ltac:(cbn [position size]; lia)) as [Eput Hok2].
    split; [|exact Hok2].
    rewrite Eput. cbn [data position size overflowed]. f_equal.
    assert (Hfit : take (Z.to_nat (size out - position out)) (R ++ [term])
                   = R ++ [term]).
    { apply take_ge. rewrite length_app. simpl. lia. }
    rewrite Hfit.
    assert (HtR : length (take (Z.to_nat (position out)) (data out))
                  = Z.to_nat (position out)) by (rewrite length_take; lia).
    replace (Z.to_nat (position out + Z.of_nat (length R)))
      with (Z.to_nat (position out) + length R)%nat by lia.
    f_equal; [|rewrite length_app; simpl; lia].
    rewrite (app_assoc (take _ _) R).
    rewrite take_app_length' by (rewrite length_app; lia).
    rewrite drop_app_add' by (rewrite length_app; lia).
    rewrite drop_drop, <- !app_assoc. do 3 f_equal.
    rewrite length_app. simpl. f_equal. lia.
  - split; [|exact Hok1].
    assert (Hcut : take (Z.to_nat (size out - position out)) (R ++ [term])
                   = take (Z.to_nat (size out - position out)) R).
    { rewrite take_app_le; [reflexivity|]. rewrite length_take in Hfull. lia. }
    rewrite Hcut. reflexivity.
Qed.

(** X17. [fs_write_sort_string] writes, from the position of the stream
    on, as many bytes of the key (the ranks of the characters before the
    first NUL, then the terminator) as the room left allows, and nothing
    else: the bytes before the position and after the bytes written are
    untouched, the position advances by the number of bytes written and
    never passes the size, and the static table is the filled table
    afterwards.  A key that does not fit is cut, without a terminator. *)
Theorem fs_write_sort_string_writes_what_fits (table : list Z) (s : string)
  (out : fsc_stream_t) (prioritize_shorter : bool) :
  sort_table_reachable table -> stream_ok out ->
  let written := take (stream_room out) (sort_key_bytes s prioritize_shorter) in
  let key := fst (fs_write_sort_string table s out prioritize_shorter) in
  fs_write_sort_string table s out prioritize_shorter =
  ({| data := take (Z.to_nat (position out)) (data out) ++ written ++
              drop (Z.to_nat (position out) + length written) (data out);
      position := position out + Z.of_nat (length written);
      size := size out;
      overflowed := overflowed out |},
   string_sort_table)
  /\ position out <= position key <= size out
  /\ length (data key) = length (data out)
  /\ ((stream_room out <= length (c_codes s))%nat ->
      position key = size out
      /\ written = take (stream_room out)
                        (map (table_at string_sort_table) (c_codes s))).
Proof.
  intros Ht Hok. cbv zeta.
  destruct (fs_write_sort_string_general table s out prioritize_shorter Ht Hok)
    as [E Hok'].
  split; [exact E|].
  destruct Hok' as (Hpos' & _ & Hlen'). destruct Hok as (Hpos & _ & Hlen).
  rewrite E in *. cbn [fst position size data] in *.
  split; [lia|]. split; [lia|].
  intros Hcut. unfold sort_key_bytes.
  rewrite take_app_le by (rewrite length_map; exact Hcut).
  split; [|reflexivity].
  rewrite length_take, length_map. unfold stream_room in *. lia.
Qed.

Lemma fs_write_sort_value_general (little_endian : bool) (v : Z) (out : fsc_stream_t) :
  0 <= v <= UINT_MAX -> stream_ok out -> size out + 3 <= UINT_MAX ->
  fs_write_sort_value little_endian v out =
  if position out + 3 <? size out then
    {| data := take (Z.to_nat (position out)) (data out) ++ big_endian_bytes v ++
               drop (Z.to_nat (position out) + 4) (data out);
       position := position out + 4;
       size := size out;
       overflowed := overflowed out |}
  else out.
Proof.
  intros Hv Hok Hsize. destruct (Z.ltb_spec (position out + 3) (size out)) as [Hr|Hr].
  - apply fs_write_sort_value_room; assumption.
  - apply fs_write_sort_value_no_room; [exact Hok|].
    destruct Hok as (Hpos & _). lia.
Qed.

Lemma stream_written_app (d w rest : list Z) (pos sz : Z) (o : bool) :
  0 <= pos -> (Z.to_nat pos <= length d)%nat ->
  stream_written {| data := take (Z.to_nat pos) d ++ w ++ rest;
                    position := pos + Z.of_nat (length w);
                    size := sz; overflowed := o |}
  = take (Z.to_nat pos) d ++ w.
Proof.
  intros Hpos Hlen. unfold stream_written. cbn [data position].
  rewrite app_assoc. apply take_app_length'.
  rewrite length_app, length_take. lia.
Qed.

Lemma pk3_source_key_of_written (table : list Z) (name : string) (v : Z)
  (buffer : list Z) (little_endian : bool) :
  sort_table_reachable table -> length buffer = 1024%nat -> 0 <= v <= UINT_MAX ->
  let r := fs_write_sort_string table name
             {| data := buffer; position := 0; size := 1024; overflowed := false |}
             false in
  let out := fs_write_sort_value little_endian v (fst r) in
  stream_written out = pk3_source_key_of name v
  /\ position out = Z.of_nat (length (pk3_source_key_of name v))
  /\ snd r = string_sort_table.
Proof.
  intros Ht Hlen Hv. cbv zeta.
  set (S0 := {| data := buffer; position := 0; size := 1024; overflowed := false |}).
  assert (Hok0 : stream_ok S0).
  { unfold stream_ok, S0, UINT_MAX. cbn [data position size]. lia. }
  destruct (fs_write_sort_string_general table name S0 false Ht Hok0) as [E Hok1].
  rewrite E in *. cbn [fst snd] in *.
  change (stream_room S0) with 1024%nat in *.
  unfold pk3_source_key_of.
  set (W := take 1024 (sort_key_bytes name false)) in *.
  assert (HW : (length W <= 1024)%nat) by (unfold W; rewrite length_take; lia).
  cbn [S0 data position size overflowed] in *. change (Z.to_nat 0) with 0%nat in *.
  rewrite take_0 in *. cbn [app Nat.add] in *. rewrite Z.add_0_l in *.
  rewrite fs_write_sort_value_general;
    [|exact Hv | exact Hok1 | cbn [size]; unfold UINT_MAX; lia].
  cbn [position size data overflowed].
  split; [|split; [|reflexivity]].
  - destruct (Z.ltb_spec (Z.of_nat (length W) + 3) 1024) as [Hr|Hr].
    + replace (Z.of_nat (length W) + 4)
        with (Z.of_nat (length W) + Z.of_nat (length (big_endian_bytes v)))
        by (simpl; lia).
      rewrite stream_written_app;
        [|lia | rewrite length_app, length_drop, Nat2Z.id; lia].
      rewrite Nat2Z.id, take_app_length. reflexivity.
    + unfold stream_written. cbn [data position]. rewrite Nat2Z.id.
      apply take_app_length.
  - destruct (Z.ltb_spec (Z.of_nat (length W) + 3) 1024) as [Hr|Hr];
      cbn [position]; [rewrite length_app; simpl; lia | reflexivity].
Qed.

Lemma fsc_memcmp_take (a b : list Z) (n n1 n2 : nat) :
  (n <= n1)%nat -> (n <= n2)%nat ->
  fsc_memcmp (take n1 a) (take n2 b) n = fsc_memcmp a b n.
Proof.
  revert a b n1 n2. induction n as [|n IH]; intros a b n1 n2 H1 H2.
  - destruct n1, n2, a, b; reflexivity.
  - destruct n1 as [|n1]; [lia|]. destruct n2 as [|n2]; [lia|].
    destruct a as [|x a]; [reflexivity|]. destruct b as [|y b]; [reflexivity|].
    cbn [take fsc_memcmp]. rewrite IH by lia. reflexivity.
Qed.

Lemma fsc_memcmp_opp (a b : list Z) (n : nat) :
  fsc_memcmp a b n = - fsc_memcmp b a n.
Proof.
  revert a b. induction n as [|n IH]; intros a b; [destruct a, b; reflexivity|].
  destruct a as [|x a]; destruct b as [|y b]; try reflexivity.
  cbn [fsc_memcmp]. rewrite (Z.eqb_sym y x).
  destruct (x =? y); [apply IH | lia].
Qed.

Lemma fsc_memcmp_refl (a : list Z) (n : nat) : fsc_memcmp a a n = 0.
Proof.
  revert a. induction n as [|n IH]; intros [|x a]; try reflexivity.
  cbn [fsc_memcmp]. rewrite Z.eqb_refl. apply IH.
Qed.

Lemma compare_sort_streams_written (stream1 stream2 : fsc_stream_t) :
  0 <= position stream1 -> 0 <= position stream2 ->
  compare_sort_streams stream1 stream2 =
  fsc_memcmp (stream_written stream2) (stream_written stream1)
             (Z.to_nat (Z.min (position stream1) (position stream2))).
Proof.
  intros H1 H2. unfold compare_sort_streams, stream_written.
  replace (if position stream1 <? position stream2
           then position stream1 else position stream2)
    with (Z.min (position stream1) (position stream2))
    by (destruct (Z.ltb_spec (position stream1) (position stream2)); lia).
  rewrite fsc_memcmp_take by lia. reflexivity.
Qed.

Section Pk3SourceCompare.

Context `{X : fs_externals}.

Lemma write_sort_pk3_source_filename_key (table : list Z) (file : fsc_file_t)
  (buffer : list Z) :
  sort_table_reachable table -> length buffer = 1024%nat ->
  let r := write_sort_pk3_source_filename table file
             {| data := buffer; position := 0; size := 1024; overflowed := false |} in
  stream_written (fst r) = pk3_source_key file
  /\ position (fst r) = Z.of_nat (length (pk3_source_key file))
  /\ sort_table_reachable (snd r).
Proof.
  intros Ht Hlen. cbv zeta. unfold write_sort_pk3_source_filename, pk3_source_key.
  destruct ((sourcetype file =? FSC_SOURCETYPE_DIRECT)
            && match pk3dir_ptr file with Some _ => true | None => false end).
  - destruct (pk3_source_key_of_written table (default EmptyString (pk3dir_ptr file)) 1
                buffer host_little_endian Ht Hlen ltac:(unfold UINT_MAX; lia))
      as (Hw & Hp & Hs).
    destruct (fs_write_sort_string table _ _ false) as [o t]. cbn [fst snd] in *.
    split; [exact Hw|]. split; [exact Hp|]. right. exact Hs.
  - destruct (sourcetype file =? FSC_SOURCETYPE_PK3).
    + destruct (fsc_get_base_file file) as [source_pk3|].
      * destruct (pk3_source_key_of_written table (qp_name source_pk3) 0
                    buffer host_little_endian Ht Hlen ltac:(unfold UINT_MAX; lia))
          as (Hw & Hp & Hs).
        destruct (fs_write_sort_string table _ _ false) as [o t]. cbn [fst snd] in *.
        split; [exact Hw|]. split; [exact Hp|]. right. exact Hs.
      * cbn [fst snd]. split; [reflexivity|]. split; [reflexivity | exact Ht].
    + cbn [fst snd]. split; [reflexivity|]. split; [reflexivity | exact Ht].
Qed.

Lemma fs_compare_pk3_source_keys (table : list Z) (buffer1 buffer2 : list Z)
  (file1 file2 : fsc_file_t) :
  sort_table_reachable table ->
  length buffer1 = 1024%nat -> length buffer2 = 1024%nat ->
  fst (fs_compare_pk3_source table buffer1 buffer2 file1 file2) =
  fsc_memcmp (pk3_source_key file2) (pk3_source_key file1)
             (Nat.min (length (pk3_source_key file1)) (length (pk3_source_key file2))).
Proof.
  intros Ht H1 H2. unfold fs_compare_pk3_source.
  destruct (write_sort_pk3_source_filename_key table file1 buffer1 Ht H1)
    as (Hw1 & Hp1 & Ht1).
  destruct (write_sort_pk3_source_filename table file1 _) as [stream1 table1].
  cbn [fst snd] in *.
  destruct (write_sort_pk3_source_filename_key table1 file2 buffer2 Ht1 H2)
    as (Hw2 & Hp2 & _).
  destruct (write_sort_pk3_source_filename table1 file2 _) as [stream2 table2].
  cbn [fst snd] in *.
  rewrite compare_sort_streams_written by lia.
  rewrite Hw1, Hw2, Hp1, Hp2. f_equal. lia.
Qed.

(** X18. [fs_compare_pk3_source] depends on the two files only: the 1024
    bytes of its two local buffers as the call finds them do not change the
    result, since the comparison reads only bytes that were written.  The
    comparison is antisymmetric, and a file compared with itself gives 0. *)
Theorem fs_compare_pk3_source_antisymmetric (table table' : list Z)
  (buffer1 buffer2 buffer1' buffer2' : list Z) (file1 file2 : fsc_file_t) :
  sort_table_reachable table -> sort_table_reachable table' ->
  length buffer1 = 1024%nat -> length buffer2 = 1024%nat ->
  length buffer1' = 1024%nat -> length buffer2' = 1024%nat ->
  fst (fs_compare_pk3_source table buffer1 buffer2 file1 file2)
  = fst (fs_compare_pk3_source table' buffer1' buffer2' file1 file2)
  /\ Z.sgn (fst (fs_compare_pk3_source table buffer1 buffer2 file1 file2))
     = - Z.sgn (fst (fs_compare_pk3_source table' buffer1' buffer2' file2 file1))
  /\ fst (fs_compare_pk3_source table buffer1 buffer2 file1 file1) = 0.
Proof.
  intros Ht Ht' H1 H2 H1' H2'.
  rewrite !fs_compare_pk3_source_keys by assumption.
  split; [reflexivity|]. split.
  - rewrite fsc_memcmp_opp. rewrite Nat.min_comm. apply Z.sgn_opp.
  - apply fsc_memcmp_refl.
Qed.

End Pk3SourceCompare.

Lemma fs_write_sort_string_writes_what_fits_witness :
  fst (fs_write_sort_string sort_table_zero "ab" (stream_init [7; 7]) false)
  = {| data := [225; 226]; position := 2; size := 2; overflowed := false |}.
Proof.
  destruct (fs_write_sort_string_writes_what_fits sort_table_zero "ab"
              (stream_init [7; 7]) false) as [E _].
  - left. reflexivity.
  - apply stream_init_ok. vm_compute. discriminate.
  - rewrite E. vm_compute. reflexivity.
Defined.

Lemma fs_compare_pk3_source_antisymmetric_witness :
  Z.sgn (fst (fs_compare_pk3_source (X := example_externals) sort_table_zero
                (replicate 1024 0) (replicate 1024 0) example_in_Abc example_in_abd))
  = - Z.sgn (fst (fs_compare_pk3_source (X := example_externals) string_sort_table
                    (replicate 1024 255) (replicate 1024 7)
                    example_in_abd example_in_Abc)).
Proof.
  apply (fs_compare_pk3_source_antisymmetric (X := example_externals)
           sort_table_zero string_sort_table
           (replicate 1024 0) (replicate 1024 0)
           (replicate 1024 255) (replicate 1024 7) example_in_Abc example_in_abd).
  - left. reflexivity.
  - right. reflexivity.
  - apply length_replicate.
  - apply length_replicate.
  - apply length_replicate.
  - apply length_replicate.
Defined.

Lemma rank_eq_iff_upper (c1 c2 : Z) :
  0 <= c1 < 256 -> 0 <= c2 < 256 ->
  (table_at string_sort_table c1 = table_at string_sort_table c2
   <-> upper_code c1 = upper_code c2).
Proof.
  intros H1 H2.
  pose (Q := fun c1 c2 =>
               Bool.eqb (table_at string_sort_table c1 =? table_at string_sort_table c2)
                        (upper_code c1 =? upper_code c2)).
  assert (HQ : Q c1 c2 = true).
  { apply (byte_forall (Q c1)); [|exact H2].
    apply (byte_forall (fun c1 => forallb (Q c1) (map Z.of_nat (seq 0 256))));
      [|exact H1].
    vm_compute. reflexivity. }
  unfold Q in HQ. apply Bool.eqb_prop in HQ.
  rewrite <- !Z.eqb_eq. rewrite HQ. reflexivity.
Qed.

Lemma rank_range (c : Z) :
  0 <= c < 256 -> 21 <= table_at string_sort_table c <= 250.
Proof.
  intros Hc.
  pose (P := fun c => (21 <=? table_at string_sort_table c)
                      && (table_at string_sort_table c <=? 250)).
  assert (HP : P c = true) by (apply (byte_forall P); [vm_compute; reflexivity | exact Hc]).
  unfold P in HP. apply andb_true_iff in HP. destruct HP as [Ha Hb].
  apply Z.leb_le in Ha. apply Z.leb_le in Hb. lia.
Qed.

Lemma c_codes_range (s : string) : Forall (fun c => 0 <= c < 256) (c_codes s).
Proof.
  induction s as [|c s IH]; simpl; [constructor|].
  destruct (char_code c =? 0); [constructor|].
  constructor; [apply char_code_range | exact IH].
Qed.

Lemma map_eq_iff_pointwise {A B C : Type} (f : A -> B) (g : A -> C) (P : A -> Prop)
  (l1 l2 : list A) :
  (forall x y, P x -> P y -> (f x = f y <-> g x = g y)) ->
  Forall P l1 -> Forall P l2 ->
  (map f l1 = map f l2 <-> map g l1 = map g l2).
Proof.
  intros Hfg H1. revert l2. induction H1 as [|x l1 Hx H1 IH]; intros l2 H2.
  - destruct l2; cbn [map]; split; intros H; try reflexivity; discriminate.
  - destruct H2 as [|y l2 Hy H2]; cbn [map]; [split; discriminate|].
    split; intros H; injection H as Hh Ht; f_equal.
    + apply Hfg; assumption.
    + apply IH; assumption.
    + apply Hfg; assumption.
    + apply IH; assumption.
Qed.

Lemma map_rank_eq_iff (l1 l2 : list Z) :
  Forall (fun c => 0 <= c < 256) l1 -> Forall (fun c => 0 <= c < 256) l2 ->
  (map (table_at string_sort_table) l1 = map (table_at string_sort_table) l2
   <-> map upper_code l1 = map upper_code l2).
Proof.
  apply map_eq_iff_pointwise. intros x y Hx Hy. apply rank_eq_iff_upper; assumption.
Qed.

Lemma key_take_eq (r1 r2 : list Z) (term : Z) :
  Forall (fun x => x <> term) r1 -> Forall (fun x => x <> term) r2 ->
  (take (Nat.min (S (length r1)) (S (length r2))) (r2 ++ [term])
   = take (Nat.min (S (length r1)) (S (length r2))) (r1 ++ [term])
   <-> r1 = r2).
Proof.
  intros H1. revert r2. induction H1 as [|x r1 Hx H1 IH]; intros r2 H2.
  - destruct H2 as [|y r2 Hy H2]; simpl.
    + split; reflexivity.
    + split; [|discriminate]. intros [= E]. contradiction.
  - destruct H2 as [|y r2 Hy H2].
    + simpl. split; [|discriminate]. intros [= E]. symmetry in E. contradiction.
    + change (Nat.min (S (length (x :: r1))) (S (length (y :: r2))))
        with (S (Nat.min (S (length r1)) (S (length r2)))).
      cbn [app take]. split.
      * intros [= -> Ht]. f_equal. apply IH; assumption.
      * intros [= -> ->]. reflexivity.
Qed.

Lemma fsc_memcmp_zero_iff (a b : list Z) (n : nat) :
  (n <= length a)%nat -> (n <= length b)%nat ->
  (fsc_memcmp a b n = 0 <-> take n a = take n b).
Proof.
  revert a b. induction n as [|n IH]; intros a b Ha Hb.
  - destruct a, b; simpl; split; reflexivity.
  - destruct a as [|x a]; [simpl in Ha; lia|]. destruct b as [|y b]; [simpl in Hb; lia|].
    cbn [fsc_memcmp take]. simpl in Ha, Hb.
    destruct (Z.eqb_spec x y) as [->|Hne].
    + rewrite IH by lia. split; [intros ->; reflexivity | intros [= E]; exact E].
    + split; [lia | intros [= E]; contradiction].
Qed.

Lemma sort_key_written (table : list Z) (s : string) (buffer : list Z)
  (prioritize_shorter : bool) :
  sort_table_reachable table -> Z.of_nat (length buffer) <= UINT_MAX ->
  Z.of_nat (length (c_codes s)) < Z.of_nat (length buffer) ->
  let key := fst (fs_write_sort_string table s (stream_init buffer) prioritize_shorter) in
  stream_written key = sort_key_bytes s prioritize_shorter
  /\ position key = Z.of_nat (length (c_codes s)) + 1.
Proof.
  intros Ht Hmax Hfit. cbv zeta.
  destruct (fs_write_sort_string_general table s (stream_init buffer) prioritize_shorter
              Ht (stream_init_ok buffer Hmax)) as [E _].
  rewrite E. cbn [fst].
  assert (Hroom : stream_room (stream_init buffer) = length buffer).
  { unfold stream_room, stream_init. cbn [size position]. lia. }
  rewrite Hroom.
  assert (Hl : length (sort_key_bytes s prioritize_shorter) = S (length (c_codes s))).
  { unfold sort_key_bytes. rewrite length_app, length_map. simpl. lia. }
  rewrite (take_ge (sort_key_bytes s prioritize_shorter)) by lia.
  unfold stream_init. cbn [data position size overflowed].
  split; [|cbn [position]; lia].
  rewrite stream_written_app by (simpl; lia).
  reflexivity.
Qed.

(** X19. Sort keys ignore the case of letters and nothing else: the keys
    [fs_write_sort_string] writes for two strings into buffers with room for
    them compare as equal ([fsc_memcmp] over the shorter key gives 0) exactly
    when the strings have the same characters once lowercase letters are read
    as uppercase.  In particular a string and a proper prefix of it never
    compare as equal, with either terminator. *)
Theorem sort_keys_equal_iff_same_up_to_case (table table' : list Z) (s t : string)
  (buffer1 buffer2 : list Z) (prioritize_shorter : bool) :
  sort_table_reachable table -> sort_table_reachable table' ->
  Z.of_nat (length buffer1) <= UINT_MAX -> Z.of_nat (length buffer2) <= UINT_MAX ->
  Z.of_nat (length (c_codes s)) < Z.of_nat (length buffer1) ->
  Z.of_nat (length (c_codes t)) < Z.of_nat (length buffer2) ->
  let key_s := fst (fs_write_sort_string table s (stream_init buffer1)
                                         prioritize_shorter) in
  let key_t := fst (fs_write_sort_string table' t (stream_init buffer2)
                                         prioritize_shorter) in
  compare_sort_streams key_s key_t = 0
  <-> map upper_code (c_codes s) = map upper_code (c_codes t).
Proof.
  intros Ht Ht' Hm1 Hm2 Hf1 Hf2. cbv zeta.
  destruct (sort_key_written table s buffer1 prioritize_shorter Ht Hm1 Hf1) as [Hw1 Hp1].
  destruct (sort_key_written table' t buffer2 prioritize_shorter Ht' Hm2 Hf2) as [Hw2 Hp2].
  rewrite compare_sort_streams_written by lia.
  rewrite Hw1, Hw2, Hp1, Hp2.
  replace (Z.to_nat (Z.min (Z.of_nat (length (c_codes s)) + 1)
                           (Z.of_nat (length (c_codes t)) + 1)))
    with (Nat.min (S (length (map (table_at string_sort_table) (c_codes s))))
                  (S (length (map (table_at string_sort_table) (c_codes t)))))
    by (rewrite !length_map; lia).
  assert (Hne : forall u, Forall (fun x => x <> sort_terminator prioritize_shorter)
                                 (map (table_at string_sort_table) (c_codes u))).
  { intros u. apply Forall_map. eapply Forall_impl; [apply c_codes_range|].
    intros c Hc. simpl. pose proof (rank_range c Hc).
    unfold sort_terminator. destruct prioritize_shorter; lia. }
  unfold sort_key_bytes.
  rewrite fsc_memcmp_zero_iff
    by (rewrite length_app; simpl; lia).
  rewrite key_take_eq by apply Hne.
  apply map_rank_eq_iff; apply c_codes_range.
Qed.

Lemma sort_keys_equal_iff_same_up_to_case_witness :
  compare_sort_streams
    (fst (fs_write_sort_string sort_table_zero "Abc" (stream_init (replicate 8 0)) true))
    (fst (fs_write_sort_string string_sort_table "aBC" (stream_init (replicate 16 7)) true))
  = 0.
Proof.
  apply (sort_keys_equal_iff_same_up_to_case sort_table_zero string_sort_table
           "Abc" "aBC" (replicate 8 0) (replicate 16 7) true).
  - left. reflexivity.
  - right. reflexivity.
  - vm_compute. discriminate.
  - vm_compute. discriminate.
  - vm_compute. reflexivity.
  - vm_compute. reflexivity.
  - reflexivity.
Defined.

(** ** The core sort key *)

Lemma u32_range (x : Z) : 0 <= u32 x <= UINT_MAX.
Proof. unfold u32, UINT_MAX. pose proof (Z.mod_pos_bound x 4294967296). lia. Qed.

Lemma stream_extends_refl (out : fsc_stream_t) : stream_ok out -> stream_extends out out.
Proof. intros H. unfold stream_extends, stream_written. repeat split; try apply H; lia. Qed.

Lemma stream_extends_trans (a b c : fsc_stream_t) :
  0 <= position a -> stream_extends a b -> stream_extends b c -> stream_extends a c.
Proof.
  intros Ha (Hok1 & Hs1 & Hp1 & Hw1) (Hok2 & Hs2 & Hp2 & Hw2).
  unfold stream_extends. split; [exact Hok2|]. split; [congruence|]. split; [lia|].
  rewrite Hw1. unfold stream_written in Hw2.
  replace (Z.to_nat (position a))
    with (Nat.min (Z.to_nat (position a)) (Z.to_nat (position b))) at 1 by lia.
  rewrite <- take_take, Hw2, take_take. f_equal. lia.
Qed.

Lemma fs_write_sort_value_extends (little_endian : bool) (v : Z) (out : fsc_stream_t) :
  0 <= v <= UINT_MAX -> stream_ok out -> size out + 3 <= UINT_MAX ->
  stream_extends out (fs_write_sort_value little_endian v out).
Proof.
  intros Hv Hok Hsize. rewrite fs_write_sort_value_general by assumption.
  destruct (Z.ltb_spec (position out + 3) (size out)) as [Hr|Hr];
    [|apply stream_extends_refl; exact Hok].
  destruct Hok as (Hpos & Hmax & Hlen).
  unfold stream_extends, stream_ok, stream_written. cbn [data position size].
  assert (Ht : length (take (Z.to_nat (position out)) (data out))
               = Z.to_nat (position out)) by (rewrite length_take; lia).
  repeat split; try lia.
  - rewrite !length_app, length_drop, Ht. simpl. lia.
  - rewrite take_app_length' by lia. reflexivity.
Qed.

Lemma fs_write_sort_string_extends (table : list Z) (s : string) (out : fsc_stream_t)
  (prioritize_shorter : bool) :
  stream_ok out ->
  stream_extends out (fst (fs_write_sort_string table s out prioritize_shorter)).
Proof.
  intros Hok. unfold fs_write_sort_string. cbn [fst].
  destruct (write_sort_chars_preserves (get_string_sort_table table) s out Hok)
    as (Hok1 & Hge & Hs1 & Ht1).
  set (out1 := write_sort_chars (get_string_sort_table table) s out) in *.
  assert (Hpos : 0 <= position out) by (destruct Hok as ((? & ?) & _); lia).
  assert (E1 : stream_extends out out1).
  { unfold stream_extends, stream_written. repeat split; try apply Hok1; try lia.
    symmetry. exact Ht1. }
  destruct (Z.ltb_spec (position out1) (size out1)) as [Hr|Hr]; [|exact E1].
  apply (stream_extends_trans out out1); [exact Hpos | exact E1|].
  destruct (stream_put_ok out1 (if prioritize_shorter then 255 else 0) Hok1 Hr)
    as [Eput Hok2].
  unfold stream_extends, stream_written. split; [exact Hok2|].
  rewrite Eput. cbn [data position size]. split; [reflexivity|]. split; [lia|].
  destruct Hok1 as (Hp1 & _ & Hl1).
  rewrite take_app_length' by (rewrite length_take; lia). reflexivity.
Qed.

Section CoreSortKeyFacts.

Context `{X : fs_externals}.
Variable G : fs_globals.
Variable FSC_FILEFLAG_DLPK3 : Z.
Variable header_position : fsc_file_t -> Z.

Lemma write_sort_pk3_source_filename_extends (table : list Z) (file : fsc_file_t)
  (out : fsc_stream_t) :
  stream_ok out -> size out + 3 <= UINT_MAX ->
  stream_extends out (fst (write_sort_pk3_source_filename table file out)).
Proof.
  intros Hok Hsize. unfold write_sort_pk3_source_filename.
  assert (Hpos : 0 <= position out) by (destruct Hok as ((? & ?) & _); lia).
  assert (Hstep : forall s v, 0 <= v <= UINT_MAX ->
            stream_extends out
              (fst (let '(output, table0) := fs_write_sort_string table s out false in
                    (fs_write_sort_value host_little_endian v output, table0)))).
  { intros s v Hv.
    pose proof (fs_write_sort_string_extends table s out false Hok) as E1.
    destruct (fs_write_sort_string table s out false) as [o t]. cbn [fst] in *.
    apply (stream_extends_trans out o); [exact Hpos | exact E1|].
    destruct E1 as (Hok1 & Hs1 & _).
    apply fs_write_sort_value_extends; [exact Hv | exact Hok1 | lia]. }
  destruct ((sourcetype file =? FSC_SOURCETYPE_DIRECT)
            && match pk3dir_ptr file with Some _ => true | None => false end).
  - apply Hstep. unfold UINT_MAX. lia.
  - destruct (sourcetype file =? FSC_SOURCETYPE_PK3);
      [|apply stream_extends_refl; exact Hok].
    destruct (fsc_get_base_file file) as [source_pk3|];
      [|apply stream_extends_refl; exact Hok].
    apply Hstep. unfold UINT_MAX. lia.
Qed.

Lemma server_pure_precedence_range (file : fsc_file_t) :
  0 <= server_pure_precedence G file <= UINT_MAX.
Proof.
  unfold server_pure_precedence.
  destruct (sourcetype file =? FSC_SOURCETYPE_PK3); [|unfold UINT_MAX; lia].
  cbv zeta. destruct (negb _); [apply u32_range | unfold UINT_MAX; lia].
Qed.

Lemma server_pure_precedence_position (file : fsc_file_t) :
  0 <= get_pk3_list_position G file <= INT_MAX ->
  server_pure_precedence G file =
  if get_pk3_list_position G file =? 0 then 0
  else UINT_MAX - get_pk3_list_position G file.
Proof.
  unfold server_pure_precedence, get_pk3_list_position.
  destruct (sourcetype file =? FSC_SOURCETYPE_PK3); cbn [negb]; [|reflexivity].
  intros Hr. cbv zeta.
  set (p := pk3_list_lookup (connected_server_pure_list G) (base_file_pk3_hash file)) in *.
  rewrite (u32_small p) by (unfold INT_MAX, UINT_MAX in *; lia).
  destruct (Z.eqb_spec p 0) as [E|E]; cbn [negb]; [reflexivity|].
  unfold u32, Z.lnot, INT_MAX, UINT_MAX in *.
  replace (Z.pred (- p)) with ((4294967295 - p) + (-1) * 4294967296) by lia.
  rewrite Z.mod_add by lia. apply Z.mod_small. lia.
Qed.

(** Every write after the first field leaves the first field alone. *)
Lemma fs_generate_core_sort_key_extends (table : list Z) (file : fsc_file_t)
  (out : fsc_stream_t) (st : fs_state) :
  stream_ok out -> size out + 3 <= UINT_MAX ->
  stream_extends
    (fs_write_sort_value host_little_endian (server_pure_precedence G file) out)
    (fst (fst (fs_generate_core_sort_key G FSC_FILEFLAG_DLPK3 header_position
                 table file out true st))).
Proof.
  intros Hok Hsize.
  pose proof (fs_write_sort_value_extends host_little_endian _ out
                (server_pure_precedence_range file) Hok Hsize) as E0.
  set (out0 := fs_write_sort_value host_little_endian (server_pure_precedence G file) out)
    in *.
  destruct E0 as (Hok0 & Hs0 & Hp0 & _).
  assert (Hpos0 : 0 <= position out0) by (destruct Hok0 as ((? & ?) & _); lia).
  assert (Hsize0 : size out0 + 3 <= UINT_MAX) by lia.
  assert (W : forall v o, 0 <= v <= UINT_MAX -> stream_extends out0 o ->
                          stream_extends out0 (fs_write_sort_value host_little_endian v o)).
  { intros v o Hv E. apply (stream_extends_trans out0 o); [exact Hpos0 | exact E|].
    destruct E as (Hoko & Hso & _).
    apply fs_write_sort_value_extends; [exact Hv | exact Hoko | lia]. }
  assert (B : forall b : bool, 0 <= (if b then 0 else 1) <= UINT_MAX)
    by (intros []; unfold UINT_MAX; lia).
  assert (R01 : 0 <= 0 <= UINT_MAX /\ 0 <= 1 <= UINT_MAX) by (unfold UINT_MAX; lia).
  assert (Rm : forall m, 0 <= get_current_mod_precedence m <= UINT_MAX).
  { intros m. unfold get_current_mod_precedence, UINT_MAX.
    destruct m; simpl; lia. }
  assert (Rc : forall m, 0 <= core_pak_precedence G file m <= UINT_MAX).
  { intros m. unfold core_pak_precedence.
    destruct (_ <? _); [|unfold UINT_MAX; lia].
    destruct (fsc_get_base_file file); [apply u32_range | unfold UINT_MAX; lia]. }
  assert (Rb : forall m, 0 <= basegame_dir_precedence m <= UINT_MAX)
    by (intros []; unfold UINT_MAX; simpl; lia).
  unfold fs_generate_core_sort_key, bind.
  destruct ((if FS_SERVERCFG_ENABLED
             then fs_servercfg_priority G (fsc_get_mod_dir file) else ret 0) st)
    as [priority st1].
  cbv zeta. fold out0.
  set (mod_type := fs_get_mod_type G (Some (fsc_get_mod_dir file))).
  set (o2 := fs_write_sort_value host_little_endian
               (get_current_mod_precedence mod_type)
               (fs_write_sort_value host_little_endian (u32 priority) out0)).
  assert (E2 : stream_extends out0 o2).
  { apply W; [apply Rm|]. apply W; [apply u32_range|].
    apply stream_extends_refl. exact Hok0. }
  set (o3 := if (u32 priority =? 0) && (get_current_mod_precedence mod_type =? 0)
             then fs_write_sort_value host_little_endian
                    (core_pak_precedence G file mod_type) o2
             else o2).
  assert (E3 : stream_extends out0 o3).
  { unfold o3.
    destruct ((u32 priority =? 0) && (get_current_mod_precedence mod_type =? 0));
      [apply W; [apply Rc | exact E2] | exact E2]. }
  set (o5 := fs_write_sort_value host_little_endian
               (if download_folder_flagged FSC_FILEFLAG_DLPK3 file then 0 else 1)
               (fs_write_sort_value host_little_endian
                  (basegame_dir_precedence mod_type) o3)).
  assert (E5 : stream_extends out0 o5).
  { apply W; [apply B|]. apply W; [apply Rb | exact E3]. }
  destruct ((sourcetype file =? FSC_SOURCETYPE_PK3)
            || (sourcetype file =? FSC_SOURCETYPE_DIRECT)
               && match pk3dir_ptr file with Some _ => true | None => false end).
  - assert (E6 : stream_extends out0 (fs_write_sort_value host_little_endian 0 o5))
      by (apply W; [apply R01 | exact E5]).
    pose proof (write_sort_pk3_source_filename_extends table file
                  (fs_write_sort_value host_little_endian 0 o5)) as E7.
    destruct (write_sort_pk3_source_filename table file
                (fs_write_sort_value host_little_endian 0 o5)) as [o7 t7].
    cbn [fst] in *. unfold ret. cbn [fst].
    apply W.
    + destruct (sourcetype file =? FSC_SOURCETYPE_PK3);
        [apply u32_range | unfold UINT_MAX; lia].
    + apply (stream_extends_trans out0 (fs_write_sort_value host_little_endian 0 o5) o7);
        [exact Hpos0 | exact E6|].
      destruct E6 as (Hok6 & Hs6 & _). apply E7; [exact Hok6 | lia].
  - unfold ret. cbn [fst]. apply W; [apply R01 | exact E5].
Qed.

Lemma fsc_memcmp_prefix_decides (a b r r' : list Z) (n : nat) :
  length a = length b -> (length a <= n)%nat ->
  fsc_memcmp a b (length a) <> 0 ->
  fsc_memcmp (a ++ r) (b ++ r') n = fsc_memcmp a b (length a).
Proof.
  revert b n. induction a as [|x a IH]; intros b n Hl Hn Hne.
  - simpl in Hne. destruct b; contradiction.
  - destruct b as [|y b]; [discriminate|]. destruct n as [|n]; [simpl in Hn; lia|].
    cbn [app length fsc_memcmp] in *.
    destruct (x =? y); [|reflexivity].
    apply IH; [simpl in Hl; lia | lia | exact Hne].
Qed.

(** X20. With [use_server_pure_list], the first field of the core sort key
    decides between a file on the pure list of the connected server and a file
    that is further down the list or not on it: the key of the first sorts
    before the key of the second, whatever the other fields hold. *)
Theorem fs_generate_core_sort_key_pure_list_first (table1 table2 : list Z)
  (file1 file2 : fsc_file_t) (buffer1 buffer2 : list Z) (st1 st2 : fs_state) :
  4 <= Z.of_nat (length buffer1) <= INT_MAX ->
  4 <= Z.of_nat (length buffer2) <= INT_MAX ->
  0 < get_pk3_list_position G file1 <= INT_MAX ->
  get_pk3_list_position G file2 = 0
  \/ get_pk3_list_position G file1 < get_pk3_list_position G file2 <= INT_MAX ->
  sorts_before
    (fst (fst (fs_generate_core_sort_key G FSC_FILEFLAG_DLPK3 header_position
                 table1 file1 (stream_init buffer1) true st1)))
    (fst (fst (fs_generate_core_sort_key G FSC_FILEFLAG_DLPK3 header_position
                 table2 file2 (stream_init buffer2) true st2))).
Proof.
  intros Hb1 Hb2 Hp1 Hp2.
  assert (Hprec : 0 <= server_pure_precedence G file2 < server_pure_precedence G file1
                  /\ server_pure_precedence G file1 <= UINT_MAX).
  { rewrite (server_pure_precedence_position file1) by lia.
    rewrite (server_pure_precedence_position file2) by lia.
    destruct (Z.eqb_spec (get_pk3_list_position G file1) 0) as [E1|E1]; [lia|].
    destruct (Z.eqb_spec (get_pk3_list_position G file2) 0) as [E2|E2];
      unfold INT_MAX, UINT_MAX in *; lia. }
  assert (K : forall table file buffer st,
             4 <= Z.of_nat (length buffer) <= INT_MAX ->
             let key := fst (fst (fs_generate_core_sort_key G FSC_FILEFLAG_DLPK3
                                    header_position table file (stream_init buffer)
                                    true st)) in
             4 <= position key
             /\ exists rest, data key
                             = big_endian_bytes (server_pure_precedence G file) ++ rest).
  { intros table file buffer st Hb. cbv zeta.
    assert (Hok : stream_ok (stream_init buffer))
      by (apply stream_init_ok; unfold INT_MAX, UINT_MAX in *; lia).
    assert (Hsize : size (stream_init buffer) + 3 <= UINT_MAX)
      by (unfold stream_init, INT_MAX, UINT_MAX in *; cbn [size]; lia).
    destruct (fs_generate_core_sort_key_extends table file (stream_init buffer) st
                Hok Hsize) as (Hokk & Hsk & Hpk & Hwk).
    set (key := fst (fst (fs_generate_core_sort_key G FSC_FILEFLAG_DLPK3
                            header_position table file (stream_init buffer) true st)))
      in *.
    rewrite (fs_write_sort_value_general _ _ _ (server_pure_precedence_range file)
               Hok Hsize) in Hpk, Hwk.
    unfold stream_init in Hpk, Hwk. cbn [position size data] in Hpk, Hwk.
    destruct (Z.ltb_spec (0 + 3) (Z.of_nat (length buffer))) as [_|Hr]; [|lia].
    unfold stream_written in Hwk. cbn [position data] in Hpk, Hwk.
    change (Z.to_nat (0 + 4)) with 4%nat in Hwk. change (Z.to_nat 0) with 0%nat in Hwk.
    rewrite take_0 in Hwk. cbn [app] in Hwk.
    rewrite take_app_length' in Hwk by reflexivity.
    split; [lia|].
    exists (drop 4 (data key)). rewrite Hwk. symmetry. apply take_drop. }
  destruct (K table1 file1 buffer1 st1 Hb1) as (Hk1 & r1 & Hd1).
  destruct (K table2 file2 buffer2 st2 Hb2) as (Hk2 & r2 & Hd2).
  unfold sorts_before, compare_sort_streams. rewrite Hd1, Hd2.
  destruct Hprec as ((Hlo & Hlt12) & Hhi).
  pose proof (big_endian_bytes_order (server_pure_precedence G file2)
                (server_pure_precedence G file1) Hlo Hlt12 Hhi) as Hlt.
  rewrite (fsc_memcmp_prefix_decides (big_endian_bytes _) (big_endian_bytes _)).
  - exact Hlt.
  - reflexivity.
  - change (length (big_endian_bytes (server_pure_precedence G file2))) with 4%nat.
    destruct (position _ <? position _); lia.
  - change (length (big_endian_bytes (server_pure_precedence G file2))) with 4%nat.
    lia.
Qed.

End CoreSortKeyFacts.

Lemma fs_generate_core_sort_key_pure_list_first_witness :
  sorts_before
    (fst (fst (fs_generate_core_sort_key (X := example_externals) example_globals_pure
                 4 (fun _ => 12) sort_table_zero example_in_Abc
                 (stream_init (replicate 64 0)) true fs_state_initial)))
    (fst (fst (fs_generate_core_sort_key (X := example_externals) example_globals_pure
                 4 (fun _ => 12) sort_table_zero example_in_abd
                 (stream_init (replicate 64 0)) true fs_state_initial))).
Proof.
  apply (fs_generate_core_sort_key_pure_list_first (X := example_externals)
           example_globals_pure 4).
  - vm_compute. split; discriminate.
  - vm_compute. split; discriminate.
  - vm_compute. split; [reflexivity | discriminate].
  - right. vm_compute. split; [reflexivity | discriminate].
Defined.

(** ** What the core pak verification reports *)

Lemma with_events_nil (st : fs_state) : with_events st [] = st.
Proof. unfold with_events. rewrite app_nil_r. destruct st; reflexivity. Qed.

Lemma with_events_app (st : fs_state) (a b : list fs_event) :
  with_events (with_events st a) b = with_events st (a ++ b).
Proof. unfold with_events. cbn [events]. rewrite app_assoc. reflexivity. Qed.

Lemma bind_eq {A B : Type} (c : M A) (k : A -> M B) (st st' : fs_state) (a : A) :
  c st = (a, st') -> bind c k st = k a st'.
Proof. intros E. unfold bind. rewrite E. reflexivity. Qed.

Lemma generate_pak_warnings_events (mod_ filename : string) (state : core_pak_state_t)
  (popup : list popup_line) (st : fs_state) :
  generate_pak_warnings mod_ filename state popup st
  = (popup ++ pak_warning_popup mod_ filename state,
     with_events st (map Ev_print (pak_warning_console mod_ filename state))).
Proof.
  unfold generate_pak_warnings, pak_warning_popup, pak_warning_console.
  destruct (hash_match state) as [hm|]; destruct (name_match state) as [nm|];
    try destruct (negb (same_file nm hm));
    cbn [map]; unfold bind, Com_Printf, emit, ret, with_events;
    rewrite ?app_nil_r; try reflexivity; destruct st; reflexivity.
Qed.

Lemma generate_all_warnings_events (mod_ : string) (states : list core_pak_state_t)
  (i : Z) (popup : list popup_line) (st : fs_state) :
  generate_all_warnings mod_ states i popup st
  = (popup ++ all_warning_popup mod_ states i,
     with_events st (map Ev_print (all_warning_console mod_ states i))).
Proof.
  revert i popup st. induction states as [|s states IH]; intros i popup st.
  - cbn [generate_all_warnings all_warning_popup all_warning_console map].
    rewrite app_nil_r, with_events_nil. reflexivity.
  - cbn [generate_all_warnings all_warning_popup all_warning_console].
    rewrite (bind_eq _ _ _ _ _ (generate_pak_warnings_events _ _ _ _ _)).
    rewrite IH, with_events_app, map_app, app_assoc. reflexivity.
Qed.

Section CorePakReportFacts.

Context `{X : fs_externals}.
Variable G : fs_globals.

Lemma effective_folders_with_events (st : fs_state) (evs : list fs_event) :
  effective_folders G (with_events st evs) = effective_folders G st.
Proof.
  unfold effective_folders, fs_servercfg_update_state, with_events.
  cbn [servercfg_cvar_mod_count servercfg_folders events].
  destruct (negb _); [|reflexivity].
  destruct (servercfg_parse _ _) as [folders hit]. reflexivity.
Qed.

Lemma default_cfg_scan_computes (files : list fsc_file_t) (mod_ : option string)
  (filename : string) (hash : Z) :
  computes G (default_cfg_scan G files mod_ filename hash)
           (fun folders => default_cfg_scan_of G folders files mod_ filename hash).
Proof.
  induction files as [|file files IH].
  - exact (computes_ret G false).
  - cbn [default_cfg_scan default_cfg_scan_of]. eapply computes_ext.
    + apply (computes_bind G _ _
               (fun folders =>
                  first_triggered FD_CHECK_READ_INACTIVE_MODS
                                  (disabled_checks G folders file))
               (fun d folders =>
                  if negb (d =? 0)
                  then default_cfg_scan_of G folders files mod_ filename hash
                  else if negb (sourcetype file =? FSC_SOURCETYPE_PK3)
                  then default_cfg_scan_of G folders files mod_ filename hash
                  else if negb (Q_stricmp (qp_ext file) ".cfg" =? 0)
                  then default_cfg_scan_of G folders files mod_ filename hash
                  else
                    match fsc_get_base_file file with
                    | Some source_pk3 =>
                        if pk3_hash source_pk3 =? hash then true
                        else if mod_differs (fsc_get_mod_dir source_pk3) mod_
                        then default_cfg_scan_of G folders files mod_ filename hash
                        else if Q_stricmp (qp_name source_pk3) filename =? 0 then true
                        else default_cfg_scan_of G folders files mod_ filename hash
                    | None => default_cfg_scan_of G folders files mod_ filename hash
                    end)).
      * apply fs_file_disabled_computes.
      * intros d.
        destruct (negb (d =? 0)); [exact IH|].
        destruct (negb (sourcetype file =? FSC_SOURCETYPE_PK3)); [exact IH|].
        destruct (negb (Q_stricmp (qp_ext file) ".cfg" =? 0)); [exact IH|].
        destruct (fsc_get_base_file file) as [source_pk3|]; [|exact IH].
        destruct (pk3_hash source_pk3 =? hash); [apply computes_ret|].
        destruct (mod_differs (fsc_get_mod_dir source_pk3) mod_); [exact IH|].
        destruct (Q_stricmp (qp_name source_pk3) filename =? 0);
          [apply computes_ret | exact IH].
    + intros folders. cbv beta. unfold read_enabled. reflexivity.
Qed.

Lemma get_pak_states_value (mod_ : string) (hashes : list Z) (i : Z) (st : fs_state) :
  fst (get_pak_states G mod_ hashes i st)
  = pak_states_of G (effective_folders G st) mod_ hashes i.
Proof.
  destruct (get_pak_states_computes G mod_ hashes i st) as (st' & E & _).
  rewrite E. reflexivity.
Qed.

Lemma check_default_cfg_pk3_value (mod_ : option string) (filename : string) (hash : Z)
  (st : fs_state) :
  fst (check_default_cfg_pk3 G mod_ filename hash st)
  = default_cfg_scan_of G (effective_folders G st) (fsc_file_iterator "" "default")
                        mod_ filename hash.
Proof.
  destruct (default_cfg_scan_computes (fsc_file_iterator "" "default") mod_ filename
              hash st) as (st' & E & _).
  unfold check_default_cfg_pk3. rewrite E. reflexivity.
Qed.

(** The default.cfg step of [fs_check_core_paks]. *)
Lemma default_cfg_step (core : list core_pak_state_t) (popup : list popup_line)
  (st : fs_state) :
  let pak0 := default {| name_match := None; hash_match := None |} (core !! 0%nat) in
  let missing :=
    default_cfg_missing core
      (default_cfg_scan_of G (effective_folders G st) (fsc_file_iterator "" "default")
                           (Some BASEGAME) "pak0" (default 0 (core_hashes !! 0%nat))) in
  exists st' notices,
    (if has_name_match pak0 || has_hash_match pak0 then
       found <- check_default_cfg_pk3 G (Some BASEGAME) "pak0"
                  (default 0 (core_hashes !! 0%nat)) ;;
       if negb found then
         _ <- Com_Printf Print_default_cfg_not_found ;;
         ret (popup ++ [Popup_default_cfg_not_found])
       else ret popup
     else ret popup) st
    = (popup ++ (if missing then [Popup_default_cfg_not_found] else []), st')
    /\ servercfg_notices notices
    /\ events st' = events st ++ notices ++
                    (if missing then [Ev_print Print_default_cfg_not_found] else []).
Proof.
  cbv zeta. unfold default_cfg_missing.
  destruct (has_name_match _ || has_hash_match _).
  - destruct (default_cfg_scan_computes (fsc_file_iterator "" "default") (Some BASEGAME)
                "pak0" (default 0 (core_hashes !! 0%nat)) st)
      as (st1 & E1 & F1 & evs1 & Ev1 & N1).
    unfold check_default_cfg_pk3. rewrite (bind_eq _ _ _ _ _ E1).
    destruct (default_cfg_scan_of G _ _ _ _ _); cbn [negb andb].
    + exists st1, evs1. split; [rewrite app_nil_r; reflexivity|]. split; [exact N1|].
      rewrite Ev1, app_nil_r. reflexivity.
    + exists (with_events st1 [Ev_print Print_default_cfg_not_found]), evs1.
      split; [reflexivity|]. split; [exact N1|].
      cbn [with_events events]. rewrite Ev1, app_assoc. reflexivity.
  - exists st, []. cbn [andb]. split; [rewrite app_nil_r; reflexivity|].
    split; [constructor|]. rewrite !app_nil_r. reflexivity.
Qed.

(** The dialog step of [fs_check_core_paks]. *)
Lemma closing_step (popup : list popup_line) (st : fs_state) :
  (if negb DEDICATED && negb (length popup =? 0)%nat then
     _ <- emit (Ev_dialog popup) ;;
     if Sys_Dialog_cancelled popup then emit Ev_quit else ret tt
   else ret tt) st
  = (tt, with_events st (core_paks_closing popup)).
Proof.
  unfold core_paks_closing.
  destruct (negb DEDICATED && negb (length popup =? 0)%nat).
  - unfold bind, emit, ret, with_events. cbn [events].
    destruct (Sys_Dialog_cancelled popup); cbn [events];
      rewrite <- ?app_assoc; reflexivity.
  - unfold ret. rewrite with_events_nil. reflexivity.
Qed.

(** The events of [fs_check_core_paks], from the pak states and the answer
    of [check_default_cfg_pk3]. *)
Lemma fs_check_core_paks_events (st : fs_state) :
  let core := fst (get_pak_states G BASEGAME core_hashes 0 st) in
  let missionpack := fst (get_pak_states G "missionpack" missionpack_hashes 0 st) in
  let default_cfg :=
    fst (check_default_cfg_pk3 G (Some BASEGAME) "pak0"
           (default 0 (core_hashes !! 0%nat)) st) in
  exists notices1 notices2,
    servercfg_notices notices1 /\ servercfg_notices notices2
    /\ events (snd (fs_check_core_paks G st))
       = events st ++ notices1 ++
         (if core_paks_standalone G core missionpack
          then [Ev_print Print_standalone; Ev_cvar_set "com_standalone" "1"]
          else map Ev_print (core_paks_console core missionpack) ++ notices2 ++
               (if default_cfg_missing core default_cfg
                then [Ev_print Print_default_cfg_not_found] else []) ++
               core_paks_closing (core_paks_popup core missionpack default_cfg)).
Proof.
  cbv zeta. rewrite !get_pak_states_value, check_default_cfg_pk3_value.
  destruct (get_pak_states_computes G BASEGAME core_hashes 0 st)
    as (st1 & E1 & F1 & evs1 & Ev1 & N1).
  destruct (get_pak_states_computes G "missionpack" missionpack_hashes 0 st1)
    as (st2 & E2 & F2 & evs2 & Ev2 & N2).
  rewrite F1 in E2.
  set (core := pak_states_of G (effective_folders G st) BASEGAME core_hashes 0) in *.
  set (mp := pak_states_of G (effective_folders G st) "missionpack"
                           missionpack_hashes 0) in *.
  unfold fs_check_core_paks.
  rewrite (bind_eq _ _ _ _ _ E1). rewrite (bind_eq _ _ _ _ _ E2). cbv zeta.
  fold (missionpack_installed mp). fold (core_paks_standalone G core mp).
  destruct (core_paks_standalone G core mp).
  - exists (evs1 ++ evs2), []. split; [apply Forall_app; split; assumption|].
    split; [constructor|].
    unfold bind, Com_Printf, emit. cbn [snd events].
    rewrite Ev2, Ev1, <- !app_assoc. reflexivity.
  - rewrite (bind_eq _ _ _ _ _ (generate_all_warnings_events _ _ _ _ _)).
    cbn [app].
    set (W1 := map Ev_print (all_warning_console BASEGAME core 0)).
    assert (Emp : (if missionpack_installed mp
                   then generate_all_warnings "missionpack" mp 0
                          (all_warning_popup BASEGAME core 0)
                   else ret (all_warning_popup BASEGAME core 0)) (with_events st2 W1)
                  = (all_warning_popup BASEGAME core 0
                     ++ (if missionpack_installed mp
                         then all_warning_popup "missionpack" mp 0 else []),
                     with_events st2 (map Ev_print (core_paks_console core mp)))).
    { unfold core_paks_console. destruct (missionpack_installed mp).
      - rewrite generate_all_warnings_events, with_events_app, map_app. reflexivity.
      - unfold ret. rewrite !app_nil_r. reflexivity. }
    rewrite (bind_eq _ _ _ _ _ Emp).
    set (st3 := with_events st2 (map Ev_print (core_paks_console core mp))).
    destruct (default_cfg_step core
                (all_warning_popup BASEGAME core 0
                 ++ (if missionpack_installed mp
                     then all_warning_popup "missionpack" mp 0 else [])) st3)
      as (st4 & n3 & E4 & N3 & Ev4).
    assert (F3 : effective_folders G st3 = effective_folders G st).
    { unfold st3. rewrite effective_folders_with_events. congruence. }
    rewrite F3 in E4, Ev4.
    rewrite (bind_eq _ _ _ _ _ E4).
    rewrite closing_step. cbn [snd with_events events].
    exists (evs1 ++ evs2), n3. split; [apply Forall_app; split; assumption|].
    split; [exact N3|].
    rewrite Ev4. unfold st3. cbn [with_events events]. rewrite Ev2, Ev1.
    unfold core_paks_popup. rewrite <- !app_assoc. reflexivity.
Qed.

(** X21. On a complete installation [fs_check_core_paks] is silent: when
    every base pak is found under its name with the expected hash, every
    missionpack pak is either found so or the missionpack is not there at
    all, and a pk3 with the name or hash of pak0 holds default.cfg, the call
    prints no warning, shows no dialog, does not exit and does not enable
    standalone mode. *)
Theorem fs_check_core_paks_silent (st : fs_state) :
  let core := fst (get_pak_states G BASEGAME core_hashes 0 st) in
  let missionpack := fst (get_pak_states G "missionpack" missionpack_hashes 0 st) in
  forallb pak_state_exact core = true ->
  forallb pak_state_exact missionpack || negb (missionpack_installed missionpack) = true ->
  fst (check_default_cfg_pk3 G (Some BASEGAME) "pak0"
         (default 0 (core_hashes !! 0%nat)) st) = true ->
  exists notices,
    servercfg_notices notices
    /\ events (snd (fs_check_core_paks G st)) = events st ++ notices.
Proof.
  cbv zeta. intros Hcore Hmp Hcfg.
  destruct (fs_check_core_paks_events st) as (n1 & n2 & N1 & N2 & E).
  rewrite Hcfg in E.
  set (core := fst (get_pak_states G BASEGAME core_hashes 0 st)) in *.
  set (mp := fst (get_pak_states G "missionpack" missionpack_hashes 0 st)) in *.
  assert (Hexact : forall m states i,
             forallb pak_state_exact states = true ->
             all_warning_console m states i = [] /\ all_warning_popup m states i = []
             /\ (states <> [] -> existsb has_hash_match states = true)).
  { intros m states. induction states as [|s states IH]; intros i Hs.
    - split; [reflexivity|]. split; [reflexivity|]. congruence.
    - cbn [forallb] in Hs. apply andb_true_iff in Hs. destruct Hs as [Hs Hrest].
      destruct (IH (i + 1) Hrest) as (Hc & Hp & _).
      cbn [all_warning_console all_warning_popup existsb]. rewrite Hc, Hp.
      unfold pak_state_exact in Hs.
      unfold pak_warning_console, pak_warning_popup, has_hash_match.
      destruct (name_match s) as [nm|]; [|discriminate].
      destruct (hash_match s) as [hm|]; [|discriminate].
      rewrite Hs. split; [reflexivity|]. split; [reflexivity|]. intros _. reflexivity. }
  assert (Hlen : core <> []).
  { intros Hnil. apply (f_equal (@length _)) in Hnil.
    unfold core in Hnil. rewrite get_pak_states_value in Hnil.
    simpl in Hnil. discriminate. }
  destruct (Hexact BASEGAME core 0 Hcore) as (Hc1 & Hp1 & Hh1).
  assert (Hstand : core_paks_standalone G core mp = false).
  { unfold core_paks_standalone. rewrite (Hh1 Hlen). cbn [orb negb].
    apply andb_false_r. }
  rewrite Hstand in E.
  assert (Hmis : default_cfg_missing core true = false)
    by (unfold default_cfg_missing; cbv zeta; apply andb_false_r).
  assert (Hmpc : (if missionpack_installed mp
                  then all_warning_console "missionpack" mp 0 else []) = []
                 /\ (if missionpack_installed mp
                     then all_warning_popup "missionpack" mp 0 else []) = []).
  { destruct (missionpack_installed mp); [|split; reflexivity].
    rewrite orb_false_r in Hmp.
    destruct (Hexact "missionpack"%string mp 0 Hmp) as (Hc & Hp & _).
    split; assumption. }
  destruct Hmpc as [Hc2 Hp2].
  unfold core_paks_console, core_paks_popup in E.
  rewrite Hmis, Hc1, Hp1, Hc2, Hp2 in E. cbn [app map] in E.
  unfold core_paks_closing in E. cbn [length Nat.eqb negb] in E.
  rewrite andb_false_r in E. rewrite !app_nil_r in E.
  exists (n1 ++ n2). split; [apply Forall_app; split; assumption | exact E].
Qed.

(** X22. The warning dialog of [fs_check_core_paks] comes last and at most
    once: whatever the installation, the call first produces console output,
    and possibly the standalone cvar, and then nothing more when standalone
    mode was enabled, when the build is [DEDICATED] or when the popup text is
    empty; otherwise it shows the dialog with the popup text, and exits after
    it exactly when the dialog was cancelled.  The standalone cvar is set
    exactly on the standalone condition. *)
Theorem fs_check_core_paks_dialog_last (st : fs_state) :
  let core := fst (get_pak_states G BASEGAME core_hashes 0 st) in
  let missionpack := fst (get_pak_states G "missionpack" missionpack_hashes 0 st) in
  let default_cfg :=
    fst (check_default_cfg_pk3 G (Some BASEGAME) "pak0"
           (default 0 (core_hashes !! 0%nat)) st) in
  let popup := core_paks_popup core missionpack default_cfg in
  exists console,
    Forall console_event console
    /\ events (snd (fs_check_core_paks G st))
       = events st ++ console ++
         (if core_paks_standalone G core missionpack then []
          else if negb DEDICATED && negb (length popup =? 0)%nat
          then Ev_dialog popup :: (if Sys_Dialog_cancelled popup then [Ev_quit] else [])
          else [])
    /\ (In (Ev_cvar_set "com_standalone" "1") console
        <-> core_paks_standalone G core missionpack = true).
Proof.
  cbv zeta.
  destruct (fs_check_core_paks_events st) as (n1 & n2 & N1 & N2 & E).
  set (core := fst (get_pak_states G BASEGAME core_hashes 0 st)) in *.
  set (mp := fst (get_pak_states G "missionpack" missionpack_hashes 0 st)) in *.
  set (cfg := fst (check_default_cfg_pk3 G (Some BASEGAME) "pak0"
                     (default 0 (core_hashes !! 0%nat)) st)) in *.
  assert (Hn : forall n, servercfg_notices n ->
                         Forall console_event n
                         /\ ~ In (Ev_cvar_set "com_standalone" "1") n).
  { intros n Hn. split.
    - eapply Forall_impl; [exact Hn|]. intros e ->. exact I.
    - intros Hin. unfold servercfg_notices in Hn. rewrite Forall_forall in Hn.
      apply list_elem_of_In in Hin. specialize (Hn _ Hin). discriminate. }
  destruct (Hn n1 N1) as [C1 S1]. destruct (Hn n2 N2) as [C2 S2].
  destruct (core_paks_standalone G core mp).
  - exists (n1 ++ [Ev_print Print_standalone; Ev_cvar_set "com_standalone" "1"]).
    split; [|split].
    + apply Forall_app. split; [exact C1|]. repeat constructor.
    + rewrite E, app_nil_r. reflexivity.
    + split; [reflexivity|]. intros _. apply in_or_app. right. right. left. reflexivity.
  - exists (n1 ++ map Ev_print (core_paks_console core mp) ++ n2 ++
            (if default_cfg_missing core cfg
             then [Ev_print Print_default_cfg_not_found] else [])).
    split; [|split].
    + apply Forall_app. split; [exact C1|].
      apply Forall_app. split.
      { apply Forall_map. apply Forall_forall. intros line _. exact I. }
      apply Forall_app. split; [exact C2|].
      destruct (default_cfg_missing core cfg); repeat constructor.
    + rewrite E. unfold core_paks_closing. rewrite <- !app_assoc. reflexivity.
    + split; [|discriminate]. intros Hin. exfalso.
      apply in_app_or in Hin. destruct Hin as [Hin|Hin]; [exact (S1 Hin)|].
      apply in_app_or in Hin. destruct Hin as [Hin|Hin].
      { apply in_map_iff in Hin. destruct Hin as (line & Hl & _). discriminate. }
      apply in_app_or in Hin. destruct Hin as [Hin|Hin]; [exact (S2 Hin)|].
      destruct (default_cfg_missing core cfg); simpl in Hin;
        [destruct Hin as [Hin|[]]; discriminate | contradiction].
Qed.

End CorePakReportFacts.

Lemma fs_check_core_paks_silent_witness :
  events (snd (fs_check_core_paks (X := example_full_externals) example_globals
                 fs_state_initial)) = [].
Proof.
  destruct (fs_check_core_paks_silent (X := example_full_externals) example_globals
              fs_state_initial) as (notices & Hn & E).
  - vm_compute. reflexivity.
  - vm_compute. reflexivity.
  - vm_compute. reflexivity.
  - rewrite E. cbn [fs_state_initial events app].
    assert (Hq : events (snd (fs_check_core_paks (X := example_full_externals)
                                example_globals fs_state_initial)) = [])
      by (vm_compute; reflexivity).
    rewrite E in Hq. exact Hq.
Defined.

(** ** Indented debug prints *)

Lemma until_nul_spaces (n : nat) (rest : list Z) :
  until_nul (replicate n 32 ++ 0 :: rest) = replicate n 32.
Proof.
  induction n as [|n IH]; cbn [replicate app until_nul].
  - reflexivity.
  - change (32 =? 0) with false. cbv iota. rewrite IH. reflexivity.
Qed.

(** X23. [FS_DPrintf] stays inside its 16-byte [spaces] array whatever the
    indent level, negative levels included: the NUL is written at an even
    index from 0 to 8, and the message is printed after two spaces per level,
    four levels at most (eight spaces for a negative level, which the
    conversion to [unsigned int] makes large). *)
Theorem FS_DPrintf_indent_in_bounds (level : Z) (msg : list Z) :
  - INT_MAX - 1 <= level <= INT_MAX ->
  0 <= debug_indent_index level <= 8
  /\ debug_indent_index level < Z.of_nat (length debug_spaces)
  /\ FS_DPrintf level msg
     = replicate (Z.to_nat (if (0 <=? level) && (level <=? 4) then 2 * level else 8)) 32
       ++ msg.
Proof.
  intros Hl.
  assert (Hi : debug_indent_index level
               = if (0 <=? level) && (level <=? 4) then 2 * level else 8).
  { unfold debug_indent_index, u32, INT_MAX in *.
    destruct (Z.leb_spec 0 level) as [H0|H0]; cbn [andb].
    - rewrite (Z.mod_small level) by lia.
      destruct (Z.leb_spec level 4) as [H4|H4].
      + destruct (Z.ltb_spec 4 level); [lia|]. rewrite Z.mod_small by lia. lia.
      + destruct (Z.ltb_spec 4 level); [|lia]. reflexivity.
    - replace (level mod 4294967296) with (level + 4294967296).
      + destruct (Z.ltb_spec 4 (level + 4294967296)); [reflexivity | lia].
      + symmetry. rewrite <- (Z.mod_add level 1 4294967296) by lia.
        apply Z.mod_small. lia. }
  assert (Hr : 0 <= debug_indent_index level <= 8 /\
               exists k, debug_indent_index level = 2 * Z.of_nat k /\ (k <= 4)%nat).
  { rewrite Hi. destruct (Z.leb_spec 0 level) as [H0|H0]; cbn [andb].
    - destruct (Z.leb_spec level 4) as [H4|H4].
      + split; [lia|]. exists (Z.to_nat level). lia.
      + split; [lia|]. exists 4%nat. lia.
    - split; [lia|]. exists 4%nat. lia. }
  destruct Hr as [Hr (k & Hk & Hk4)].
  split; [exact Hr|]. split; [simpl; lia|].
  unfold FS_DPrintf. rewrite <- Hi, Hk. f_equal.
  replace (Z.to_nat (2 * Z.of_nat k)) with (2 * k)%nat by lia.
  clear -Hk4.
  assert (Hc : k = 0%nat \/ k = 1%nat \/ k = 2%nat \/ k = 3%nat \/ k = 4%nat) by lia.
  destruct Hc as [->|[->|[->|[->| ->]]]]; reflexivity.
Qed.

(** X24. The debug indent level never becomes negative:
    [fs_debug_indent_stop] leaves a level between 0 and [INT_MAX] and prints
    its warning exactly when it was called at a level of 0 or less;
    [fs_debug_indent_start] followed by [fs_debug_indent_stop] restores the
    level without a warning. *)
Theorem fs_debug_indent_balanced (level : Z) :
  - INT_MAX <= level <= INT_MAX ->
  0 <= fst (fs_debug_indent_stop level) <= INT_MAX
  /\ (snd (fs_debug_indent_stop level) = true <-> level <= 0)
  /\ (0 < level -> fs_debug_indent_stop level = (level - 1, false))
  /\ (0 <= level < INT_MAX ->
      fs_debug_indent_stop (fs_debug_indent_start level) = (level, false)).
Proof.
  intros Hl. unfold fs_debug_indent_stop, fs_debug_indent_start.
  assert (Hs : forall x, - INT_MAX - 1 <= x <= INT_MAX -> int32 x = x).
  { intros x Hx. unfold int32, u32, INT_MAX in *. cbv zeta.
    destruct (Z.leb_spec 0 x) as [H0|H0].
    - rewrite (Z.mod_small x) by lia.
      destruct (Z.leb_spec x 2147483647); [reflexivity | lia].
    - replace (x mod 4294967296) with (x + 4294967296).
      + destruct (Z.leb_spec (x + 4294967296) 2147483647); lia.
      + symmetry. rewrite <- (Z.mod_add x 1 4294967296) by lia.
        apply Z.mod_small. lia. }
  rewrite (Hs (level - 1)) by (unfold INT_MAX in *; lia).
  split; [|split; [|split]].
  - destruct (Z.ltb_spec (level - 1) 0); cbn [fst]; unfold INT_MAX in *; lia.
  - destruct (Z.ltb_spec (level - 1) 0) as [Hneg|Hnn]; cbn [snd]; split; intros Hw;
      try discriminate; try reflexivity; lia.
  - intros Hp. destruct (Z.ltb_spec (level - 1) 0); [lia | reflexivity].
  - intros Hp. rewrite (Hs (level + 1)) by (unfold INT_MAX in *; lia).
    rewrite (Hs (level + 1 - 1)) by (unfold INT_MAX in *; lia).
    destruct (Z.ltb_spec (level + 1 - 1) 0); [lia|]. f_equal. lia.
Qed.

Lemma FS_DPrintf_indent_in_bounds_witness :
  FS_DPrintf (-1) [104; 105] = replicate 8 32 ++ [104; 105].
Proof.
  apply (FS_DPrintf_indent_in_bounds (-1) [104; 105]).
  vm_compute. split; discriminate.
Defined.

Lemma fs_debug_indent_balanced_witness :
  fs_debug_indent_stop 0 = (0, true)
  /\ fs_debug_indent_stop (fs_debug_indent_start 3) = (3, false).
Proof.
  split; [reflexivity|].
  apply (fs_debug_indent_balanced 3); vm_compute; split; try discriminate; reflexivity.
Defined.

(** ** Files of the same pk3, lists of strings *)

Section FileHelpersFacts.

Context `{X : fs_externals}.
Variable source_pk3 : fsc_file_t -> Z.
Variable fsc_stream_append_string : fsc_stream_t -> string -> fsc_stream_t.

(** X25. [fs_files_from_same_pk3] is an equivalence on the files that come
    from a pk3 and holds for no other file: it is symmetric and transitive, a
    file is in relation with itself exactly when it is not null and of
    sourcetype PK3, and two such files are in relation exactly when their
    source pk3 is the same. *)
Theorem fs_files_from_same_pk3_equivalence (file1 file2 file3 : option fsc_file_t) :
  fs_files_from_same_pk3 source_pk3 file1 file2
  = fs_files_from_same_pk3 source_pk3 file2 file1
  /\ (fs_files_from_same_pk3 source_pk3 file1 file2 = true ->
      fs_files_from_same_pk3 source_pk3 file2 file3 = true ->
      fs_files_from_same_pk3 source_pk3 file1 file3 = true)
  /\ (fs_files_from_same_pk3 source_pk3 file1 file1 = true
      <-> exists f, file1 = Some f /\ sourcetype f = FSC_SOURCETYPE_PK3)
  /\ (fs_files_from_same_pk3 source_pk3 file1 file2 = true
      <-> exists f1 f2, file1 = Some f1 /\ file2 = Some f2
                        /\ sourcetype f1 = FSC_SOURCETYPE_PK3
                        /\ sourcetype f2 = FSC_SOURCETYPE_PK3
                        /\ source_pk3 f1 = source_pk3 f2).
Proof.
  assert (C : forall a b,
             fs_files_from_same_pk3 source_pk3 a b = true
             <-> exists f1 f2, a = Some f1 /\ b = Some f2
                               /\ sourcetype f1 = FSC_SOURCETYPE_PK3
                               /\ sourcetype f2 = FSC_SOURCETYPE_PK3
                               /\ source_pk3 f1 = source_pk3 f2).
  { intros a b. unfold fs_files_from_same_pk3.
    destruct a as [f1|]; [|split; [discriminate | intros (? & ? & ? & _); discriminate]].
    destruct b as [f2|];
      [|split; [discriminate | intros (? & ? & _ & ? & _); discriminate]].
    destruct (Z.eqb_spec (sourcetype f1) FSC_SOURCETYPE_PK3) as [E1|E1];
      destruct (Z.eqb_spec (sourcetype f2) FSC_SOURCETYPE_PK3) as [E2|E2];
      destruct (Z.eqb_spec (source_pk3 f1) (source_pk3 f2)) as [E3|E3];
      cbn [negb orb]; split; try discriminate;
      try (intros _; exists f1, f2; repeat split; assumption);
      try (intros _; reflexivity);
      intros (g1 & g2 & Hg1 & Hg2 & H1 & H2 & H3);
      injection Hg1 as <-; injection Hg2 as <-; contradiction. }
  split; [|split; [|split]].
  - destruct (fs_files_from_same_pk3 source_pk3 file1 file2) eqn:E12;
      destruct (fs_files_from_same_pk3 source_pk3 file2 file1) eqn:E21;
      try reflexivity.
    + apply C in E12. destruct E12 as (f1 & f2 & -> & -> & H1 & H2 & H3).
      assert (H : fs_files_from_same_pk3 source_pk3 (Some f2) (Some f1) = true)
        by (apply C; exists f2, f1; repeat split; congruence).
      congruence.
    + apply C in E21. destruct E21 as (f2 & f1 & -> & -> & H2 & H1 & H3).
      assert (H : fs_files_from_same_pk3 source_pk3 (Some f1) (Some f2) = true)
        by (apply C; exists f1, f2; repeat split; congruence).
      congruence.
  - intros H12 H23. apply C in H12. apply C in H23.
    destruct H12 as (f1 & f2 & -> & -> & H1 & H2 & H3).
    destruct H23 as (g2 & f3 & [= <-] & -> & _ & H4 & H5).
    apply C. exists f1, f3. repeat split; congruence.
  - rewrite C. split.
    + intros (f1 & f2 & -> & _ & H1 & _). exists f1. split; [reflexivity | exact H1].
    + intros (f & -> & H). exists f, f. repeat split; assumption.
  - apply C.
Qed.

Lemma listed_items_cons (entry : option string) (strings : list (option string)) :
  listed_items (entry :: strings)
  = match listed_item entry with
    | Some s => s :: listed_items strings
    | None => listed_items strings
    end.
Proof. reflexivity. Qed.

Lemma comma_list_loop_spec (strings : list (option string)) (have_item : bool)
  (output : fsc_stream_t) :
  comma_list_loop fsc_stream_append_string strings have_item output
  = (fold_left fsc_stream_append_string
       (match listed_items strings with
        | [] => []
        | items => (if have_item then [", "%string] else []) ++ comma_separated items
        end) output,
     have_item || negb (length (listed_items strings) =? 0)%nat).
Proof.
  revert have_item output. induction strings as [|entry strings IH];
    intros have_item output.
  - cbn. rewrite orb_false_r. reflexivity.
  - cbn [comma_list_loop]. rewrite listed_items_cons. unfold listed_item.
    destruct entry as [s|]; [|apply IH].
    destruct (negb (head_code s =? 0)); [|apply IH].
    rewrite IH.
    destruct (listed_items strings) as [|item items].
    + cbn [length Nat.eqb negb orb comma_separated fold_left app].
      rewrite orb_true_r. destruct have_item; reflexivity.
    + cbn [length Nat.eqb negb orb]. rewrite !orb_true_r.
      cbn [comma_separated]. destruct have_item; reflexivity.
Qed.

(** X26. [fs_comma_separated_list] appends to the stream the strings of the
    first [count] entries that are neither null nor empty, in their order,
    with ", " between two of them and nowhere else; when there is no such
    string, and only then, it appends "<none>". *)
Theorem fs_comma_separated_list_spec (strings : list (option string)) (count : Z)
  (output : fsc_stream_t) :
  let items := listed_items (take (Z.to_nat count) strings) in
  fs_comma_separated_list fsc_stream_append_string strings count output
  = fold_left fsc_stream_append_string
      (EmptyString ::
       match items with
       | [] => ["<none>"%string]
       | _ => comma_separated items
       end) output.
Proof.
  cbv zeta. unfold fs_comma_separated_list. rewrite comma_list_loop_spec.
  cbn [fold_left orb].
  destruct (listed_items (take (Z.to_nat count) strings)) as [|item items];
    reflexivity.
Qed.

End FileHelpersFacts.

(** ** Config files and game dlls *)

Section ConfigFileFacts.

Context `{E : exec_externals}.

(** X27. [fs_execute_config_file] frees the data it gets hold of exactly
    once, as its last step and after handing it to the command buffer, and
    frees or executes nothing when it got no data.  Outside journal playback
    every call writes exactly one journal record: the data with its size, or
    the empty record when the file was not found or could not be read.  In
    journal playback the file system is not touched, and the record written
    for the data has size 0. *)
Theorem fs_execute_config_file_protocol (name : string) (config_type exec_type : Z)
  (quiet : bool) :
  let evs := fs_execute_config_file name config_type exec_type quiet in
  let playback := negb (com_journalDataFile =? 0) && (com_journal =? 2) in
  List.filter is_free evs
  = match config_data name config_type with
    | Some (data, _) => [Ex_free data]
    | None => []
    end
  /\ List.filter is_execute evs
     = match config_data name config_type with
       | Some (data, _) =>
           Ex_execute exec_type data ::
           (if exec_type =? EXEC_APPEND then [Ex_execute EXEC_APPEND newline] else [])
       | None => []
       end
  /\ (forall data size, config_data name config_type = Some (data, size) ->
                        last evs = Some (Ex_free data))
  /\ List.filter is_journal_write evs
     = match config_data name config_type with
       | Some (data, size) => [Ex_write_journal (Some data) size]
       | None => if playback then [] else [Ex_write_journal None 0]
       end
  /\ (playback = true ->
      List.filter is_file_system_access evs = []
      /\ forall data size, config_data name config_type = Some (data, size) -> size = 0).
Proof.
  cbv zeta. unfold fs_execute_config_file, config_data, execute_config_data.
  destruct (negb (com_journalDataFile =? 0) && (com_journal =? 2)).
  - destruct fs_read_journal_data as [data|];
      destruct (exec_type =? EXEC_APPEND); cbn;
      repeat split; try reflexivity; try discriminate;
      intros d sz Hd; injection Hd as <- <-; reflexivity.
  - destruct quiet; cbn [negb app];
      destruct (fs_general_lookup name (config_lookup_flags config_type)) as [file|];
      try destruct (fs_read_data file) as [[data size]|];
      destruct (exec_type =? EXEC_APPEND); cbn;
      repeat split; try reflexivity; try discriminate;
      intros d sz Hd; injection Hd as <- <-; reflexivity.
Qed.

(** X28. The lookup [fs_execute_config_file] makes always allows direct
    sourced files on a pure server and ignores the current map; it excludes
    the download folder whenever [fs_download_mode] is 2 or more; for a
    settings file it asks for a settings location and for files on disk only,
    for the default config for a settings location. *)
Theorem config_lookup_flags_requests (config_type : Z) :
  let lookup_flags := config_lookup_flags config_type in
  let requests flag := Z.land lookup_flags flag = flag in
  requests LOOKUPFLAG_PURE_ALLOW_DIRECT_SOURCE
  /\ requests LOOKUPFLAG_IGNORE_CURRENT_MAP
  /\ (2 <= fs_download_mode -> requests LOOKUPFLAG_NO_DOWNLOAD_FOLDER)
  /\ (config_type = FS_CONFIGTYPE_SETTINGS ->
      requests LOOKUPFLAG_SETTINGS_FILE /\ requests LOOKUPFLAG_DIRECT_SOURCE_ONLY)
  /\ (config_type = FS_CONFIGTYPE_DEFAULT -> requests LOOKUPFLAG_SETTINGS_FILE).
Proof.
  cbv zeta. unfold config_lookup_flags.
  assert (B : forall a b, Z.land a b = b <-> forall n, 0 <= n ->
                            Z.testbit b n = true -> Z.testbit a n = true).
  { intros a b. split.
    - intros Eq n Hn Hb. rewrite <- Eq in Hb. rewrite Z.land_spec in Hb.
      apply andb_true_iff in Hb. tauto.
    - intros H. apply Z.bits_inj'. intros n Hn. rewrite Z.land_spec.
      destruct (Z.testbit b n) eqn:Eb; [rewrite (H n Hn Eb); reflexivity|].
      apply andb_false_r. }
  assert (L : forall a b flag, Z.land a flag = flag \/ Z.land b flag = flag ->
                               Z.land (Z.lor a b) flag = flag).
  { intros a b flag H. apply B. intros n Hn Hf. rewrite Z.lor_spec.
    destruct H as [H|H]; rewrite B in H; rewrite (H n Hn Hf);
      [reflexivity | apply orb_true_r]. }
  assert (R : forall flag, Z.land flag flag = flag) by (intros; apply Z.land_diag).
  assert (K : forall (c : bool) a b flag,
             Z.land a flag = flag ->
             Z.land (if c then Z.lor a b else a) flag = flag).
  { intros c a b flag H. destruct c; [apply L; left; exact H | exact H]. }
  split; [|split; [|split; [|split]]].
  - apply K, K, K, L. left. apply R.
  - apply K, K, K, L. right. apply R.
  - intros Hm. apply K, K. destruct (Z.leb_spec 2 fs_download_mode); [|lia].
    apply L. right. apply R.
  - intros ->. rewrite Z.eqb_refl. split; apply K, L; right; apply L;
      [left | right]; apply R.
  - intros ->. rewrite Z.eqb_refl. apply L. right. apply R.
Qed.

End ConfigFileFacts.

Section GameDllFacts.

Context `{X : fs_externals} `{D : dll_externals}.

(** X29. [fs_load_game_dll] calls [Sys_LoadGameDll] at most once, and only
    for a file of sourcetype DIRECT whose path could be converted; the handle
    it returns is the one of that call, null in every other case.  The path
    string is freed exactly once when it was allocated, also when loading
    fails, and after the load. *)
Theorem fs_load_game_dll_spec (dll_file : fsc_file_t) :
  let result := fs_load_game_dll dll_file in
  let loadable :=
    if sourcetype dll_file =? FSC_SOURCETYPE_DIRECT
    then fsc_os_path_to_string dll_file else None in
  fst result = match loadable with Some path => Sys_LoadGameDll path | None => 0 end
  /\ List.filter (fun e => match e with Dl_load _ | Dl_free _ => true | _ => false end)
                 (snd result)
     = match loadable with Some path => [Dl_load path; Dl_free path] | None => [] end
  /\ (fst result <> 0 -> sourcetype dll_file = FSC_SOURCETYPE_DIRECT)
  /\ (In Dl_print_load_failed (snd result)
      <-> exists path, loadable = Some path /\ Sys_LoadGameDll path = 0).
Proof.
  cbv zeta. unfold fs_load_game_dll.
  destruct (Z.eqb_spec (sourcetype dll_file) FSC_SOURCETYPE_DIRECT) as [Es|Es];
    cbn [negb].
  - destruct (fsc_os_path_to_string dll_file) as [path|]; cbn [fst snd].
    + destruct (Z.eqb_spec (Sys_LoadGameDll path) 0) as [E0|E0]; cbn.
      * repeat split; try reflexivity; try (intros _; exact Es).
        -- intros _. exists path. split; [reflexivity | exact E0].
        -- intros _. right. right. left. reflexivity.
      * repeat split; try reflexivity; try (intros _; exact Es).
        -- intros [H|[H|[H|[]]]]; discriminate.
        -- intros (p & [= <-] & Hp). contradiction.
    + cbn. repeat split; try reflexivity; try (intros H; contradiction).
      * intros [H|[H|[]]]; discriminate.
      * intros (p & Hp & _). discriminate.
  - cbn. repeat split; try reflexivity; try (intros H; contradiction).
    + intros [H|[H|[]]]; discriminate.
    + intros (p & Hp & _). discriminate.
Qed.

End GameDllFacts.
